(** * VPREC-V3: the match state engine of the volleyball scorekeeper

    A shallow embedding of the state-carrying code of the application:
    - [App] (the root component): the match state store, the undo/redo
      stacks and the handlers [pushHistory], [handleUndo], [handleRedo],
      [handleNextSet], [handleGameAction], [handleGameStart],
      [handleLoadGame], [handleNewMatch];
    - [GameView]: the interaction flow and the handlers that commit to the
      store ([getRotatedLineup], [handleRotation], [handleScoreAdjust],
      [handleSubConfirm], [handleResult]);
    - [StatsOverlay]: the team filter [getTeamLogs] and [calculateStats];
    - [SetupView]: [sanitizeInput], [handlePlayerChange],
      [handleLiberoChange].

    React state is modelled by explicit state passing.  A handler is a
    closure over the values of one render; every [setX] call it makes is
    queued and applied to the pending state.  A handler is therefore a
    function of the rendered state [r] (what the closure reads) that
    threads a pending state through its [setX] calls; functional updaters
    ([setX(prev => ...)]) read the pending state, plain reads use [r]. *)

From Stdlib Require Import ZArith List String Ascii Bool Lia DecimalString.
Import ListNotations.
Open Scope string_scope.
Open Scope list_scope.
Open Scope Z_scope.

Notation "s |> f" := (f s) (at level 45, left associativity, only parsing).

(** Splits a goal into its atoms and closes them by computation,
    congruence or linear arithmetic. *)
Ltac crush :=
  repeat match goal with
         | |- _ /\ _ => split
         | |- _ -> _ => intro
         end;
  try discriminate; try reflexivity; try congruence; try lia.

(* ================================================================== *)
(** * Types shared by the components *)
(* ================================================================== *)

Module Types.

(** [TeamSide]: the two literals ['me'] and ['op'] compared against in
    every component. *)
Inductive TeamSide := me | op.

Definition TeamSide_eqb (a b : TeamSide) : bool :=
  match a, b with me, me | op, op => true | _, _ => false end.

(** [Position]: the keys 1..6 of a lineup. *)
Inductive Position := P1 | P2 | P3 | P4 | P5 | P6.

(** [Position | 'L']: what a sidebar slot selects. *)
Inductive Slot := Pos (p : Position) | L.

(** Modelled from the spec: the enumerations of types.ts, which is not
    part of the sources.  Action kinds are Serve/Attack/Block/Dig/Set/
    Receive; result kinds are Point/Error/Normal.  Only the member
    NORMAL of [ActionQuality] is ever used by the code. *)
Inductive ActionType := SERVE | ATTACK | BLOCK | DIG | SET | RECEIVE.
Inductive ResultType := POINT | ERROR | NORMAL.
Inductive ActionQuality := Q_NORMAL.

(** [PlayerRole]: the codes of the [ROLES] table of SetupView. *)
Inductive PlayerRole := R_S | R_OH | R_MB | R_OP | R_DS | R_L | R_Unknown.

Definition ActionType_eqb (a b : ActionType) : bool :=
  match a, b with
  | SERVE, SERVE | ATTACK, ATTACK | BLOCK, BLOCK
  | DIG, DIG | SET, SET | RECEIVE, RECEIVE => true
  | _, _ => false
  end.

Definition ResultType_eqb (a b : ResultType) : bool :=
  match a, b with
  | POINT, POINT | ERROR, ERROR | NORMAL, NORMAL => true
  | _, _ => false
  end.

(** [Lineup]: an object with exactly the keys 1..6, each a jersey
    string. *)
Record Lineup := mkLineup {
  at1 : string; at2 : string; at3 : string;
  at4 : string; at5 : string; at6 : string }.

(** [lineup[pos]] *)
Definition lineup_get (l : Lineup) (p : Position) : string :=
  match p with
  | P1 => at1 l | P2 => at2 l | P3 => at3 l
  | P4 => at4 l | P5 => at5 l | P6 => at6 l
  end.

(** [{ ...lineup, [pos]: v }] and [lineup[pos] = v] on a copy. *)
Definition lineup_set (l : Lineup) (p : Position) (v : string) : Lineup :=
  match p with
  | P1 => mkLineup v (at2 l) (at3 l) (at4 l) (at5 l) (at6 l)
  | P2 => mkLineup (at1 l) v (at3 l) (at4 l) (at5 l) (at6 l)
  | P3 => mkLineup (at1 l) (at2 l) v (at4 l) (at5 l) (at6 l)
  | P4 => mkLineup (at1 l) (at2 l) (at3 l) v (at5 l) (at6 l)
  | P5 => mkLineup (at1 l) (at2 l) (at3 l) (at4 l) v (at6 l)
  | P6 => mkLineup (at1 l) (at2 l) (at3 l) (at4 l) (at5 l) v
  end.

Record RoleMapping := mkRoles {
  role1 : PlayerRole; role2 : PlayerRole; role3 : PlayerRole;
  role4 : PlayerRole; role5 : PlayerRole; role6 : PlayerRole }.

Record TeamConfig := mkConfig {
  matchName : string; myName : string; opName : string }.

(** [Coordinate]: a point in percentage space.  The code stores JS
    numbers; the handlers modelled here only carry coordinates around,
    so the two components are kept as integers (tenths of a percent). *)
Record Coordinate := mkCoord { cx : Z; cy : Z }.

(** [LogEntry].  [id] is [Date.now().toString()]: the decimal text of a
    millisecond count.  [startCoord] and [endCoord] are optional. *)
Record LogEntry := mkLog {
  id : string;
  timestamp : Z;
  setNumber : Z;
  log_myScore : Z;
  log_opScore : Z;
  playerNumber : string;
  position : Slot;
  action : ActionType;
  quality : ActionQuality;
  result : ResultType;
  startCoord : option Coordinate;
  endCoord : option Coordinate;
  note : string;
  log_servingTeam : TeamSide }.

(** [{ ...newLog, setNumber: n }] *)
Definition with_setNumber (l : LogEntry) (n : Z) : LogEntry :=
  mkLog (id l) (timestamp l) n (log_myScore l) (log_opScore l)
        (playerNumber l) (position l) (action l) (quality l) (result l)
        (startCoord l) (endCoord l) (note l) (log_servingTeam l).

(** [GameState]: the snapshot object built by [getCurrentState], kept on
    the history stacks and stored in saved matches.  The code reads
    [myRoles] and [opRoles] of a snapshot through [x || getInitialRoles()],
    that is, as fields that may be absent: they are optional here. *)
Record GameState := mkGameState {
  gs_currentSet : Z;
  gs_mySetWins : Z;
  gs_opSetWins : Z;
  gs_myLineup : Lineup;
  gs_opLineup : Lineup;
  gs_myRoles : option RoleMapping;
  gs_opRoles : option RoleMapping;
  gs_myLibero : string;
  gs_opLibero : string;
  gs_myScore : Z;
  gs_opScore : Z;
  gs_servingTeam : TeamSide;
  gs_logs : list LogEntry }.

(** JS [a || b] on an optional object: the object when present. *)
Definition or_else {A : Type} (a : option A) (b : A) : A :=
  match a with Some x => x | None => b end.

(** JS [n || d] on a number: [d] when [n] is 0. *)
Definition num_or (n d : Z) : Z := if n =? 0 then d else n.

(** [n.toString()] and [`${n}`] for an integer [n]. *)
Definition toString (n : Z) : string := NilZero.string_of_int (Z.to_int n).

End Types.
Export Types.

(* ================================================================== *)
(** * Rotation engine (GameView, [getRotatedLineup]) *)
(* ================================================================== *)

Module Rotation.

(** [{ 1: lineup[2], 6: lineup[1], 5: lineup[6], 4: lineup[5],
       3: lineup[4], 2: lineup[3] }] *)
Definition getRotatedLineup (lineup : Lineup) : Lineup :=
  {| at1 := lineup_get lineup P2;
     at6 := lineup_get lineup P1;
     at5 := lineup_get lineup P6;
     at4 := lineup_get lineup P5;
     at3 := lineup_get lineup P4;
     at2 := lineup_get lineup P3 |}.

(** The successor of a position in the cycle 1 -> 2 -> ... -> 6 -> 1. *)
Definition next_pos (p : Position) : Position :=
  match p with
  | P1 => P2 | P2 => P3 | P3 => P4 | P4 => P5 | P5 => P6 | P6 => P1
  end.

Fixpoint rotate_n (n : nat) (l : Lineup) : Lineup :=
  match n with
  | O => l
  | S k => getRotatedLineup (rotate_n k l)
  end.

End Rotation.
Export Rotation.

(* ================================================================== *)
(** * Match state store and history manager (the root component) *)
(* ================================================================== *)

Module Store.

Inductive View := setup | game.

(** The state variables of the root component (orientation and the
    install prompt, which no handler below reads, are left out). *)
Record App := mkApp {
  view : View;
  isGameActive : bool;
  setupKey : Z;
  teamConfig : TeamConfig;
  currentSet : Z;
  mySetWins : Z;
  opSetWins : Z;
  myLineup : Lineup;
  opLineup : Lineup;
  myRoles : RoleMapping;
  opRoles : RoleMapping;
  myLibero : string;
  opLibero : string;
  myScore : Z;
  opScore : Z;
  servingTeam : TeamSide;
  logs : list LogEntry;
  history : list GameState;
  future : list GameState }.

(** ** The [setX] functions, in updater form [setX(prev => f prev)];
    [setX(v)] is [setX (fun _ => v)]. *)

Definition setView (f : View -> View) (s : App) : App :=
  mkApp (f (view s)) (isGameActive s) (setupKey s) (teamConfig s)
    (currentSet s) (mySetWins s) (opSetWins s) (myLineup s) (opLineup s)
    (myRoles s) (opRoles s) (myLibero s) (opLibero s) (myScore s)
    (opScore s) (servingTeam s) (logs s) (history s) (future s).

Definition setIsGameActive (f : bool -> bool) (s : App) : App :=
  mkApp (view s) (f (isGameActive s)) (setupKey s) (teamConfig s)
    (currentSet s) (mySetWins s) (opSetWins s) (myLineup s) (opLineup s)
    (myRoles s) (opRoles s) (myLibero s) (opLibero s) (myScore s)
    (opScore s) (servingTeam s) (logs s) (history s) (future s).

Definition setSetupKey (f : Z -> Z) (s : App) : App :=
  mkApp (view s) (isGameActive s) (f (setupKey s)) (teamConfig s)
    (currentSet s) (mySetWins s) (opSetWins s) (myLineup s) (opLineup s)
    (myRoles s) (opRoles s) (myLibero s) (opLibero s) (myScore s)
    (opScore s) (servingTeam s) (logs s) (history s) (future s).

Definition setTeamConfig (f : TeamConfig -> TeamConfig) (s : App) : App :=
  mkApp (view s) (isGameActive s) (setupKey s) (f (teamConfig s))
    (currentSet s) (mySetWins s) (opSetWins s) (myLineup s) (opLineup s)
    (myRoles s) (opRoles s) (myLibero s) (opLibero s) (myScore s)
    (opScore s) (servingTeam s) (logs s) (history s) (future s).

Definition setCurrentSet (f : Z -> Z) (s : App) : App :=
  mkApp (view s) (isGameActive s) (setupKey s) (teamConfig s)
    (f (currentSet s)) (mySetWins s) (opSetWins s) (myLineup s) (opLineup s)
    (myRoles s) (opRoles s) (myLibero s) (opLibero s) (myScore s)
    (opScore s) (servingTeam s) (logs s) (history s) (future s).

Definition setMySetWins (f : Z -> Z) (s : App) : App :=
  mkApp (view s) (isGameActive s) (setupKey s) (teamConfig s)
    (currentSet s) (f (mySetWins s)) (opSetWins s) (myLineup s) (opLineup s)
    (myRoles s) (opRoles s) (myLibero s) (opLibero s) (myScore s)
    (opScore s) (servingTeam s) (logs s) (history s) (future s).

Definition setOpSetWins (f : Z -> Z) (s : App) : App :=
  mkApp (view s) (isGameActive s) (setupKey s) (teamConfig s)
    (currentSet s) (mySetWins s) (f (opSetWins s)) (myLineup s) (opLineup s)
    (myRoles s) (opRoles s) (myLibero s) (opLibero s) (myScore s)
    (opScore s) (servingTeam s) (logs s) (history s) (future s).

Definition setMyLineup (f : Lineup -> Lineup) (s : App) : App :=
  mkApp (view s) (isGameActive s) (setupKey s) (teamConfig s)
    (currentSet s) (mySetWins s) (opSetWins s) (f (myLineup s)) (opLineup s)
    (myRoles s) (opRoles s) (myLibero s) (opLibero s) (myScore s)
    (opScore s) (servingTeam s) (logs s) (history s) (future s).

Definition setOpLineup (f : Lineup -> Lineup) (s : App) : App :=
  mkApp (view s) (isGameActive s) (setupKey s) (teamConfig s)
    (currentSet s) (mySetWins s) (opSetWins s) (myLineup s) (f (opLineup s))
    (myRoles s) (opRoles s) (myLibero s) (opLibero s) (myScore s)
    (opScore s) (servingTeam s) (logs s) (history s) (future s).

Definition setMyRoles (f : RoleMapping -> RoleMapping) (s : App) : App :=
  mkApp (view s) (isGameActive s) (setupKey s) (teamConfig s)
    (currentSet s) (mySetWins s) (opSetWins s) (myLineup s) (opLineup s)
    (f (myRoles s)) (opRoles s) (myLibero s) (opLibero s) (myScore s)
    (opScore s) (servingTeam s) (logs s) (history s) (future s).

Definition setOpRoles (f : RoleMapping -> RoleMapping) (s : App) : App :=
  mkApp (view s) (isGameActive s) (setupKey s) (teamConfig s)
    (currentSet s) (mySetWins s) (opSetWins s) (myLineup s) (opLineup s)
    (myRoles s) (f (opRoles s)) (myLibero s) (opLibero s) (myScore s)
    (opScore s) (servingTeam s) (logs s) (history s) (future s).

Definition setMyLibero (f : string -> string) (s : App) : App :=
  mkApp (view s) (isGameActive s) (setupKey s) (teamConfig s)
    (currentSet s) (mySetWins s) (opSetWins s) (myLineup s) (opLineup s)
    (myRoles s) (opRoles s) (f (myLibero s)) (opLibero s) (myScore s)
    (opScore s) (servingTeam s) (logs s) (history s) (future s).

Definition setOpLibero (f : string -> string) (s : App) : App :=
  mkApp (view s) (isGameActive s) (setupKey s) (teamConfig s)
    (currentSet s) (mySetWins s) (opSetWins s) (myLineup s) (opLineup s)
    (myRoles s) (opRoles s) (myLibero s) (f (opLibero s)) (myScore s)
    (opScore s) (servingTeam s) (logs s) (history s) (future s).

Definition setMyScore (f : Z -> Z) (s : App) : App :=
  mkApp (view s) (isGameActive s) (setupKey s) (teamConfig s)
    (currentSet s) (mySetWins s) (opSetWins s) (myLineup s) (opLineup s)
    (myRoles s) (opRoles s) (myLibero s) (opLibero s) (f (myScore s))
    (opScore s) (servingTeam s) (logs s) (history s) (future s).

Definition setOpScore (f : Z -> Z) (s : App) : App :=
  mkApp (view s) (isGameActive s) (setupKey s) (teamConfig s)
    (currentSet s) (mySetWins s) (opSetWins s) (myLineup s) (opLineup s)
    (myRoles s) (opRoles s) (myLibero s) (opLibero s) (myScore s)
    (f (opScore s)) (servingTeam s) (logs s) (history s) (future s).

Definition setServingTeam (f : TeamSide -> TeamSide) (s : App) : App :=
  mkApp (view s) (isGameActive s) (setupKey s) (teamConfig s)
    (currentSet s) (mySetWins s) (opSetWins s) (myLineup s) (opLineup s)
    (myRoles s) (opRoles s) (myLibero s) (opLibero s) (myScore s)
    (opScore s) (f (servingTeam s)) (logs s) (history s) (future s).

Definition setLogs (f : list LogEntry -> list LogEntry) (s : App) : App :=
  mkApp (view s) (isGameActive s) (setupKey s) (teamConfig s)
    (currentSet s) (mySetWins s) (opSetWins s) (myLineup s) (opLineup s)
    (myRoles s) (opRoles s) (myLibero s) (opLibero s) (myScore s)
    (opScore s) (servingTeam s) (f (logs s)) (history s) (future s).

Definition setHistory (f : list GameState -> list GameState) (s : App) : App :=
  mkApp (view s) (isGameActive s) (setupKey s) (teamConfig s)
    (currentSet s) (mySetWins s) (opSetWins s) (myLineup s) (opLineup s)
    (myRoles s) (opRoles s) (myLibero s) (opLibero s) (myScore s)
    (opScore s) (servingTeam s) (logs s) (f (history s)) (future s).

Definition setFuture (f : list GameState -> list GameState) (s : App) : App :=
  mkApp (view s) (isGameActive s) (setupKey s) (teamConfig s)
    (currentSet s) (mySetWins s) (opSetWins s) (myLineup s) (opLineup s)
    (myRoles s) (opRoles s) (myLibero s) (opLibero s) (myScore s)
    (opScore s) (servingTeam s) (logs s) (history s) (f (future s)).

(** [setX(v)] *)
Definition to {A : Type} (v : A) : A -> A := fun _ => v.

(** ** Fresh state objects *)

Definition getInitialLineup : Lineup := mkLineup "" "" "" "" "" "".
Definition getInitialRoles : RoleMapping :=
  mkRoles R_Unknown R_Unknown R_Unknown R_Unknown R_Unknown R_Unknown.
Definition getInitialConfig : TeamConfig := mkConfig "" "" "".

(** The state of the first render: the initial values of the
    [useState] calls. *)
Definition initialApp : App :=
  {| view := setup; isGameActive := false; setupKey := 0;
     teamConfig := getInitialConfig;
     currentSet := 1; mySetWins := 0; opSetWins := 0;
     myLineup := getInitialLineup; opLineup := getInitialLineup;
     myRoles := getInitialRoles; opRoles := getInitialRoles;
     myLibero := ""; opLibero := "";
     myScore := 0; opScore := 0; servingTeam := me; logs := [];
     history := []; future := [] |}.

(** ** History manager *)

Definition getCurrentState (r : App) : GameState :=
  {| gs_currentSet := currentSet r;
     gs_mySetWins := mySetWins r;
     gs_opSetWins := opSetWins r;
     gs_myLineup := myLineup r;
     gs_opLineup := opLineup r;
     gs_myRoles := Some (myRoles r);
     gs_opRoles := Some (opRoles r);
     gs_myLibero := myLibero r;
     gs_opLibero := opLibero r;
     gs_myScore := myScore r;
     gs_opScore := opScore r;
     gs_servingTeam := servingTeam r;
     gs_logs := logs r |}.

(** [pushHistory], called from a handler rendered with [r], acting on
    the pending state [s]. *)
Definition pushHistory (r : App) (s : App) : App :=
  let current := getCurrentState r in
  s |> setHistory (fun prev => prev ++ [current])
    |> setFuture (to []).

(** The thirteen [setX(g.x)] calls shared by undo and redo. *)
Definition restore (g : GameState) (s : App) : App :=
  s |> setCurrentSet (to (gs_currentSet g))
    |> setMySetWins (to (gs_mySetWins g))
    |> setOpSetWins (to (gs_opSetWins g))
    |> setMyLineup (to (gs_myLineup g))
    |> setOpLineup (to (gs_opLineup g))
    |> setMyRoles (to (or_else (gs_myRoles g) getInitialRoles))
    |> setOpRoles (to (or_else (gs_opRoles g) getInitialRoles))
    |> setMyLibero (to (gs_myLibero g))
    |> setOpLibero (to (gs_opLibero g))
    |> setMyScore (to (gs_myScore g))
    |> setOpScore (to (gs_opScore g))
    |> setServingTeam (to (gs_servingTeam g))
    |> setLogs (to (gs_logs g)).

(** [history[history.length - 1]] *)
Definition last_snapshot (h : list GameState) : option GameState :=
  nth_error h (List.length h - 1).

Definition handleUndo (r : App) : App :=
  if (List.length (history r) =? 0)%nat then r else
  match last_snapshot (history r) with
  | None => r  (* not taken: the stack is not empty here *)
  | Some previous =>
      let current := getCurrentState r in
      r |> setFuture (fun prev => current :: prev)
        |> setHistory (fun prev => removelast prev)
        |> restore previous
  end.

Definition handleRedo (r : App) : App :=
  if (List.length (future r) =? 0)%nat then r else
  match nth_error (future r) 0 with
  | None => r  (* not taken: the stack is not empty here *)
  | Some next =>
      let current := getCurrentState r in
      r |> setHistory (fun prev => prev ++ [current])
        |> setFuture (fun prev => tl prev)
        |> restore next
  end.

(** ** Match lifecycle *)

Definition handleGameStart (r : App)
    (config : TeamConfig)
    (initialMyLineup initialOpLineup : Lineup)
    (initialMyRoles initialOpRoles : RoleMapping)
    (initialMyLibero initialOpLibero : string)
    (initialServingTeam : TeamSide) : App :=
  r |> setTeamConfig (to config)
    |> setMyLineup (to initialMyLineup)
    |> setOpLineup (to initialOpLineup)
    |> setMyRoles (to initialMyRoles)
    |> setOpRoles (to initialOpRoles)
    |> setMyLibero (to initialMyLibero)
    |> setOpLibero (to initialOpLibero)
    |> setMyScore (to 0)
    |> setOpScore (to 0)
    |> setServingTeam (to initialServingTeam)
    |> setHistory (to [])
    |> setFuture (to [])
    |> setView (to game)
    |> setIsGameActive (to true).

Definition handleResumeGame (r : App) : App := r |> setView (to game).

Definition handleHome (r : App) : App := r |> setView (to setup).

Definition handleNewMatch (r : App) : App :=
  r |> setTeamConfig (to getInitialConfig)
    |> setMyLineup (to getInitialLineup)
    |> setOpLineup (to getInitialLineup)
    |> setMyRoles (to getInitialRoles)
    |> setOpRoles (to getInitialRoles)
    |> setMyLibero (to "")
    |> setOpLibero (to "")
    |> setCurrentSet (to 1)
    |> setMySetWins (to 0)
    |> setOpSetWins (to 0)
    |> setMyScore (to 0)
    |> setOpScore (to 0)
    |> setLogs (to [])
    |> setHistory (to [])
    |> setFuture (to [])
    |> setIsGameActive (to false)
    |> setSetupKey (fun prev => prev + 1)
    |> setView (to setup).

Definition handleNextSet (r : App) : App :=
  let s := pushHistory r r in
  let s :=
    if myScore r >? opScore r then s |> setMySetWins (fun prev => prev + 1)
    else if opScore r >? myScore r then s |> setOpSetWins (fun prev => prev + 1)
    else s in
  s |> setCurrentSet (fun prev => prev + 1)
    |> setView (to setup).

(** ** Committing an action *)

Record ScoreUpdate := mkScoreUpdate { myDelta : Z; opDelta : Z }.

(** [newLibero] is an optional property. *)
Record LineupUpdate := mkLineupUpdate {
  isMyTeam : bool; newLineup : Lineup; newLibero : option string }.

Definition handleGameAction (r : App)
    (newLog : option LogEntry)
    (scoreUpdate : option ScoreUpdate)
    (lineupUpdate : option LineupUpdate)
    (newServingTeam : option TeamSide) : App :=
  let s := pushHistory r r in
  let s :=
    match newLog with
    | Some l => s |> setLogs (fun prev => prev ++ [with_setNumber l (currentSet r)])
    | None => s
    end in
  let s :=
    match scoreUpdate with
    | Some u => s |> setMyScore (fun prev => prev + myDelta u)
                  |> setOpScore (fun prev => prev + opDelta u)
    | None => s
    end in
  let s :=
    match lineupUpdate with
    | Some u =>
        if isMyTeam u then
          let s := s |> setMyLineup (to (newLineup u)) in
          match newLibero u with
          | Some v => s |> setMyLibero (to v)
          | None => s
          end
        else
          let s := s |> setOpLineup (to (newLineup u)) in
          match newLibero u with
          | Some v => s |> setOpLibero (to v)
          | None => s
          end
    | None => s
    end in
  match newServingTeam with
  | Some t => s |> setServingTeam (to t)
  | None => s
  end.

(** [savedState] comes from a parsed saved match.  [x || d] falls back
    on a missing or falsy field: 0 for the counters, a missing roles
    object; [s || ''] on a string is the string itself. *)
Definition handleLoadGame (r : App) (savedState : GameState)
    (config : TeamConfig) : App :=
  r |> setTeamConfig (to config)
    |> setCurrentSet (to (num_or (gs_currentSet savedState) 1))
    |> setMySetWins (to (num_or (gs_mySetWins savedState) 0))
    |> setOpSetWins (to (num_or (gs_opSetWins savedState) 0))
    |> setMyLineup (to (gs_myLineup savedState))
    |> setOpLineup (to (gs_opLineup savedState))
    |> setMyRoles (to (or_else (gs_myRoles savedState) getInitialRoles))
    |> setOpRoles (to (or_else (gs_opRoles savedState) getInitialRoles))
    |> setMyLibero (to (gs_myLibero savedState))
    |> setOpLibero (to (gs_opLibero savedState))
    |> setMyScore (to (gs_myScore savedState))
    |> setOpScore (to (gs_opScore savedState))
    |> setServingTeam (to (gs_servingTeam savedState))
    |> setLogs (to (gs_logs savedState))
    |> setHistory (to [])
    |> setFuture (to [])
    |> setIsGameActive (to true).

End Store.
Export Store.

(* ================================================================== *)
(** * String operations of the handlers *)
(* ================================================================== *)

(** A [string] is the UTF-8 text of the JavaScript string: a character
    of the ASCII range is one byte, any other character two to four
    bytes, none of which is in the ASCII range. *)
Module Text.

Definition code (c : ascii) : N := N_of_ascii c.

(** The characters that [trim] removes: the [WhiteSpace] and
    [LineTerminator] of ECMAScript, by the length of their UTF-8
    encoding.  One byte: U+0009 to U+000D and U+0020. *)
Definition isSpace (c : ascii) : bool :=
  let n := code c in
  ((9 <=? n) && (n <=? 13) || (n =? 32))%N.

(** Two bytes: U+00A0, the no-break space. *)
Definition isSpace2 (c d : ascii) : bool :=
  ((code c =? 0xC2) && (code d =? 0xA0))%N.

(** Three bytes: U+1680; U+2000 to U+200A, U+2028, U+2029 and U+202F;
    U+205F; U+3000; U+FEFF. *)
Definition isSpace3 (c d e : ascii) : bool :=
  let n := code e in
  ((code c =? 0xE1) && (code d =? 0x9A) && (n =? 0x80)
   || (code c =? 0xE2) && (code d =? 0x80)
      && ((0x80 <=? n) && (n <=? 0x8A)
          || (n =? 0xA8) || (n =? 0xA9) || (n =? 0xAF))
   || (code c =? 0xE2) && (code d =? 0x81) && (n =? 0x9F)
   || (code c =? 0xE3) && (code d =? 0x80) && (n =? 0x80)
   || (code c =? 0xEF) && (code d =? 0xBB) && (n =? 0xBF))%N.

(** The text after the white-space character a string starts with, if
    it starts with one. *)
Definition skipSpace (s : string) : option string :=
  match s with
  | String c rest =>
      if isSpace c then Some rest else
      match rest with
      | String d rest2 =>
          if isSpace2 c d then Some rest2 else
          match rest2 with
          | String e rest3 => if isSpace3 c d e then Some rest3 else None
          | EmptyString => None
          end
      | EmptyString => None
      end
  | EmptyString => None
  end.

(** [s.trimStart()] *)
Fixpoint trimStart (s : string) : string :=
  match s with
  | String c rest =>
      if isSpace c then trimStart rest else
      match rest with
      | String d rest2 =>
          if isSpace2 c d then trimStart rest2 else
          match rest2 with
          | String e rest3 => if isSpace3 c d e then trimStart rest3 else s
          | EmptyString => s
          end
      | EmptyString => s
      end
  | EmptyString => s
  end.

(** [s.trimEnd()]: the text is cut at the first place from which only
    white space follows.  (No white-space character starts within the
    bytes of another character, so that place is the start of the
    longest run of white space the string ends with.) *)
Fixpoint trimEnd (s : string) : string :=
  match s with
  | EmptyString => EmptyString
  | String c rest =>
      match trimStart s with
      | EmptyString => EmptyString
      | _ => String c (trimEnd rest)
      end
  end.

(** [s.trim()] *)
Definition trim (s : string) : string := trimEnd (trimStart s).

(** [s || d] on strings: [d] when [s] is empty. *)
Definition str_or (s d : string) : string :=
  match s with EmptyString => d | _ => s end.

(** [parts.join(sep)] *)
Fixpoint join (sep : string) (parts : list string) : string :=
  match parts with
  | [] => EmptyString
  | [p] => p
  | p :: rest => (p ++ sep ++ join sep rest)%string
  end.

(** [s] without its first [n] bytes. *)
Fixpoint drop (n : nat) (s : string) : string :=
  match n, s with
  | O, _ => s
  | S _, EmptyString => EmptyString
  | S k, String _ rest => drop k rest
  end.

(** [s.replace(p, '')] for a string pattern: the leftmost occurrence of
    [p] is removed, [s] is returned as it is when there is none. *)
Fixpoint removeFirst (p s : string) : string :=
  if String.prefix p s then drop (String.length p) s
  else match s with
       | EmptyString => EmptyString
       | String c rest => String c (removeFirst p rest)
       end.

End Text.

(* ================================================================== *)
(** * Interaction state machine (GameView) *)
(* ================================================================== *)

Module GameView.

Inductive InteractionState :=
  IDLE | PLAYER_SELECTED | DRAWING | RESULT_PENDING.

(** The component's own state variables that the handlers below touch.
    The props of the component are the fields of the rendered [App]
    ([initialMyLineup] is [myLineup r], and so on); [onGameAction] is
    [handleGameAction r].  The screen anchor of [scoreAdjTarget] is
    left out. *)
Record State := mkState {
  state : InteractionState;
  activeSide : TeamSide;
  selectedPos : option Slot;
  selectedAction : option ActionType;
  showSubModal : bool;
  subNumber : string;
  subTarget : option (TeamSide * Slot);
  scoreAdjTarget : option TeamSide;
  startCoord : option Coordinate;
  endCoord : option Coordinate }.

Definition initialState : State :=
  mkState IDLE me None None false "" None None None None.

(** The clock: the values of the two [Date.now()] calls of a handler. *)
Record Clock := mkClock { now_id : Z; now_timestamp : Z }.

Definition handleRotation (r : App) (isMyTeam : bool) : App :=
  let currentLineup := if isMyTeam then myLineup r else opLineup r in
  let newLineup := getRotatedLineup currentLineup in
  handleGameAction r None None
    (Some (mkLineupUpdate isMyTeam newLineup None)) None.

(** The side-out decision shared by [handleScoreAdjust] and both
    branches of [handleResult]: [if (pointWinner !== servingTeam)
    { newServingTeam = pointWinner; lineupUpdate = ... }]. *)
Definition sideOut (r : App) (pointWinner : TeamSide)
    : option LineupUpdate * option TeamSide :=
  if negb (TeamSide_eqb pointWinner (servingTeam r)) then
    let lineToRotate :=
      if TeamSide_eqb pointWinner me then myLineup r else opLineup r in
    (Some (mkLineupUpdate (TeamSide_eqb pointWinner me)
                          (getRotatedLineup lineToRotate) None),
     Some pointWinner)
  else (None, None).

(** The value of [handleScoreAdjust] is the next [App] state; the
    component's own state is not touched.  An early [return] leaves the
    rendered state as it is. *)
Definition handleScoreAdjust (r : App) (k : Clock)
    (isMyTeam : bool) (delta : Z) : App :=
  let currentScore := if isMyTeam then myScore r else opScore r in
  if currentScore + delta <? 0 then r else
  let scoreUpdate :=
    mkScoreUpdate (if isMyTeam then delta else 0)
                  (if negb isMyTeam then delta else 0) in
  let '(lineupUpdate, newServingTeam) :=
    if delta >? 0 then
      let pointWinner := if isMyTeam then me else op in
      sideOut r pointWinner
    else (None, None) in
  let newLog :=
    {| id := toString (now_id k);
       timestamp := now_timestamp k;
       setNumber := currentSet r;
       log_myScore := if isMyTeam then myScore r + delta else myScore r;
       log_opScore := if negb isMyTeam then opScore r + delta else opScore r;
       playerNumber := "";
       position := Pos P1;
       action := ATTACK;
       quality := Q_NORMAL;
       result := if delta >? 0 then POINT else NORMAL;
       Types.startCoord := None;
       Types.endCoord := None;
       note := ("Manual Adjust " ++ (if delta >? 0 then "+" else "")
                ++ toString delta)%string;
       log_servingTeam := or_else newServingTeam (servingTeam r) |} in
  handleGameAction r (Some newLog) (Some scoreUpdate)
                   lineupUpdate newServingTeam.

Definition resetFlow (g : State) : State :=
  mkState IDLE (activeSide g) None None (showSubModal g) (subNumber g)
          (subTarget g) None None None.

Definition handlePlayerSelect (g : State) (side : TeamSide) (pos : Slot)
    : State :=
  mkState PLAYER_SELECTED side (Some pos) None (showSubModal g)
          (subNumber g) (subTarget g) (scoreAdjTarget g) None None.

Definition handleActionSelect (g : State) (action : ActionType) : State :=
  mkState DRAWING (activeSide g) (selectedPos g) (Some action)
          (showSubModal g) (subNumber g) (subTarget g) (scoreAdjTarget g)
          (startCoord g) (endCoord g).

Definition handleDrawingComplete (g : State) (start end_ : Coordinate)
    : State :=
  mkState RESULT_PENDING (activeSide g) (selectedPos g) (selectedAction g)
          (showSubModal g) (subNumber g) (subTarget g) (scoreAdjTarget g)
          (Some start) (Some end_).

(** [!s.trim()]: the trimmed string is empty. *)
Definition blank (s : string) : bool :=
  match Text.trim s with
  | EmptyString => true
  | _ => false
  end.

(** [closed] is the component state after [setShowSubModal(false)]. *)
Definition handleSubConfirm (r : App) (g : State) : App * State :=
  let closed :=
    mkState (state g) (activeSide g) (selectedPos g) (selectedAction g)
            false (subNumber g) (subTarget g) (scoreAdjTarget g)
            (startCoord g) (endCoord g) in
  match subTarget g with
  | None => (r, closed)
  | Some (side, pos) =>
      if blank (subNumber g) then (r, closed) else
      let isMyTeam := TeamSide_eqb side me in
      let currentLineup := if isMyTeam then myLineup r else opLineup r in
      let '(currentLineup, newLiberoVal) :=
        match pos with
        | L => (currentLineup, Some (subNumber g))
        | Pos posIndex =>
            (lineup_set currentLineup posIndex (subNumber g), None)
        end in
      (handleGameAction r None None
         (Some (mkLineupUpdate isMyTeam currentLineup newLiberoVal)) None,
       mkState (state g) (activeSide g) (selectedPos g) (selectedAction g)
               false (subNumber g) None (scoreAdjTarget g)
               (startCoord g) (endCoord g))
  end.

(** The guard [!selectedPos || !selectedAction] tests for [null]: the
    positions 1..6, ['L'] and the action kinds (string-valued members of
    [ActionType]) are all truthy.  The value is the next store and the
    component's next own state. *)
Definition handleResult (r : App) (g : State) (k : Clock)
    (result : ResultType) : App * State :=
  match selectedPos g, selectedAction g with
  | Some selPos, Some selAction =>
      let isMyTeam := TeamSide_eqb (activeSide g) me in
      let lineup := if isMyTeam then myLineup r else opLineup r in
      let playerNumber :=
        match selPos with
        | L => if isMyTeam then myLibero r else opLibero r
        | Pos p => lineup_get lineup p
        end in
      let '(scoreUpdate, (lineupUpdate, newServingTeam)) :=
        match result with
        | POINT =>
            (Some (mkScoreUpdate (if isMyTeam then 1 else 0)
                                 (if negb isMyTeam then 1 else 0)),
             let pointWinner := if isMyTeam then me else op in
             sideOut r pointWinner)
        | ERROR =>
            (Some (mkScoreUpdate (if negb isMyTeam then 1 else 0)
                                 (if isMyTeam then 1 else 0)),
             let pointWinner := if negb isMyTeam then me else op in
             sideOut r pointWinner)
        | NORMAL => (None, (None, None))
        end in
      let nextMyScore :=
        match scoreUpdate with
        | Some u => myScore r + myDelta u
        | None => myScore r
        end in
      let nextOpScore :=
        match scoreUpdate with
        | Some u => opScore r + opDelta u
        | None => opScore r
        end in
      let newLog :=
        {| id := toString (now_id k);
           timestamp := now_timestamp k;
           setNumber := currentSet r;
           log_myScore := nextMyScore;
           log_opScore := nextOpScore;
           Types.playerNumber := playerNumber;
           position := selPos;
           action := selAction;
           quality := Q_NORMAL;
           Types.result := result;
           Types.startCoord := startCoord g;
           Types.endCoord := endCoord g;
           note := if isMyTeam then myName (teamConfig r)
                   else opName (teamConfig r);
           log_servingTeam := or_else newServingTeam (servingTeam r) |} in
      (handleGameAction r (Some newLog) scoreUpdate
                        lineupUpdate newServingTeam,
       resetFlow g)
  | _, _ => (r, g)
  end.

End GameView.

(* ================================================================== *)
(** * Stats aggregator (StatsOverlay) *)
(* ================================================================== *)

Module StatsOverlay.

Record StatSummary := mkStats {
  attackKills : Z;
  attackTotal : Z;
  blocks : Z;
  serveAces : Z;
  serveErrors : Z;
  digs : Z;
  totalPoints : Z }.

(** The team an entry is attributed to: [l.note === teamConfig.myName
    ? 'me' : 'op']. *)
Definition logTeam (teamConfig : TeamConfig) (l : LogEntry) : TeamSide :=
  let isMyAction := String.eqb (note l) (myName teamConfig) in
  if isMyAction then me else op.

Definition getTeamLogs (logs : list LogEntry) (teamConfig : TeamConfig)
    (side : TeamSide) : list LogEntry :=
  filter (fun l => TeamSide_eqb (logTeam teamConfig l) side) logs.

Definition getPlayerLogs (logs : list LogEntry) (teamConfig : TeamConfig)
    (playerNum : string) (side : TeamSide) : list LogEntry :=
  filter (fun l => String.eqb (playerNumber l) playerNum)
         (getTeamLogs logs teamConfig side).

(** The body of the [forEach] of [calculateStats]: the four [if]
    statements in order, on the running counters. *)
Definition count (stats : StatSummary) (l : LogEntry) : StatSummary :=
  let stats :=
    if ActionType_eqb (action l) ATTACK then
      mkStats (if ResultType_eqb (result l) POINT
               then attackKills stats + 1 else attackKills stats)
              (attackTotal stats + 1) (blocks stats) (serveAces stats)
              (serveErrors stats) (digs stats) (totalPoints stats)
    else stats in
  let stats :=
    if ActionType_eqb (action l) BLOCK && ResultType_eqb (result l) POINT then
      mkStats (attackKills stats) (attackTotal stats) (blocks stats + 1)
              (serveAces stats) (serveErrors stats) (digs stats)
              (totalPoints stats)
    else stats in
  let stats :=
    if ActionType_eqb (action l) SERVE then
      mkStats (attackKills stats) (attackTotal stats) (blocks stats)
              (if ResultType_eqb (result l) POINT
               then serveAces stats + 1 else serveAces stats)
              (if ResultType_eqb (result l) ERROR
               then serveErrors stats + 1 else serveErrors stats)
              (digs stats) (totalPoints stats)
    else stats in
  if ActionType_eqb (action l) DIG then
    mkStats (attackKills stats) (attackTotal stats) (blocks stats)
            (serveAces stats) (serveErrors stats) (digs stats + 1)
            (totalPoints stats)
  else stats.

Definition calculateStats (filteredLogs : list LogEntry) : StatSummary :=
  let stats := fold_left count filteredLogs (mkStats 0 0 0 0 0 0 0) in
  mkStats (attackKills stats) (attackTotal stats) (blocks stats)
          (serveAces stats) (serveErrors stats) (digs stats)
          (attackKills stats + blocks stats + serveAces stats).

End StatsOverlay.

(* ================================================================== *)
(** * Setup screen (SetupView): jersey number input *)
(* ================================================================== *)

Module SetupView.

(** The lineup and libero state variables of the setup form. *)
Record Form := mkForm {
  myLineup : Lineup;
  opLineup : Lineup;
  myLibero : string;
  opLibero : string }.

(** The form as the component initialises it (and re-synchronises it)
    from its props, which the root component fills with the store's
    lineups and liberos: [initialMyLineup || createEmptyLineup()] on a
    lineup object is the object, [initialMyLibero || ''] on a string is
    the string. *)
Definition openForm (r : App) : Form :=
  mkForm (Store.myLineup r) (Store.opLineup r)
         (Store.myLibero r) (Store.opLibero r).

Definition isDigit (c : ascii) : bool :=
  (Ascii.leb "0" c && Ascii.leb c "9")%bool.

(** [value.replace(/[^0-9]/g, '')] *)
Fixpoint keepDigits (value : string) : string :=
  match value with
  | EmptyString => EmptyString
  | String c rest =>
      if isDigit c then String c (keepDigits rest) else keepDigits rest
  end.

(** [s.startsWith('0')] *)
Definition startsWith0 (s : string) : bool :=
  match s with
  | String c _ => Ascii.eqb c "0"
  | EmptyString => false
  end.

(** [null] is [None]. *)
Definition sanitizeInput (value : string) : option string :=
  let numericValue := keepDigits value in
  let numericValue :=
    if (2 <? String.length numericValue)%nat
    then String.substring 0 2 numericValue else numericValue in
  if ((0 <? String.length numericValue)%nat && startsWith0 numericValue)%bool
  then None
  else Some numericValue.

(** [pos] is the text of the slot's position, [parseInt(pos)] its key:
    the form calls the handler with [pos.toString()] for the six
    positions, so the key is taken as a [Position]. *)
Definition handlePlayerChange (f : Form) (isMyTeam : bool)
    (pos : Position) (value : string) : Form :=
  match sanitizeInput value with
  | None => f
  | Some val =>
      if isMyTeam
      then mkForm (lineup_set (myLineup f) pos val) (opLineup f)
                  (myLibero f) (opLibero f)
      else mkForm (myLineup f) (lineup_set (opLineup f) pos val)
                  (myLibero f) (opLibero f)
  end.

Definition handleLiberoChange (f : Form) (isMyTeam : bool)
    (value : string) : Form :=
  match sanitizeInput value with
  | None => f
  | Some val =>
      if isMyTeam
      then mkForm (myLineup f) (opLineup f) val (opLibero f)
      else mkForm (myLineup f) (opLineup f) (myLibero f) val
  end.

(** A well-formed jersey string: empty, or one or two decimal digits
    the first of which is not ['0']. *)
Definition jerseyOk (s : string) : bool :=
  match s with
  | EmptyString => true
  | String a EmptyString => isDigit a && negb (Ascii.eqb a "0")
  | String a (String b EmptyString) =>
      isDigit a && negb (Ascii.eqb a "0") && isDigit b
  | _ => false
  end.

(** The stored string an edit addresses. *)
Inductive Field := Slot_of (isMyTeam : bool) (pos : Position)
                 | Libero_of (isMyTeam : bool).

Definition stored (f : Form) (x : Field) : string :=
  match x with
  | Slot_of true pos => lineup_get (myLineup f) pos
  | Slot_of false pos => lineup_get (opLineup f) pos
  | Libero_of true => myLibero f
  | Libero_of false => opLibero f
  end.

Definition edit (f : Form) (x : Field) (value : string) : Form :=
  match x with
  | Slot_of isMyTeam pos => handlePlayerChange f isMyTeam pos value
  | Libero_of isMyTeam => handleLiberoChange f isMyTeam value
  end.

End SetupView.

(* ================================================================== *)
(** * The store as a transition system, and the vocabulary of the
      statements *)
(* ================================================================== *)

Module Machine.

(** The handlers of the root component that the views can call.  Every
    handler of GameView reaches the store through [GameAction]. *)
Inductive Event :=
| GameStart (config : TeamConfig) (myL opL : Lineup) (myR opR : RoleMapping)
            (myLib opLib : string) (serve : TeamSide)
| ResumeGame
| Home
| NewMatch
| NextSet
| GameAction (newLog : option LogEntry) (scoreUpdate : option ScoreUpdate)
             (lineupUpdate : option LineupUpdate)
             (newServingTeam : option TeamSide)
| LoadGame (savedState : GameState) (config : TeamConfig)
| Undo
| Redo.

Definition step (r : App) (e : Event) : App :=
  match e with
  | GameStart c ml ol mr or_ mb ob t => handleGameStart r c ml ol mr or_ mb ob t
  | ResumeGame => handleResumeGame r
  | Home => handleHome r
  | NewMatch => handleNewMatch r
  | NextSet => handleNextSet r
  | GameAction nl su lu ns => handleGameAction r nl su lu ns
  | LoadGame g c => handleLoadGame r g c
  | Undo => handleUndo r
  | Redo => handleRedo r
  end.

(** The states the application can be in: those the handlers produce
    from the first render. *)
Inductive reachable : App -> Prop :=
| reach_init : reachable initialApp
| reach_step : forall r e, reachable r -> reachable (step r e).

(** A snapshot that carries both role mappings. *)
Definition hasRoles (g : GameState) : bool :=
  match gs_myRoles g, gs_opRoles g with
  | Some _, Some _ => true
  | _, _ => false
  end.

Definition stacksOk (s : App) : Prop :=
  forallb hasRoles (history s) = true /\ forallb hasRoles (future s) = true.

Definition other (t : TeamSide) : TeamSide :=
  match t with me => op | op => me end.

Definition scoreOf (s : App) (t : TeamSide) : Z :=
  match t with me => myScore s | op => opScore s end.

Definition lineupOf (s : App) (t : TeamSide) : Lineup :=
  match t with me => myLineup s | op => opLineup s end.

(** [handleResult] passes its guard: a position and an action are
    selected. *)
Definition resultCommits (g : GameView.State) : bool :=
  match GameView.selectedPos g, GameView.selectedAction g with
  | Some _, Some _ => true
  | _, _ => false
  end.

(** [handleSubConfirm] passes its guard. *)
Definition subCommits (g : GameView.State) : bool :=
  match GameView.subTarget g with
  | Some _ => negb (GameView.blank (GameView.subNumber g))
  | None => false
  end.

(** [handleScoreAdjust] passes its guard. *)
Definition adjustCommits (r : App) (isMyTeam : bool) (delta : Z) : bool :=
  negb ((if isMyTeam then myScore r else opScore r) + delta <? 0).

(** The team that wins the rally of a committed result. *)
Definition pointWinner (acting : TeamSide) (res : ResultType)
    : option TeamSide :=
  match res with
  | POINT => Some acting
  | ERROR => Some (other acting)
  | NORMAL => None
  end.

Fixpoint undos (n : nat) (r : App) : App :=
  match n with
  | O => r
  | S k => handleUndo (undos k r)
  end.

End Machine.
Export Machine.

(* ================================================================== *)
(** * Sample matches *)
(* ================================================================== *)

Module Samples.

Definition config : TeamConfig := mkConfig "G1" "Home" "Away".

(** The lineups, roles and liberos of the setup screen's test fill. *)
Definition homeLineup : Lineup := mkLineup "1" "2" "3" "4" "5" "6".
Definition awayLineup : Lineup := mkLineup "11" "12" "13" "14" "15" "16".
Definition homeRoles : RoleMapping := mkRoles R_S R_OH R_MB R_OP R_OH R_MB.
Definition awayRoles : RoleMapping := mkRoles R_OH R_MB R_OP R_S R_MB R_OH.

(** A match just started, [serve] serving, 0:0. *)
Definition started (serve : TeamSide) : App :=
  handleGameStart initialApp config homeLineup awayLineup
                  homeRoles awayRoles "99" "88" serve.

(** A saved match loaded at 10:12 with the opponent serving. *)
Definition saved_10_12 : GameState :=
  {| gs_currentSet := 1; gs_mySetWins := 0; gs_opSetWins := 0;
     gs_myLineup := homeLineup; gs_opLineup := awayLineup;
     gs_myRoles := Some homeRoles; gs_opRoles := Some awayRoles;
     gs_myLibero := "99"; gs_opLibero := "88";
     gs_myScore := 10; gs_opScore := 12;
     gs_servingTeam := op; gs_logs := [] |}.

Definition loaded_10_12 : App := handleLoadGame initialApp saved_10_12 config.

(** A set that ended 25:25 on the board (a tie when the set is
    advanced). *)
Definition saved_tie : GameState :=
  {| gs_currentSet := 1; gs_mySetWins := 0; gs_opSetWins := 0;
     gs_myLineup := homeLineup; gs_opLineup := awayLineup;
     gs_myRoles := Some homeRoles; gs_opRoles := Some awayRoles;
     gs_myLibero := "99"; gs_opLibero := "88";
     gs_myScore := 25; gs_opScore := 25;
     gs_servingTeam := me; gs_logs := [] |}.

Definition loaded_tie : App := handleLoadGame initialApp saved_tie config.

Definition clock : GameView.Clock := GameView.mkClock 1700000000000 1700000000001.

(** The flow waiting for a result: [side]'s player at [pos] did [act],
    the trajectory is drawn. *)
Definition pending (side : TeamSide) (pos : Slot) (act : ActionType)
    : GameView.State :=
  GameView.mkState GameView.RESULT_PENDING side (Some pos) (Some act)
    false "" None None (Some (mkCoord 167 833)) (Some (mkCoord 750 500)).

(** The opponent serves; the home player at position 4 attacks and wins
    the rally. *)
Definition afterSideOut : App :=
  fst (GameView.handleResult (started op) (pending me (Pos P4) ATTACK)
                             clock POINT).

(** The home team serves an ace from position 1. *)
Definition afterAce : App :=
  fst (GameView.handleResult (started me) (pending me (Pos P1) SERVE)
                             clock POINT).

(** One manual point for the home team while the opponent serves. *)
Definition afterManualPlus : App :=
  GameView.handleScoreAdjust (started op) clock true 1.

(** The substitution dialog open on the home team's position 1 with
    the text 05 typed in. *)
Definition subDialog : GameView.State :=
  GameView.mkState GameView.IDLE me None None true "05" (Some (me, Pos P1))
    None None None.

(** The store after that substitution is confirmed. *)
Definition afterSub : App :=
  fst (GameView.handleSubConfirm (started me) subDialog).

(** The setup form opened on that store. *)
Definition formAfterSub : SetupView.Form := SetupView.openForm afterSub.

(** The UTF-8 text of U+00A0, the no-break space, and of U+3000, the
    ideographic space. *)
Definition noBreakSpace : string :=
  String (ascii_of_N 0xC2) (String (ascii_of_N 0xA0) EmptyString).

Definition ideographicSpace : string :=
  String (ascii_of_N 0xE3)
    (String (ascii_of_N 0x80) (String (ascii_of_N 0x80) EmptyString)).

End Samples.

(* ================================================================== *)
(** * Court: the canonical point of a rotation position *)
(* ================================================================== *)

From Stdlib Require QArith Permutation.

Module Court.

Import QArith.
Local Open Scope Q_scope.

(** A point of the court drawing, in its 18 by 9 logical units.  Every
    coordinate below is a literal with a finite binary expansion, and none
    is computed: rationals hold them exactly. *)
Record Point := mkPoint { x : Q; y : Q }.

(** [action] is the component's optional prop; [ignoreAction] defaults to
    [false] at the call sites that leave it out. *)
Definition getPositionCenter (action : option ActionType)
    (side : TeamSide) (pos : Slot) (ignoreAction : bool) : Point :=
  let posNum := match pos with L => P6 | Pos p => p end in
  let serving :=
    match action with
    | Some a => negb ignoreAction && ActionType_eqb a SERVE
    | None => false
    end in
  match side with
  | me =>
      let p :=
        match posNum with
        | P4 => mkPoint 7.5 1.5
        | P3 => mkPoint 7.5 4.5
        | P2 => mkPoint 7.5 7.5
        | P5 => mkPoint 3.0 1.5
        | P6 => mkPoint 3.0 4.5
        | P1 => mkPoint 3.0 7.5
        end in
      if serving then mkPoint (-0.5) (y p) else p
  | op =>
      let p :=
        match posNum with
        | P2 => mkPoint 10.5 1.5
        | P3 => mkPoint 10.5 4.5
        | P4 => mkPoint 10.5 7.5
        | P1 => mkPoint 15.0 1.5
        | P6 => mkPoint 15.0 4.5
        | P5 => mkPoint 15.0 7.5
        end in
      if serving then mkPoint 18.5 (y p) else p
  end.

(** The branch [!ignoreAction && action === ActionType.SERVE] is taken. *)
Definition drawnAsServe (action : option ActionType) (ignoreAction : bool)
    : bool :=
  match action with
  | Some SERVE => negb ignoreAction
  | _ => false
  end.

(** The point the drawing starts from when the flow enters DRAWING: the
    effect calls [getPositionCenter(activeSide, selectedPos)]. *)
Definition autoStart (action : option ActionType) (side : TeamSide)
    (pos : Slot) : Point :=
  getPositionCenter action side pos false.

(** The point of a watermark: [getPositionCenter(side, pos, true)]. *)
Definition watermark (action : option ActionType) (side : TeamSide)
    (pos : Position) : Point :=
  getPositionCenter action side (Pos pos) true.

(** Reflection of a point through the centre of the court, (9, 4.5). *)
Definition mirror (p : Point) : Point := mkPoint (18 - x p) (9 - y p).

(** Equality of points, coordinate by coordinate, as rationals. *)
Definition samePoint (p q : Point) : Prop := x p == x q /\ y p == y q.

(** Strictly inside the court rectangle. *)
Definition onCourt (p : Point) : Prop := 0 < x p /\ x p < 18 /\ 0 < y p /\ y p < 9.

(** Strictly inside a team's half: the home half is left of the net at
    x = 9, the opponent's right of it. *)
Definition inHalf (side : TeamSide) (p : Point) : Prop :=
  match side with
  | me => 0 < x p /\ x p < 9
  | op => 9 < x p /\ x p < 18
  end.

(** Behind a team's own end line. *)
Definition behindEndLine (side : TeamSide) (p : Point) : Prop :=
  match side with
  | me => x p < 0
  | op => 18 < x p
  end.

End Court.

(* ================================================================== *)
(** * Setup screen (SetupView): validation and match start *)
(* ================================================================== *)

Module Setup.

(** The state of the setup component that validation and [startGame]
    read; the four lineup and libero variables are the [SetupView.Form]. *)
Record State := mkState {
  matchName : string;
  myName : string;
  opName : string;
  firstServe : TeamSide;
  form : SetupView.Form;
  myRoles : RoleMapping;
  opRoles : RoleMapping }.

(** [Object.values(lineup)]: integer keys are enumerated in ascending
    order. *)
Definition values (l : Lineup) : list string :=
  [at1 l; at2 l; at3 l; at4 l; at5 l; at6 l].

(** [n.trim() !== ''] *)
Definition filled (n : string) : bool :=
  negb (String.eqb (Text.trim n) "").

(** A JS [Set] of strings as the list of its members in insertion
    order. *)
Definition has (s : list string) (n : string) : bool :=
  existsb (String.eqb n) s.

Definition add (s : list string) (n : string) : list string :=
  if has s n then s else s ++ [n].

(** The numbers [getDuplicates] walks over:
    [[...Object.values(lineup), libero].filter(n => n.trim() !== '')]. *)
Definition numbers (lineup : Lineup) (libero : string) : list string :=
  filter filled (values lineup ++ [libero]).

(** The body of the [forEach]: [if (seen.has(n)) duplicates.add(n);
    seen.add(n)], on the pair (seen, duplicates). *)
Definition visit (acc : list string * list string) (n : string)
    : list string * list string :=
  let '(seen, duplicates) := acc in
  (add seen n, if has seen n then add duplicates n else duplicates).

Definition getDuplicates (lineup : Lineup) (libero : string) : list string :=
  snd (fold_left visit (numbers lineup libero) ([], [])).

(** [Object.values(lineup).some(val => val.trim() === '')] *)
Definition hasEmptyFields (lineup : Lineup) : bool :=
  existsb (fun val => String.eqb (Text.trim val) "") (values lineup).

(** The message the validation effect leaves in [errorMsg]; the effect
    runs after every change of a lineup or a libero, so when a handler
    runs the message is this function of the form. *)
Definition errorMsg (s : State) : option string :=
  let f := form s in
  let myDups := getDuplicates (SetupView.myLineup f) (SetupView.myLibero f) in
  let opDups := getDuplicates (SetupView.opLineup f) (SetupView.opLibero f) in
  let myEmpty := hasEmptyFields (SetupView.myLineup f) in
  let opEmpty := hasEmptyFields (SetupView.opLineup f) in
  if myEmpty then Some "請輸入我方所有先發背號"
  else if opEmpty then Some "請輸入對手所有先發背號"
  else if (0 <? List.length myDups)%nat then
    Some ("我方隊伍背號重複: " ++ Text.join ", " myDups)%string
  else if (0 <? List.length opDups)%nat then
    Some ("對手隊伍背號重複: " ++ Text.join ", " opDups)%string
  else None.

(** [startGame], with [onStart] the root component's [handleGameStart]:
    the next store. *)
Definition startGame (r : App) (s : State) : App :=
  let finalMyName := Text.str_or (Text.trim (myName s)) "我方球隊" in
  let finalOpName := Text.str_or (Text.trim (opName s)) "對手球隊" in
  match errorMsg s with
  | Some _ => r
  | None =>
      handleGameStart r (mkConfig (matchName s) finalMyName finalOpName)
        (SetupView.myLineup (form s)) (SetupView.opLineup (form s))
        (myRoles s) (opRoles s)
        (SetupView.myLibero (form s)) (SetupView.opLibero (form s))
        (firstServe s)
  end.

Definition handleTestFill (s : State) : State :=
  mkState "練習賽 G1" "主場隊伍" "客場隊伍" (firstServe s)
    (SetupView.mkForm (mkLineup "1" "2" "3" "4" "5" "6")
                      (mkLineup "11" "12" "13" "14" "15" "16") "99" "88")
    (mkRoles R_S R_OH R_MB R_OP R_OH R_MB)
    (mkRoles R_OH R_MB R_OP R_S R_MB R_OH).

(** The component's state at its first mount on a fresh store. *)
Definition initialState : State :=
  mkState "" "" "" me
    (SetupView.mkForm (mkLineup "" "" "" "" "" "") (mkLineup "" "" "" "" "" "")
                      "" "")
    (mkRoles R_Unknown R_Unknown R_Unknown R_Unknown R_Unknown R_Unknown)
    (mkRoles R_Unknown R_Unknown R_Unknown R_Unknown R_Unknown R_Unknown).

(** A lineup is complete: no slot is blank. *)
Definition complete (l : Lineup) : Prop :=
  forall p, filled (lineup_get l p) = true.

End Setup.

(* ================================================================== *)
(** * Saved matches (GameView: save, list, load) *)
(* ================================================================== *)

Module Persist.

(** [SavedGame]: the object [handleConfirmSave] builds. *)
Record SavedGame := mkSaved {
  config : TeamConfig;
  state : GameState;
  savedAt : Z }.

Definition SAVE_PREFIX : string := "volleyscout_save_".

(** The local storage: its entries in the order of [localStorage.key(i)].
    The code stores [JSON.stringify(saveObject)] and reads it back with
    [JSON.parse]; the entries hold the object the text stands for. *)
Definition Storage := list (string * SavedGame).

(** [localStorage.getItem(key)] *)
Fixpoint getItem (st : Storage) (key : string) : option SavedGame :=
  match st with
  | [] => None
  | (k, v) :: rest => if String.eqb k key then Some v else getItem rest key
  end.

(** [localStorage.setItem(key, v)]: an existing entry is overwritten in
    place, a new one is added. *)
Fixpoint setItem (st : Storage) (key : string) (v : SavedGame) : Storage :=
  match st with
  | [] => [(key, v)]
  | (k, w) :: rest =>
      if String.eqb k key then (k, v) :: rest
      else (k, w) :: setItem rest key v
  end.

(** The object of [handleConfirmSave], from the props of the render. *)
Definition saveObject (r : App) (now : Z) : SavedGame :=
  {| config := teamConfig r;
     state :=
       {| gs_currentSet := currentSet r;
          gs_mySetWins := mySetWins r;
          gs_opSetWins := opSetWins r;
          gs_myLineup := myLineup r;
          gs_opLineup := opLineup r;
          gs_myRoles := Some (myRoles r);
          gs_opRoles := Some (opRoles r);
          gs_myLibero := myLibero r;
          gs_opLibero := opLibero r;
          gs_myScore := myScore r;
          gs_opScore := opScore r;
          gs_servingTeam := servingTeam r;
          gs_logs := logs r |};
     savedAt := now |}.

(** [handleConfirmSave]: the next storage.  [stored] tells whether
    [setItem] went through; when it throws (the quota is exceeded) the
    [catch] reports the failure and the storage is as before. *)
Definition handleConfirmSave (r : App) (saveFileName : string) (now : Z)
    (stored : bool) (st : Storage) : Storage :=
  let saveObject := saveObject r now in
  if stored
  then setItem st (SAVE_PREFIX ++ Text.trim saveFileName)%string saveObject
  else st.

(** [handleLoadList]: the [key] and [name] of the listed files. *)
Definition handleLoadList (st : Storage) : list (string * string) :=
  map (fun kv => (fst kv, Text.removeFirst SAVE_PREFIX (fst kv)))
      (filter (fun kv => String.prefix SAVE_PREFIX (fst kv)) st).

(** [handleLoadFile], with [onLoadGame] the root component's
    [handleLoadGame]: the next store. *)
Definition handleLoadFile (r : App) (st : Storage) (key : string) : App :=
  match getItem st key with
  | Some parsed => handleLoadGame r (state parsed) (config parsed)
  | None => r
  end.

End Persist.

(* ================================================================== *)
(** * The application as the user drives it *)
(* ================================================================== *)

Module Session.

(** The store together with the local storage. *)
Record Sys := mkSys { app : App; disk : Persist.Storage }.

(** What the user can trigger.  The component state a GameView handler
    runs in is part of the action. *)
Inductive Action :=
| Start (s : Setup.State)
| Resume
| NewMatch
| Home
| NextSet
| Undo
| Redo
| Result (g : GameView.State) (k : GameView.Clock) (res : ResultType)
| Adjust (k : GameView.Clock) (isMyTeam : bool) (plus : bool)
| Rotate (isMyTeam : bool)
| Substitute (g : GameView.State)
| Save (saveFileName : string) (now : Z) (stored : bool)
| Load (key : string).

(** Which control is on screen.  The root component renders SetupView
    when [view] is ['setup'] and GameView otherwise; SetupView shows the
    start button (disabled while [errorMsg] is set) when no match is
    active, and the resume and new-match buttons when one is. *)
Definition enabled (s : Sys) (a : Action) : bool :=
  match view (app s), a with
  | setup, Start st =>
      negb (isGameActive (app s)) &&
      match Setup.errorMsg st with None => true | Some _ => false end
  | setup, Resume => isGameActive (app s)
  | setup, NewMatch => isGameActive (app s)
  | game, Start _ | game, Resume | game, NewMatch => false
  | game, _ => true
  | setup, _ => false
  end.

Definition step (s : Sys) (a : Action) : Sys :=
  match a with
  | Start st => mkSys (Setup.startGame (app s) st) (disk s)
  | Resume => mkSys (handleResumeGame (app s)) (disk s)
  | NewMatch => mkSys (handleNewMatch (app s)) (disk s)
  | Home => mkSys (handleHome (app s)) (disk s)
  | NextSet => mkSys (handleNextSet (app s)) (disk s)
  | Undo => mkSys (handleUndo (app s)) (disk s)
  | Redo => mkSys (handleRedo (app s)) (disk s)
  | Result g k res => mkSys (fst (GameView.handleResult (app s) g k res)) (disk s)
  | Adjust k isMyTeam plus =>
      mkSys (GameView.handleScoreAdjust (app s) k isMyTeam (if plus then 1 else -1))
            (disk s)
  | Rotate isMyTeam => mkSys (GameView.handleRotation (app s) isMyTeam) (disk s)
  | Substitute g => mkSys (fst (GameView.handleSubConfirm (app s) g)) (disk s)
  | Save n now stored =>
      mkSys (app s) (Persist.handleConfirmSave (app s) n now stored (disk s))
  | Load key => mkSys (Persist.handleLoadFile (app s) (disk s) key) (disk s)
  end.

(** The first render, on an empty storage. *)
Definition initial : Sys := mkSys initialApp [].

(** The systems the user can bring about. *)
Inductive reachable : Sys -> Prop :=
| reach_initial : reachable initial
| reach_action : forall s a,
    reachable s -> enabled s a = true -> reachable (step s a).

(** [run s as]: the actions [as] in turn, each one skipped when its
    control is not on screen. *)
Fixpoint run (s : Sys) (acts : list Action) : Sys :=
  match acts with
  | [] => s
  | a :: rest => run (if enabled s a then step s a else s) rest
  end.

(** The last entry of a ledger. *)
Definition lastEntry (ledger : list LogEntry) : option LogEntry :=
  nth_error ledger (List.length ledger - 1).

(** The board of a snapshot shows the resulting score of its last ledger
    entry, and 0:0 when the ledger is empty. *)
Definition boardMatches (g : GameState) : Prop :=
  match lastEntry (gs_logs g) with
  | Some l => log_myScore l = gs_myScore g /\ log_opScore l = gs_opScore g
  | None => gs_myScore g = 0 /\ gs_opScore g = 0
  end.

(** A snapshot with consistent counters. *)
Definition sound (g : GameState) : Prop :=
  hasRoles g = true /\
  0 <= gs_myScore g /\ 0 <= gs_opScore g /\
  1 <= gs_currentSet g /\
  0 <= gs_mySetWins g /\ 0 <= gs_opSetWins g /\
  gs_mySetWins g + gs_opSetWins g <= gs_currentSet g - 1 /\
  boardMatches g /\
  Forall (fun l => setNumber l <= gs_currentSet g) (gs_logs g).

(** The store of a match that has not started. *)
Definition pristine (r : App) : Prop :=
  logs r = [] /\ myScore r = 0 /\ opScore r = 0 /\
  currentSet r = 1 /\ mySetWins r = 0 /\ opSetWins r = 0 /\
  history r = [] /\ future r = [].

Definition invariant (s : Sys) : Prop :=
  sound (getCurrentState (app s)) /\
  Forall sound (history (app s)) /\
  Forall sound (future (app s)) /\
  Forall (fun kv => sound (Persist.state (snd kv))) (disk s) /\
  (view (app s) = game -> isGameActive (app s) = true) /\
  (isGameActive (app s) = false -> pristine (app s)).

(** What a handler of the game view leaves behind, from the store [r]
    it was called in: a consistent store, the same view and activity
    flag, and either the store as it was or one more snapshot, that of
    [r], on the past stack and an empty future stack. *)
Definition keeps (r a : App) : Prop :=
  sound (getCurrentState a) /\
  view a = view r /\ isGameActive a = isGameActive r /\
  (a = r \/ (history a = history r ++ [getCurrentState r] /\ future a = [])).

(** A sample session: the test fill is started, the home team wins a
    rally on an attack, the opponent is given a manual point, the set is
    advanced and the match resumed. *)
Definition sampleActions : list Action :=
  [Start (Setup.handleTestFill Setup.initialState);
   Result (Samples.pending me (Pos P4) ATTACK) Samples.clock POINT;
   Adjust Samples.clock false true;
   NextSet;
   Resume].

Definition sample : Sys := run initial sampleActions.

End Session.

(* ================================================================== *)
(** * Counting entries *)
(* ================================================================== *)

Module Tally.

(** The number of entries of a ledger that satisfy [p]. *)
Definition tally (p : LogEntry -> bool) (ledger : list LogEntry) : Z :=
  Z.of_nat (List.length (filter p ledger)).

Definition isAction (a : ActionType) (l : LogEntry) : bool :=
  ActionType_eqb (action l) a.

Definition isActionWith (a : ActionType) (res : ResultType) (l : LogEntry)
    : bool :=
  ActionType_eqb (action l) a && ResultType_eqb (result l) res.

(** Field by field sum of two summaries. *)
Definition plus (a b : StatsOverlay.StatSummary) : StatsOverlay.StatSummary :=
  StatsOverlay.mkStats
    (StatsOverlay.attackKills a + StatsOverlay.attackKills b)
    (StatsOverlay.attackTotal a + StatsOverlay.attackTotal b)
    (StatsOverlay.blocks a + StatsOverlay.blocks b)
    (StatsOverlay.serveAces a + StatsOverlay.serveAces b)
    (StatsOverlay.serveErrors a + StatsOverlay.serveErrors b)
    (StatsOverlay.digs a + StatsOverlay.digs b)
    (StatsOverlay.totalPoints a + StatsOverlay.totalPoints b).

End Tally.

(* ================================================================== *)
(** * Vocabulary of the statements about commits *)
(* ================================================================== *)

(** Splits the conjunctions of a goal that are written out, leaving
    defined predicates folded. *)
Ltac conj_split := repeat match goal with |- _ /\ _ => split end.

Module Vocabulary.

(** A snapshot with one team's lineup rotated. *)
Definition rotateSnapshot (isMyTeam : bool) (g : GameState) : GameState :=
  mkGameState (gs_currentSet g) (gs_mySetWins g) (gs_opSetWins g)
    (if isMyTeam then getRotatedLineup (gs_myLineup g) else gs_myLineup g)
    (if isMyTeam then gs_opLineup g else getRotatedLineup (gs_opLineup g))
    (gs_myRoles g) (gs_opRoles g) (gs_myLibero g) (gs_opLibero g)
    (gs_myScore g) (gs_opScore g) (gs_servingTeam g) (gs_logs g).

(** The events of the store that commit: they push a snapshot. *)
Definition commits (e : Event) : bool :=
  match e with
  | GameAction _ _ _ _ | NextSet => true
  | _ => false
  end.

(** [events] in turn, from [r]. *)
Definition runEvents (r : App) (events : list Event) : App :=
  fold_left step events r.

Fixpoint redos (n : nat) (r : App) : App :=
  match n with
  | O => r
  | S k => redos k (handleRedo r)
  end.

End Vocabulary.

(* ================================================================== *)
(** * CSV export (GameView, [handleExportCSV]) *)
(* ================================================================== *)

Module Csv.

(** The byte order mark ['﻿'], as the three bytes it has in the
    UTF-8 text of the exported file. *)
Definition BOM : string :=
  String (ascii_of_nat 239) (String (ascii_of_nat 187)
    (String (ascii_of_nat 191) EmptyString)).

Definition headers : list string :=
  ["Set"; "Timestamp"; "Score (My)"; "Score (Op)"; "Serving"; "Player";
   "Position"; "Action"; "Result"; "Note"].

Definition ACTION_LABELS (a : ActionType) : string :=
  match a with
  | SERVE => "發球"
  | ATTACK => "攻擊"
  | BLOCK => "攔網"
  | DIG => "接扣"
  | SET => "舉球"
  | RECEIVE => "接發"
  end.

(** [String(log.position)]: a position number or ['L']. *)
Definition positionText (p : Slot) : string :=
  match p with
  | Pos P1 => "1" | Pos P2 => "2" | Pos P3 => "3"
  | Pos P4 => "4" | Pos P5 => "5" | Pos P6 => "6"
  | L => "L"
  end.

Section Texts.

(** [new Date(t).toLocaleTimeString('zh-TW', {hour12: false})], a
    function of the platform, and the string values of the members of
    [ResultType], declared in types.ts: both are taken as given. *)
Variable localeTime : Z -> string.
Variable resultValue : ResultType -> string.

(** The ten cells of a row.  Every action kind has a label, so
    [ACTION_LABELS[log.action] || log.action] is the label;
    [log.note || ''] on a string is the string. *)
Definition cells (teamConfig : TeamConfig) (log : LogEntry) : list string :=
  let time := localeTime (timestamp log) in
  let serving :=
    if TeamSide_eqb (log_servingTeam log) me
    then Types.myName teamConfig else Types.opName teamConfig in
  let actionName := ACTION_LABELS (action log) in
  [toString (setNumber log); time;
   toString (log_myScore log); toString (log_opScore log);
   serving; playerNumber log; positionText (position log);
   actionName; resultValue (result log); note log].

Definition row (teamConfig : TeamConfig) (log : LogEntry) : string :=
  Text.join "," (cells teamConfig log).

(** [csvContent] *)
Definition csvContent (teamConfig : TeamConfig) (logs : list LogEntry)
    : string :=
  (BOM ++ Text.join (String (ascii_of_nat 10) EmptyString)
            (Text.join "," headers :: map (row teamConfig) logs))%string.

(** The cells of a row that hold free text. *)
Definition freeCells (teamConfig : TeamConfig) (log : LogEntry) : list string :=
  [localeTime (timestamp log);
   (if TeamSide_eqb (log_servingTeam log) me
    then Types.myName teamConfig else Types.opName teamConfig);
   playerNumber log; resultValue (result log); note log].

End Texts.

(** The number of occurrences of a character in a string. *)
Fixpoint countChar (c : ascii) (s : string) : nat :=
  match s with
  | EmptyString => O
  | String a rest => ((if Ascii.eqb a c then 1 else 0) + countChar c rest)%nat
  end.

Definition comma : ascii := ",".
Definition newline : ascii := ascii_of_nat 10.

(** The occurrences of a character in all the strings of a list. *)
Definition countIn (c : ascii) (parts : list string) : nat :=
  list_sum (map (countChar c) parts).

End Csv.

(* ================================================================== *)
(** * Properties of the rotation engine *)
(* ================================================================== *)

Module RotationSpec.

Lemma getRotatedLineup_get (l : Lineup) (p : Position) :
  lineup_get (getRotatedLineup l) p = lineup_get l (next_pos p).
Proof. destruct p; reflexivity. Qed.

Lemma lineup_ext (a b : Lineup) :
  (forall p, lineup_get a p = lineup_get b p) -> a = b.
Proof.
  intros H. destruct a, b.
  pose proof (H P1) as H1. pose proof (H P2) as H2.
  pose proof (H P3) as H3. pose proof (H P4) as H4.
  pose proof (H P5) as H5. pose proof (H P6) as H6.
  simpl in *. congruence.
Qed.

Lemma rotate_n_get (n : nat) (l : Lineup) (p : Position) :
  lineup_get (rotate_n n l) p = lineup_get l (Nat.iter n next_pos p).
Proof.
  revert p. induction n as [|n IH]; intros p; simpl.
  - reflexivity.
  - rewrite getRotatedLineup_get, IH.
    f_equal. clear. induction n as [|n IH]; simpl; [reflexivity|].
    now rewrite IH.
Qed.

(** C2.  The rotation is the permutation new[1]=old[2], new[2]=old[3],
    new[3]=old[4], new[4]=old[5], new[5]=old[6], new[6]=old[1], and six
    rotations of any lineup give the lineup back. *)
Theorem rotation_is_the_six_cycle (old : Lineup) :
  let new := getRotatedLineup old in
  lineup_get new P1 = lineup_get old P2 /\
  lineup_get new P2 = lineup_get old P3 /\
  lineup_get new P3 = lineup_get old P4 /\
  lineup_get new P4 = lineup_get old P5 /\
  lineup_get new P5 = lineup_get old P6 /\
  lineup_get new P6 = lineup_get old P1 /\
  getRotatedLineup (getRotatedLineup (getRotatedLineup
    (getRotatedLineup (getRotatedLineup (getRotatedLineup old))))) = old.
Proof.
  cbv zeta. repeat split.
  change (rotate_n 6 old = old).
  apply lineup_ext. intros p. rewrite rotate_n_get.
  destruct p; reflexivity.
Qed.

End RotationSpec.

(* ================================================================== *)
(** * Properties of the history manager *)
(* ================================================================== *)

Module HistorySpec.

(** ** Stack operations *)

Lemma last_snapshot_snoc (h : list GameState) (p : GameState) :
  last_snapshot (h ++ [p]) = Some p.
Proof.
  unfold last_snapshot. rewrite length_app. simpl.
  replace (List.length h + 1 - 1)%nat with (List.length h + 0)%nat by lia.
  rewrite nth_error_app2 by lia.
  replace (List.length h + 0 - List.length h)%nat with 0%nat by lia.
  reflexivity.
Qed.

Lemma length_snoc_nonzero (h : list GameState) (p : GameState) :
  (List.length (h ++ [p]) =? 0)%nat = false.
Proof. rewrite length_app. simpl. apply Nat.eqb_neq. lia. Qed.

Lemma snoc_cases (h : list GameState) :
  h = [] \/ exists h' p, h = h' ++ [p].
Proof.
  destruct h as [|a t]; [now left | right].
  exists (removelast (a :: t)), (last (a :: t) a).
  apply app_removelast_last. discriminate.
Qed.

Lemma forallb_removelast (f : GameState -> bool) (h : list GameState) :
  forallb f h = true -> forallb f (removelast h) = true.
Proof.
  destruct (snoc_cases h) as [-> | (h' & p & ->)]; [trivial|].
  rewrite removelast_last, forallb_app.
  intros H. now apply andb_prop in H.
Qed.

Lemma forallb_snoc (f : GameState -> bool) (h : list GameState) (p : GameState) :
  forallb f h = true -> f p = true -> forallb f (h ++ [p]) = true.
Proof. intros H1 H2. rewrite forallb_app. simpl. now rewrite H1, H2. Qed.

(** ** Snapshots *)

(** Restoring a snapshot that carries its roles makes it the current
    state, whatever the state was. *)
Lemma getCurrentState_restore (g : GameState) (s : App) :
  hasRoles g = true -> getCurrentState (restore g s) = g.
Proof.
  destruct g as [cs mw ow ml ol [mr|] [or_|] mb ob ms os st lg];
    simpl; intros H; try discriminate H.
  reflexivity.
Qed.

Lemma restore_getCurrentState (r s : App) :
  view s = view r -> isGameActive s = isGameActive r ->
  setupKey s = setupKey r -> teamConfig s = teamConfig r ->
  history s = history r -> future s = future r ->
  restore (getCurrentState r) s = r.
Proof.
  destruct r, s; simpl. intros; subst. reflexivity.
Qed.

Lemma restore_stacks (g : GameState) (s : App) :
  history (restore g s) = history s /\ future (restore g s) = future s /\
  view (restore g s) = view s /\ isGameActive (restore g s) = isGameActive s /\
  setupKey (restore g s) = setupKey s /\ teamConfig (restore g s) = teamConfig s.
Proof. repeat split. Qed.

(** ** The handlers on a non-empty stack *)

Lemma handleUndo_snoc (r : App) (h : list GameState) (p : GameState) :
  history r = h ++ [p] ->
  handleUndo r =
  restore p (setHistory (fun prev => removelast prev)
               (setFuture (fun prev => getCurrentState r :: prev) r)).
Proof.
  intros H. unfold handleUndo.
  rewrite H, length_snoc_nonzero, last_snapshot_snoc. reflexivity.
Qed.

Lemma handleRedo_cons (r : App) (n : GameState) (f : list GameState) :
  future r = n :: f ->
  handleRedo r =
  restore n (setFuture (fun prev => tl prev)
               (setHistory (fun prev => prev ++ [getCurrentState r]) r)).
Proof. intros H. unfold handleRedo. rewrite H. reflexivity. Qed.

Lemma handleUndo_empty (r : App) : history r = [] -> handleUndo r = r.
Proof. intros H. unfold handleUndo. now rewrite H. Qed.

Lemma handleRedo_empty (r : App) : future r = [] -> handleRedo r = r.
Proof. intros H. unfold handleRedo. now rewrite H. Qed.

(** ** Every snapshot on the stacks was built by [getCurrentState] *)

Lemma handleGameAction_stacks (r : App) nl su lu ns :
  history (handleGameAction r nl su lu ns) = history r ++ [getCurrentState r] /\
  future (handleGameAction r nl su lu ns) = [].
Proof.
  unfold handleGameAction.
  destruct nl, su, lu as [[[] ? []]|], ns; split; reflexivity.
Qed.

Lemma handleNextSet_stacks (r : App) :
  history (handleNextSet r) = history r ++ [getCurrentState r] /\
  future (handleNextSet r) = [].
Proof.
  unfold handleNextSet.
  destruct (myScore r >? opScore r), (opScore r >? myScore r);
    split; reflexivity.
Qed.

Lemma stacksOk_step (r : App) (e : Event) : stacksOk r -> stacksOk (step r e).
Proof.
  intros [Hh Hf]. destruct e; cbn [step]; unfold stacksOk; try (split; [exact Hh | exact Hf]);
    try (split; reflexivity).
  - (* NextSet *)
    destruct (handleNextSet_stacks r) as [-> ->]. split; [|reflexivity].
    now apply forallb_snoc.
  - (* GameAction *)
    destruct (handleGameAction_stacks r newLog scoreUpdate lineupUpdate
                newServingTeam) as [-> ->].
    split; [|reflexivity]. now apply forallb_snoc.
  - (* Undo *)
    destruct (snoc_cases (history r)) as [E | (h & p & E)].
    + rewrite (handleUndo_empty r E). now split.
    + rewrite (handleUndo_snoc r h p E).
      destruct (restore_stacks p
        (setHistory (fun prev => removelast prev)
           (setFuture (fun prev => getCurrentState r :: prev) r)))
        as (-> & -> & _).
      split; simpl.
      * now apply forallb_removelast.
      * exact Hf.
  - (* Redo *)
    destruct (future r) as [|n f] eqn:E.
    + rewrite (handleRedo_empty r E). split; [exact Hh | now rewrite E].
    + rewrite (handleRedo_cons r n f E).
      destruct (restore_stacks n
        (setFuture (fun prev => tl prev)
           (setHistory (fun prev => prev ++ [getCurrentState r]) r)))
        as (-> & -> & _).
      split; simpl.
      * now apply forallb_snoc.
      * rewrite E. simpl in Hf. now apply andb_prop in Hf.
Qed.

Lemma reachable_stacksOk (r : App) : reachable r -> stacksOk r.
Proof.
  induction 1 as [|r e _ IH].
  - split; reflexivity.
  - now apply stacksOk_step.
Qed.

(** C3.  In every state of the application whose past stack is not
    empty, undo makes the most recent past snapshot the current state
    (all thirteen fields at once), pops it from the past stack and
    pushes the state before the undo onto the future stack; a redo
    right after it gives back the state that was undone, stacks
    included. *)
Theorem undo_restores_and_redo_returns (S : App) :
  reachable S -> history S <> [] ->
  exists h p,
    history S = h ++ [p] /\
    getCurrentState (handleUndo S) = p /\
    history (handleUndo S) = h /\
    future (handleUndo S) = getCurrentState S :: future S /\
    handleRedo (handleUndo S) = S.
Proof.
  intros Hreach Hpast.
  destruct (snoc_cases (history S)) as [E | (h & p & E)]; [contradiction|].
  exists h, p. split; [exact E|].
  destruct (reachable_stacksOk S Hreach) as [Hh _].
  rewrite E, forallb_app in Hh. simpl in Hh.
  apply andb_prop in Hh. destruct Hh as [_ Hp].
  rewrite andb_true_r in Hp.
  pose proof (handleUndo_snoc S h p E) as HU.
  set (mid := setHistory (fun prev => removelast prev)
                (setFuture (fun prev => getCurrentState S :: prev) S)) in HU.
  destruct (restore_stacks p mid) as (Rh & Rf & Rv & Ra & Rk & Rc).
  assert (Hcur : getCurrentState (handleUndo S) = p)
    by (rewrite HU; now apply getCurrentState_restore).
  assert (Hhist : history (handleUndo S) = h)
    by (rewrite HU, Rh; simpl; rewrite E; apply removelast_last).
  assert (Hfut : future (handleUndo S) = getCurrentState S :: future S)
    by (rewrite HU, Rf; reflexivity).
  repeat split; try assumption.
  rewrite (handleRedo_cons _ _ _ Hfut).
  apply restore_getCurrentState; simpl.
  - now rewrite HU, Rv.
  - now rewrite HU, Ra.
  - now rewrite HU, Rk.
  - now rewrite HU, Rc.
  - now rewrite Hhist, Hcur, E.
  - now rewrite Hfut.
Qed.

(** Undo and redo on an empty stack change nothing. *)
Lemma undo_redo_on_empty_stack (S : App) :
  (history S = [] -> handleUndo S = S) /\ (future S = [] -> handleRedo S = S).
Proof. split; [apply handleUndo_empty | apply handleRedo_empty]. Qed.

(** Undo right after any commit gives back the state the commit was
    made in, whatever the stacks held before. *)
Lemma undo_after_commit (r : App) nl su lu ns :
  getCurrentState (handleUndo (handleGameAction r nl su lu ns))
  = getCurrentState r.
Proof.
  destruct (handleGameAction_stacks r nl su lu ns) as [Hh _].
  rewrite (handleUndo_snoc _ _ _ Hh).
  now apply getCurrentState_restore.
Qed.

(** ** What a commit does to the stacks *)

Lemma handleRotation_stacks (r : App) (isMyTeam : bool) :
  history (GameView.handleRotation r isMyTeam) = history r ++ [getCurrentState r] /\
  future (GameView.handleRotation r isMyTeam) = [].
Proof. apply handleGameAction_stacks. Qed.

Lemma handleScoreAdjust_stacks (r : App) k (isMyTeam : bool) (delta : Z) :
  let s := GameView.handleScoreAdjust r k isMyTeam delta in
  history s = (if adjustCommits r isMyTeam delta
               then history r ++ [getCurrentState r] else history r) /\
  future s = (if adjustCommits r isMyTeam delta then [] else future r).
Proof.
  unfold adjustCommits, GameView.handleScoreAdjust. cbv zeta.
  destruct ((if isMyTeam then myScore r else opScore r) + delta <? 0);
    simpl negb; cbv iota; [now split|].
  destruct (if delta >? 0 then _ else _) as [lu ns].
  apply handleGameAction_stacks.
Qed.

Lemma handleSubConfirm_stacks (r : App) (g : GameView.State) :
  let s := fst (GameView.handleSubConfirm r g) in
  history s = (if subCommits g
               then history r ++ [getCurrentState r] else history r) /\
  future s = (if subCommits g then [] else future r).
Proof.
  unfold subCommits, GameView.handleSubConfirm. cbv zeta.
  destruct (GameView.subTarget g) as [[side pos]|]; [|now split].
  destruct (GameView.blank (GameView.subNumber g)); simpl negb; cbv iota;
    [now split|].
  destruct pos; apply handleGameAction_stacks.
Qed.

Lemma handleResult_stacks (r : App) (g : GameView.State) k res :
  let s := fst (GameView.handleResult r g k res) in
  history s = (if resultCommits g
               then history r ++ [getCurrentState r] else history r) /\
  future s = (if resultCommits g then [] else future r).
Proof.
  unfold resultCommits, GameView.handleResult. cbv zeta.
  destruct (GameView.selectedPos g), (GameView.selectedAction g);
    try now split.
  destruct res; try destruct (GameView.sideOut r _) as [lu ns];
    cbn [fst]; apply handleGameAction_stacks.
Qed.

(** ** Reachability of what the GameView handlers produce *)

Lemma reachable_handleGameAction (r : App) nl su lu ns :
  reachable r -> reachable (handleGameAction r nl su lu ns).
Proof. intros H. exact (reach_step r (GameAction nl su lu ns) H). Qed.

Lemma reachable_handleResult (r : App) (g : GameView.State) k res :
  reachable r -> reachable (fst (GameView.handleResult r g k res)).
Proof.
  intros H. unfold GameView.handleResult.
  destruct (GameView.selectedPos g), (GameView.selectedAction g);
    try exact H.
  destruct res; try destruct (GameView.sideOut r _) as [lu ns];
    cbn [fst]; now apply reachable_handleGameAction.
Qed.

Lemma reachable_handleScoreAdjust (r : App) k (isMyTeam : bool) (delta : Z) :
  reachable r -> reachable (GameView.handleScoreAdjust r k isMyTeam delta).
Proof.
  intros H. unfold GameView.handleScoreAdjust.
  destruct (_ <? 0); [exact H|].
  destruct (if delta >? 0 then _ else _) as [lu ns].
  now apply reachable_handleGameAction.
Qed.

Lemma reachable_handleSubConfirm (r : App) (g : GameView.State) :
  reachable r -> reachable (fst (GameView.handleSubConfirm r g)).
Proof.
  intros H. unfold GameView.handleSubConfirm.
  destruct (GameView.subTarget g) as [[side pos]|]; [|exact H].
  destruct (GameView.blank _); [exact H|].
  destruct pos; now apply reachable_handleGameAction.
Qed.

Lemma reachable_started (t : TeamSide) : reachable (Samples.started t).
Proof.
  exact (reach_step _ (GameStart Samples.config Samples.homeLineup
           Samples.awayLineup Samples.homeRoles Samples.awayRoles
           "99" "88" t) reach_init).
Qed.

Lemma undo_restores_and_redo_returns_witness :
  exists h p,
    history Samples.afterAce = h ++ [p] /\
    getCurrentState (handleUndo Samples.afterAce) = p /\
    history (handleUndo Samples.afterAce) = h /\
    future (handleUndo Samples.afterAce)
      = getCurrentState Samples.afterAce :: future Samples.afterAce /\
    handleRedo (handleUndo Samples.afterAce) = Samples.afterAce.
Proof.
  apply (undo_restores_and_redo_returns Samples.afterAce).
  - apply reachable_handleResult, reachable_started.
  - vm_compute. discriminate.
Defined.

(** C4.  Each committing operation (the commit of a player action, a
    manual score adjustment, a substitution, a rotation-only action, a
    set advance) leaves the past stack extended by exactly the snapshot
    of the state it was called in, and the future stack empty; an
    operation that returns at its guard leaves both stacks as they
    were.  In particular the future stack is empty after any commit
    that follows any number of undos. *)
Theorem commit_snapshots_and_clears_future (r : App) :
  (forall nl su lu ns,
     history (handleGameAction r nl su lu ns) = history r ++ [getCurrentState r] /\
     future (handleGameAction r nl su lu ns) = []) /\
  (forall g k res,
     let s := fst (GameView.handleResult r g k res) in
     history s = (if resultCommits g
                  then history r ++ [getCurrentState r] else history r) /\
     future s = (if resultCommits g then [] else future r)) /\
  (forall k isMyTeam delta,
     let s := GameView.handleScoreAdjust r k isMyTeam delta in
     history s = (if adjustCommits r isMyTeam delta
                  then history r ++ [getCurrentState r] else history r) /\
     future s = (if adjustCommits r isMyTeam delta then [] else future r)) /\
  (forall g,
     let s := fst (GameView.handleSubConfirm r g) in
     history s = (if subCommits g
                  then history r ++ [getCurrentState r] else history r) /\
     future s = (if subCommits g then [] else future r)) /\
  (forall isMyTeam,
     let s := GameView.handleRotation r isMyTeam in
     history s = history r ++ [getCurrentState r] /\ future s = []) /\
  (history (handleNextSet r) = history r ++ [getCurrentState r] /\
   future (handleNextSet r) = []) /\
  (forall n nl su lu ns,
     future (handleGameAction (undos n r) nl su lu ns) = [] /\
     future (handleNextSet (undos n r)) = []).
Proof.
  split; [intros; apply handleGameAction_stacks|].
  split; [intros; apply handleResult_stacks|].
  split; [intros; apply handleScoreAdjust_stacks|].
  split; [intros; apply handleSubConfirm_stacks|].
  split; [intros; apply handleRotation_stacks|].
  split; [apply handleNextSet_stacks|].
  intros n nl su lu ns. split.
  - apply handleGameAction_stacks.
  - apply handleNextSet_stacks.
Qed.

(** C8.  Set advance pushes the snapshot of the state it was called in
    onto the past stack (and empties the future stack), then credits
    the set to the team with the higher score, to nobody on a tie,
    adds one to the set counter, and leaves both scores as they are. *)
Theorem set_advance_credits_the_leader (r : App) :
  let s := handleNextSet r in
  history s = history r ++ [getCurrentState r] /\
  future s = [] /\
  (myScore r > opScore r ->
     mySetWins s = mySetWins r + 1 /\ opSetWins s = opSetWins r) /\
  (opScore r > myScore r ->
     opSetWins s = opSetWins r + 1 /\ mySetWins s = mySetWins r) /\
  (myScore r = opScore r ->
     mySetWins s = mySetWins r /\ opSetWins s = opSetWins r) /\
  currentSet s = currentSet r + 1 /\
  myScore s = myScore r /\
  opScore s = opScore r.
Proof.
  cbv zeta.
  destruct (handleNextSet_stacks r) as [Hh Hf].
  split; [exact Hh|]. split; [exact Hf|].
  unfold handleNextSet.
  destruct (myScore r >? opScore r) eqn:E1;
    destruct (opScore r >? myScore r) eqn:E2;
    rewrite ?Z.gtb_ltb, ?Z.ltb_lt, ?Z.ltb_ge in E1, E2;
    simpl; repeat split; intros; try reflexivity; lia.
Qed.

Lemma set_advance_credits_the_leader_witness :
  mySetWins (handleNextSet Samples.loaded_10_12) = 0 /\
  opSetWins (handleNextSet Samples.loaded_10_12) = 1 /\
  mySetWins (handleNextSet Samples.loaded_tie) = 0 /\
  opSetWins (handleNextSet Samples.loaded_tie) = 0 /\
  currentSet (handleNextSet Samples.loaded_tie) = 2 /\
  myScore (handleNextSet Samples.loaded_tie) = 25 /\
  opScore (handleNextSet Samples.loaded_tie) = 25.
Proof.
  destruct (set_advance_credits_the_leader Samples.loaded_10_12)
    as (_ & _ & _ & Hop & _).
  destruct (set_advance_credits_the_leader Samples.loaded_tie)
    as (_ & _ & _ & _ & Htie & Hset & Hmy & Hopp).
  destruct (Hop ltac:(reflexivity)) as [H1 H2].
  destruct (Htie ltac:(reflexivity)) as [H3 H4].
  repeat split; assumption.
Defined.

End HistorySpec.

(* ================================================================== *)
(** * Properties of scoring, side-out and the ledger entries *)
(* ================================================================== *)

Module ScoringSpec.

Import GameView.

(** C1.  A committed Point adds exactly one to the acting team's score,
    a committed Error exactly one to the opposing team's score, and
    nothing to the other score.  Against the serving team of the state
    the commit was made in: when the team that won the point was not
    serving, it becomes the serving team and its lineup becomes the
    rotation of its previous lineup (the other lineup stays); when it
    was serving, the serving team and both lineups stay. *)
Theorem result_scores_and_side_out
    (r : App) (g : State) k (res : ResultType) (winner : TeamSide) :
  resultCommits g = true ->
  pointWinner (activeSide g) res = Some winner ->
  let s := fst (handleResult r g k res) in
  (res = POINT ->
     scoreOf s (activeSide g) = scoreOf r (activeSide g) + 1 /\
     scoreOf s (other (activeSide g)) = scoreOf r (other (activeSide g))) /\
  (res = ERROR ->
     scoreOf s (other (activeSide g)) = scoreOf r (other (activeSide g)) + 1 /\
     scoreOf s (activeSide g) = scoreOf r (activeSide g)) /\
  (winner <> servingTeam r ->
     servingTeam s = winner /\
     lineupOf s winner = getRotatedLineup (lineupOf r winner) /\
     lineupOf s (other winner) = lineupOf r (other winner)) /\
  (winner = servingTeam r ->
     servingTeam s = servingTeam r /\
     myLineup s = myLineup r /\ opLineup s = opLineup r).
Proof.
  unfold resultCommits, handleResult. cbv zeta.
  destruct (selectedPos g) as [sp|], (selectedAction g) as [sa|];
    try discriminate.
  intros _ Hw.
  destruct res; simpl in Hw; try discriminate; injection Hw as <-;
    unfold sideOut;
    destruct (activeSide g), (servingTeam r) eqn:Est; simpl;
    rewrite ?Est; crush.
Qed.

(** The opponent serves at 10:12, the home team attacks and wins the
    rally. *)
Lemma result_scores_and_side_out_witness :
  let r := Samples.loaded_10_12 in
  let g := Samples.pending me (Pos P4) ATTACK in
  let s := fst (handleResult r g Samples.clock POINT) in
  resultCommits g = true /\
  pointWinner (activeSide g) POINT = Some me /\
  (POINT = POINT ->
     scoreOf s (activeSide g) = scoreOf r (activeSide g) + 1 /\
     scoreOf s (other (activeSide g)) = scoreOf r (other (activeSide g))) /\
  (POINT = ERROR ->
     scoreOf s (other (activeSide g)) = scoreOf r (other (activeSide g)) + 1 /\
     scoreOf s (activeSide g) = scoreOf r (activeSide g)) /\
  (me <> servingTeam r ->
     servingTeam s = me /\
     lineupOf s me = getRotatedLineup (lineupOf r me) /\
     lineupOf s (other me) = lineupOf r (other me)) /\
  (me = servingTeam r ->
     servingTeam s = servingTeam r /\
     myLineup s = myLineup r /\ opLineup s = opLineup r).
Proof.
  cbv zeta. split; [reflexivity|]. split; [reflexivity|].
  apply (result_scores_and_side_out Samples.loaded_10_12
           (Samples.pending me (Pos P4) ATTACK) Samples.clock POINT me);
    reflexivity.
Defined.

(** The second scenario of the specification, computed: at 10:12 with
    the opponent serving, a Point on a home attack gives 11:12, the home
    team serving and the home lineup rotated once. *)
Example side_out_at_10_12 :
  let s := fst (handleResult Samples.loaded_10_12
                  (Samples.pending me (Pos P4) ATTACK) Samples.clock POINT) in
  myScore s = 11 /\ opScore s = 12 /\ servingTeam s = me /\
  myLineup s = mkLineup "2" "3" "4" "5" "6" "1" /\
  opLineup s = Samples.awayLineup.
Proof. vm_compute. repeat split. Qed.

(** The first scenario: the home team serves an ace at 0:0. *)
Example ace_at_0_0 :
  myScore Samples.afterAce = 1 /\ opScore Samples.afterAce = 0 /\
  servingTeam Samples.afterAce = me /\
  myLineup Samples.afterAce = Samples.homeLineup /\
  map (fun l => (action l, result l, playerNumber l,
                 log_myScore l, log_opScore l)) (logs Samples.afterAce)
    = [(SERVE, POINT, "1", 1, 0)].
Proof. vm_compute. repeat split. Qed.

(** ** Manual score adjustment *)

(** What an accepted adjustment commits. *)
Lemma handleScoreAdjust_accepted (r : App) k (isMyTeam : bool) (delta : Z) :
  adjustCommits r isMyTeam delta = true ->
  exists l lu ns,
    handleScoreAdjust r k isMyTeam delta
    = handleGameAction r (Some l)
        (Some (mkScoreUpdate (if isMyTeam then delta else 0)
                             (if negb isMyTeam then delta else 0))) lu ns /\
    (lu, ns) = (if delta >? 0
                then sideOut r (if isMyTeam then me else op)
                else (None, None)) /\
    playerNumber l = "" /\ position l = Pos P1 /\ action l = ATTACK /\
    result l = (if delta >? 0 then POINT else NORMAL) /\
    Types.startCoord l = None /\ Types.endCoord l = None /\
    note l = ("Manual Adjust " ++ (if delta >? 0 then "+" else "")
              ++ toString delta)%string /\
    log_servingTeam l = or_else ns (servingTeam r).
Proof.
  unfold adjustCommits, handleScoreAdjust.
  destruct (_ <? 0); [discriminate|]. intros _.
  destruct (if delta >? 0 then _ else _) as [lu ns].
  do 3 eexists. repeat split.
Qed.

Lemma handleScoreAdjust_rejected (r : App) k (isMyTeam : bool) (delta : Z) :
  adjustCommits r isMyTeam delta = false ->
  handleScoreAdjust r k isMyTeam delta = r.
Proof.
  unfold adjustCommits, handleScoreAdjust.
  destruct (_ <? 0); [reflexivity | discriminate].
Qed.

Lemma handleGameAction_logs (r : App) l su lu ns :
  logs (handleGameAction r (Some l) su lu ns)
  = logs r ++ [with_setNumber l (currentSet r)].
Proof.
  unfold handleGameAction.
  destruct su, lu as [[[] ? []]|], ns; reflexivity.
Qed.

Lemma handleGameAction_scores (r : App) nl u lu ns :
  myScore (handleGameAction r nl (Some u) lu ns) = myScore r + myDelta u /\
  opScore (handleGameAction r nl (Some u) lu ns) = opScore r + opDelta u.
Proof.
  unfold handleGameAction.
  destruct nl, lu as [[[] ? []]|], ns; split; reflexivity.
Qed.

Lemma handleGameAction_no_side_out (r : App) nl su :
  myLineup (handleGameAction r nl su None None) = myLineup r /\
  opLineup (handleGameAction r nl su None None) = opLineup r /\
  servingTeam (handleGameAction r nl su None None) = servingTeam r.
Proof.
  unfold handleGameAction. destruct nl, su; repeat split.
Qed.

(** C5.  A manual adjustment of -1 on a team whose score is 0 returns
    at the guard: the store is exactly the state it was called in (no
    ledger entry, no field changed, stacks untouched).  A manual
    adjustment never takes a non-negative score below zero, and a
    decrement leaves both lineups and the serving team as they were. *)
Theorem manual_decrement_is_guarded (r : App) k (isMyTeam : bool) :
  let target := if isMyTeam then me else op in
  (scoreOf r target = 0 -> handleScoreAdjust r k isMyTeam (-1) = r) /\
  (forall delta, 0 <= myScore r -> 0 <= opScore r ->
     0 <= myScore (handleScoreAdjust r k isMyTeam delta) /\
     0 <= opScore (handleScoreAdjust r k isMyTeam delta)) /\
  (forall delta, delta < 0 ->
     let s := handleScoreAdjust r k isMyTeam delta in
     myLineup s = myLineup r /\ opLineup s = opLineup r /\
     servingTeam s = servingTeam r /\
     (adjustCommits r isMyTeam delta = true ->
        scoreOf s target = scoreOf r target + delta /\
        scoreOf s (other target) = scoreOf r (other target))).
Proof.
  cbv zeta. split; [|split].
  - intros H0. apply handleScoreAdjust_rejected. unfold adjustCommits.
    destruct isMyTeam; simpl in H0; rewrite H0; reflexivity.
  - intros delta Hm Ho.
    destruct (adjustCommits r isMyTeam delta) eqn:E.
    + destruct (handleScoreAdjust_accepted r k isMyTeam delta E)
        as (l & lu & ns & -> & _).
      destruct (handleGameAction_scores r (Some l)
                  (mkScoreUpdate (if isMyTeam then delta else 0)
                                 (if negb isMyTeam then delta else 0)) lu ns)
        as [-> ->].
      unfold adjustCommits in E. apply negb_true_iff, Z.ltb_ge in E.
      destruct isMyTeam; simpl; lia.
    + rewrite (handleScoreAdjust_rejected r k isMyTeam delta E). now split.
  - intros delta Hneg.
    destruct (adjustCommits r isMyTeam delta) eqn:E.
    + destruct (handleScoreAdjust_accepted r k isMyTeam delta E)
        as (l & lu & ns & -> & Hside & _).
      assert (G : (delta >? 0) = false)
        by (rewrite Z.gtb_ltb; apply Z.ltb_ge; lia).
      rewrite G in Hside. injection Hside as -> ->.
      destruct (handleGameAction_no_side_out r (Some l)
                  (Some (mkScoreUpdate (if isMyTeam then delta else 0)
                                       (if negb isMyTeam then delta else 0))))
        as (-> & -> & ->).
      repeat split.
      * destruct isMyTeam; reflexivity.
      * destruct isMyTeam; simpl; lia.
    + rewrite (handleScoreAdjust_rejected r k isMyTeam delta E).
      repeat split. discriminate.
Qed.

Lemma manual_decrement_is_guarded_witness :
  let r := Samples.started me in
  scoreOf r me = 0 /\
  handleScoreAdjust r Samples.clock true (-1) = r.
Proof.
  cbv zeta. split; [reflexivity|].
  apply (manual_decrement_is_guarded (Samples.started me) Samples.clock true).
  reflexivity.
Defined.

(** C6, as the code has it.  An accepted manual adjustment of +1 or -1
    appends exactly one ledger entry.  Its note, [Manual Adjust +1] or
    [Manual Adjust -1], is what marks it as manual; its player number is
    empty and it has no start and no end coordinate.  It is not free of
    an action identity: the entry is filed as an Attack from position 1,
    with result Point for +1 and Normal for -1. *)
Theorem manual_entry_shape (r : App) k (isMyTeam : bool) (delta : Z) :
  delta = 1 \/ delta = -1 ->
  adjustCommits r isMyTeam delta = true ->
  exists l,
    logs (handleScoreAdjust r k isMyTeam delta) = logs r ++ [l] /\
    note l = (if delta =? 1 then "Manual Adjust +1" else "Manual Adjust -1") /\
    playerNumber l = "" /\
    Types.startCoord l = None /\ Types.endCoord l = None /\
    action l = ATTACK /\ position l = Pos P1 /\
    result l = (if delta =? 1 then POINT else NORMAL).
Proof.
  intros Hd E.
  destruct (handleScoreAdjust_accepted r k isMyTeam delta E)
    as (l & lu & ns & -> & _ & Hp & Hpos & Ha & Hr & Hs & He & Hn & _).
  exists (with_setNumber l (currentSet r)).
  rewrite handleGameAction_logs. simpl.
  destruct Hd as [-> | ->]; simpl in *; repeat split; assumption.
Qed.

Lemma manual_entry_shape_witness :
  let r := Samples.started op in
  (1 = 1 \/ 1 = -1) /\
  adjustCommits r true 1 = true /\
  exists l,
    logs (handleScoreAdjust r Samples.clock true 1) = logs r ++ [l] /\
    note l = (if 1 =? 1 then "Manual Adjust +1" else "Manual Adjust -1") /\
    playerNumber l = "" /\
    Types.startCoord l = None /\ Types.endCoord l = None /\
    action l = ATTACK /\ position l = Pos P1 /\
    result l = (if 1 =? 1 then POINT else NORMAL).
Proof.
  cbv zeta. split; [now left|]. split; [reflexivity|].
  apply (manual_entry_shape (Samples.started op) Samples.clock true 1);
    [now left | reflexivity].
Defined.

(** C6 as stated fails: the entry of a manual +1 carries the action
    Attack (and position 1, result Point), and the aggregator counts it
    as an attack and as a kill. *)
Lemma manual_entry_is_filed_as_attack :
  adjustCommits (Samples.started op) true 1 = true /\
  map (fun l => (playerNumber l, position l, action l, result l, note l))
      (logs Samples.afterManualPlus)
    = [("", Pos P1, ATTACK, POINT, "Manual Adjust +1")] /\
  StatsOverlay.attackTotal
    (StatsOverlay.calculateStats (logs Samples.afterManualPlus)) = 1 /\
  StatsOverlay.attackKills
    (StatsOverlay.calculateStats (logs Samples.afterManualPlus)) = 1.
Proof. vm_compute. repeat split. Qed.

(** ** The serving team recorded in an entry *)

(** C9, as the code has it.  The entry of a committed player action
    records the serving team as it is after the commit: the team that
    won the point after a Point or an Error, the team that was serving
    after a Normal result.  It is the serving team of before the commit
    only when no side-out takes place. *)
Theorem entry_records_server_after_commit
    (r : App) (g : State) k (res : ResultType) :
  resultCommits g = true ->
  let s := fst (handleResult r g k res) in
  exists l,
    logs s = logs r ++ [l] /\
    log_servingTeam l = servingTeam s /\
    log_servingTeam l = match pointWinner (activeSide g) res with
                        | Some w => w
                        | None => servingTeam r
                        end.
Proof.
  unfold resultCommits, handleResult. cbv zeta.
  destruct (selectedPos g) as [sp|], (selectedAction g) as [sa|];
    try discriminate.
  intros _.
  destruct res; unfold sideOut;
    destruct (activeSide g), (servingTeam r) eqn:Est; simpl;
    eexists; rewrite ?Est; repeat split.
Qed.

Lemma entry_records_server_after_commit_witness :
  let r := Samples.started op in
  let g := Samples.pending me (Pos P4) ATTACK in
  let s := fst (handleResult r g Samples.clock POINT) in
  resultCommits g = true /\
  exists l,
    logs s = logs r ++ [l] /\
    log_servingTeam l = servingTeam s /\
    log_servingTeam l = match pointWinner (activeSide g) POINT with
                        | Some w => w
                        | None => servingTeam r
                        end.
Proof.
  cbv zeta. split; [reflexivity|].
  apply (entry_records_server_after_commit (Samples.started op)
           (Samples.pending me (Pos P4) ATTACK) Samples.clock POINT).
  reflexivity.
Defined.

(** C9 as stated fails: the opponent is serving when the home attack
    is committed as a Point, and the entry records the home team. *)
Lemma side_out_entry_records_new_server :
  resultCommits (Samples.pending me (Pos P4) ATTACK) = true /\
  servingTeam (Samples.started op) = op /\
  map log_servingTeam (logs Samples.afterSideOut) = [me].
Proof. vm_compute. repeat split. Qed.

End ScoringSpec.

(* ================================================================== *)
(** * Properties of the stats aggregator's team filter *)
(* ================================================================== *)

Module StatsSpec.

Import StatsOverlay.

Lemma logTeam_me (cfg : TeamConfig) (l : LogEntry) :
  logTeam cfg l = me <-> note l = myName cfg.
Proof.
  unfold logTeam. destruct (String.eqb_spec (note l) (myName cfg));
    split; intros H; congruence.
Qed.

Lemma logTeam_op (cfg : TeamConfig) (l : LogEntry) :
  logTeam cfg l = op <-> note l <> myName cfg.
Proof.
  unfold logTeam. destruct (String.eqb_spec (note l) (myName cfg));
    split; intros H; congruence.
Qed.

(** C7, as the code has it.  The aggregator counts a ledger entry
    toward the home team exactly when its note equals the home team's
    display name, and toward the opponent exactly when its note differs
    from the home team's display name; the opponent's display name is
    not consulted.  The note of a committed player action is the acting
    team's display name. *)
Theorem team_filter_splits_on_home_name
    (ledger : list LogEntry) (cfg : TeamConfig) (l : LogEntry) :
  (In l (getTeamLogs ledger cfg me) <-> In l ledger /\ note l = myName cfg) /\
  (In l (getTeamLogs ledger cfg op) <-> In l ledger /\ note l <> myName cfg) /\
  (forall r g k res,
     resultCommits g = true ->
     exists e,
       logs (fst (GameView.handleResult r g k res)) = logs r ++ [e] /\
       note e = match GameView.activeSide g with
                | me => myName (teamConfig r)
                | op => opName (teamConfig r)
                end).
Proof.
  split; [|split].
  - unfold getTeamLogs. rewrite filter_In.
    rewrite <- logTeam_me. destruct (logTeam cfg l); simpl; intuition congruence.
  - unfold getTeamLogs. rewrite filter_In.
    rewrite <- logTeam_op. destruct (logTeam cfg l); simpl; intuition congruence.
  - intros r g k res. unfold resultCommits, GameView.handleResult.
    destruct (GameView.selectedPos g) as [sp|],
             (GameView.selectedAction g) as [sa|]; try discriminate.
    intros _.
    destruct res; try destruct (GameView.sideOut r _) as [lu ns];
      cbn [fst]; rewrite ScoringSpec.handleGameAction_logs;
      eexists; (split; [reflexivity|]);
      destruct (GameView.activeSide g); reflexivity.
Qed.

Lemma team_filter_splits_on_home_name_witness :
  let r := Samples.started me in
  let g := Samples.pending op (Pos P2) BLOCK in
  resultCommits g = true /\
  exists e,
    logs (fst (GameView.handleResult r g Samples.clock ERROR)) = logs r ++ [e] /\
    note e = match GameView.activeSide g with
             | me => myName (teamConfig r)
             | op => opName (teamConfig r)
             end.
Proof.
  cbv zeta. split; [reflexivity|].
  apply (team_filter_splits_on_home_name [] Samples.config
           (with_setNumber
              (mkLog "" 0 0 0 0 "" L SERVE Q_NORMAL NORMAL None None "" me) 0)).
  reflexivity.
Defined.

(** C7 as stated fails: the entry of a manual +1 for the home team has
    the note [Manual Adjust +1], which is not the opponent's display
    name, and the aggregator counts it toward the opponent (as an attack
    kill). *)
Lemma manual_entry_counts_for_opponent :
  map note (logs Samples.afterManualPlus) = ["Manual Adjust +1"] /\
  myName Samples.config = "Home" /\
  opName Samples.config = "Away" /\
  getTeamLogs (logs Samples.afterManualPlus) Samples.config me = [] /\
  getTeamLogs (logs Samples.afterManualPlus) Samples.config op
    = logs Samples.afterManualPlus /\
  totalPoints (calculateStats
    (getTeamLogs (logs Samples.afterManualPlus) Samples.config op)) = 1.
Proof. vm_compute. repeat split. Qed.

End StatsSpec.

(* ================================================================== *)
(** * Properties of the setup screen's jersey inputs *)
(* ================================================================== *)

Module SetupSpec.

Import SetupView.

Lemma keepDigits_digits (value : string) :
  forallb isDigit (list_ascii_of_string (keepDigits value)) = true.
Proof.
  induction value as [|c rest IH]; simpl; [reflexivity|].
  destruct (isDigit c) eqn:E; simpl; [now rewrite E|exact IH].
Qed.

(** [sanitizeInput] returns [null] exactly when the digits of the input
    start with 0. *)
Lemma sanitizeInput_null (value : string) :
  sanitizeInput value = None <-> startsWith0 (keepDigits value) = true.
Proof.
  unfold sanitizeInput.
  destruct (keepDigits value) as [|a [|b [|c rest]]]; simpl.
  - split; discriminate.
  - destruct (Ascii.eqb a "0"); split; congruence.
  - destruct (Ascii.eqb a "0"); split; congruence.
  - destruct (Ascii.eqb a "0"); split; congruence.
Qed.

(** What [sanitizeInput] returns otherwise is a well-formed jersey
    string. *)
Lemma sanitizeInput_ok (value val : string) :
  sanitizeInput value = Some val -> jerseyOk val = true.
Proof.
  unfold sanitizeInput.
  pose proof (keepDigits_digits value) as D.
  destruct (keepDigits value) as [|a [|b [|c rest]]]; simpl in *.
  - intros [= <-]. reflexivity.
  - destruct (Ascii.eqb a "0") eqn:E0; [discriminate|].
    intros [= <-]. simpl. rewrite E0.
    apply andb_prop in D. destruct D as [Da _]. now rewrite Da.
  - destruct (Ascii.eqb a "0") eqn:E0; [discriminate|].
    intros [= <-]. simpl. rewrite E0.
    apply andb_prop in D. destruct D as [Da D].
    apply andb_prop in D. destruct D as [Db _].
    now rewrite Da, Db.
  - destruct (Ascii.eqb a "0") eqn:E0; [discriminate|].
    intros [= <-]. simpl. rewrite E0.
    apply andb_prop in D. destruct D as [Da D].
    apply andb_prop in D. destruct D as [Db _].
    now rewrite Da, Db.
Qed.

Lemma lineup_get_set (l : Lineup) (p : Position) (v : string) :
  lineup_get (lineup_set l p v) p = v.
Proof. destruct p; reflexivity. Qed.

Lemma stored_edit (f : Form) (x : Field) (value : string) :
  stored (edit f x value) x = match sanitizeInput value with
                              | Some val => val
                              | None => stored f x
                              end.
Proof.
  destruct x as [[] pos | []]; simpl;
    unfold handlePlayerChange, handleLiberoChange;
    destruct (sanitizeInput value); simpl;
    rewrite ?lineup_get_set; reflexivity.
Qed.

Lemma edit_dropped (f : Form) (x : Field) (value : string) :
  sanitizeInput value = None -> edit f x value = f.
Proof.
  intros H. destruct x; simpl;
    unfold handlePlayerChange, handleLiberoChange; now rewrite H.
Qed.

(** C10, as the code has it.  An edit whose digits start with 0 is
    dropped: the whole form, and so the stored value, stays as it was,
    well-formed or not.  After any other edit the stored string of the
    edited field is empty or one or two decimal digits not starting with
    0.  Hence a stored string that is well-formed stays well-formed
    under every edit. *)
Theorem setup_edit_sanitizes (f : Form) (x : Field) (value : string) :
  (startsWith0 (keepDigits value) = true -> edit f x value = f) /\
  (startsWith0 (keepDigits value) = false ->
     jerseyOk (stored (edit f x value) x) = true) /\
  (jerseyOk (stored f x) = true ->
     jerseyOk (stored (edit f x value) x) = true).
Proof.
  split; [|split].
  - intros H. now apply edit_dropped, sanitizeInput_null.
  - intros H. rewrite stored_edit.
    destruct (sanitizeInput value) as [val|] eqn:E.
    + now apply (sanitizeInput_ok value).
    + apply sanitizeInput_null in E. congruence.
  - intros H. rewrite stored_edit.
    destruct (sanitizeInput value) as [val|] eqn:E.
    + now apply (sanitizeInput_ok value).
    + exact H.
Qed.

Lemma setup_edit_sanitizes_witness :
  let f := mkForm Samples.homeLineup Samples.awayLineup "99" "88" in
  (startsWith0 (keepDigits "07") = true /\
     edit f (Slot_of true P3) "07" = f) /\
  (startsWith0 (keepDigits "a1b2c3") = false /\
     jerseyOk (stored (edit f (Libero_of false) "a1b2c3") (Libero_of false))
     = true) /\
  (jerseyOk (stored f (Slot_of false P2)) = true /\
     jerseyOk (stored (edit f (Slot_of false P2) "0") (Slot_of false P2))
     = true).
Proof.
  cbv zeta. split; [split|split; split].
  - reflexivity.
  - apply (setup_edit_sanitizes
             (mkForm Samples.homeLineup Samples.awayLineup "99" "88")
             (Slot_of true P3) "07"). reflexivity.
  - reflexivity.
  - apply (setup_edit_sanitizes
             (mkForm Samples.homeLineup Samples.awayLineup "99" "88")
             (Libero_of false) "a1b2c3"). reflexivity.
  - reflexivity.
  - apply (setup_edit_sanitizes
             (mkForm Samples.homeLineup Samples.awayLineup "99" "88")
             (Slot_of false P2) "0"). reflexivity.
Defined.

(** C10 as stated fails: a substitution made during the match stores
    [05] at the home team's position 1; back on the setup screen, typing
    one more 0 into that slot is dropped, and the stored string after
    the edit is still [05]. *)
Lemma dropped_edit_keeps_ill_formed_jersey :
  stored Samples.formAfterSub (Slot_of true P1) = "05" /\
  sanitizeInput "050" = None /\
  edit Samples.formAfterSub (Slot_of true P1) "050" = Samples.formAfterSub /\
  jerseyOk (stored (edit Samples.formAfterSub (Slot_of true P1) "050")
                   (Slot_of true P1)) = false.
Proof. vm_compute. repeat split. Qed.

End SetupSpec.

(* ================================================================== *)
(** * Properties of the court's position points *)
(* ================================================================== *)

Module CourtSpec.

Import QArith.
Import Court.
Local Open Scope Q_scope.

(** X1.  The two teams' points are mirror images: the point of a
    position on one side is the reflection through the centre of the
    court, (9, 4.5), of the point of the same position on the other side,
    for every position, for the libero, and for a serve as well. *)
Theorem centers_are_point_symmetric
    (action : option ActionType) (side : TeamSide) (pos : Slot)
    (ignoreAction : bool) :
  samePoint (getPositionCenter action (other side) pos ignoreAction)
            (mirror (getPositionCenter action side pos ignoreAction)).
Proof.
  destruct action as [[]|], side, pos as [[]|], ignoreAction;
    split; vm_compute; reflexivity.
Qed.

(** X2.  A point is drawn as a serve when the action is Serve and the
    action is not ignored, whatever the position.  Unless it is drawn as
    a serve, the point of a position lies strictly inside the court and
    inside its own team's half; drawn as a serve it lies behind that
    team's end line, at the height of the position's ordinary point. *)
Theorem center_is_in_own_half_or_behind_end_line
    (action : option ActionType) (side : TeamSide) (pos : Slot)
    (ignoreAction : bool) :
  let p := getPositionCenter action side pos ignoreAction in
  (drawnAsServe action ignoreAction = true
   <-> action = Some SERVE /\ ignoreAction = false) /\
  (if drawnAsServe action ignoreAction
   then behindEndLine side p /\ ~ onCourt p
   else onCourt p /\ inHalf side p) /\
  y p == y (getPositionCenter action side pos true).
Proof.
  cbv zeta. split.
  { destruct action as [[]|], ignoreAction; cbn [drawnAsServe negb];
      (split; [intros H; try discriminate H; now split
              | intros [H1 H2];
                first [discriminate H1 | discriminate H2 | reflexivity]]). }
  destruct action as [[]|], side, pos as [[]|], ignoreAction;
    cbn [drawnAsServe negb];
    (split; [| vm_compute; reflexivity]);
    unfold onCourt, inHalf, behindEndLine;
    repeat match goal with
           | |- _ /\ _ => split
           | |- ~ _ =>
               intros (H1 & H2 & _); vm_compute in H1, H2;
               first [discriminate H1 | discriminate H2]
           end;
    vm_compute; reflexivity.
Qed.

(** X3.  Ignoring the action, the six positions of a side have six
    different points, and the libero is drawn at the point of position
    6. *)
Theorem centers_tell_positions_apart
    (action : option ActionType) (side : TeamSide) (p q : Position) :
  samePoint (watermark action side p) (watermark action side q) ->
  p = q /\
  getPositionCenter action side L true = watermark action side P6.
Proof.
  intros [Hx Hy]. split; [|destruct action as [[]|], side; reflexivity].
  destruct action as [[]|], side, p, q; try reflexivity;
    vm_compute in Hx, Hy; first [discriminate Hx | discriminate Hy].
Qed.

Lemma centers_tell_positions_apart_witness :
  samePoint (watermark (Some ATTACK) me P4) (watermark (Some ATTACK) me P4) /\
  P4 = P4 /\
  getPositionCenter (Some ATTACK) me L true = watermark (Some ATTACK) me P6.
Proof.
  split; [split; reflexivity|].
  apply (centers_tell_positions_apart (Some ATTACK) me P4 P4).
  split; reflexivity.
Defined.

End CourtSpec.

(* ================================================================== *)
(** * Properties of the statistics *)
(* ================================================================== *)

Module TallySpec.

Import StatsOverlay.
Import Tally.

Lemma tally_nil (p : LogEntry -> bool) : tally p [] = 0.
Proof. reflexivity. Qed.

Lemma tally_cons (p : LogEntry -> bool) (a : LogEntry) (l : list LogEntry) :
  tally p (a :: l) = (if p a then 1 else 0) + tally p l.
Proof.
  unfold tally. cbn [filter]. destruct (p a); cbn [List.length]; lia.
Qed.

Lemma tally_app (p : LogEntry -> bool) (l1 l2 : list LogEntry) :
  tally p (l1 ++ l2) = tally p l1 + tally p l2.
Proof.
  unfold tally. rewrite filter_app, length_app. lia.
Qed.

Lemma tally_nonneg (p : LogEntry -> bool) (l : list LogEntry) : 0 <= tally p l.
Proof. unfold tally. lia. Qed.

Lemma tally_le (p q : LogEntry -> bool) (l : list LogEntry) :
  (forall a, p a = true -> q a = true) -> tally p l <= tally q l.
Proof.
  intros H. induction l as [|a l IH]; [reflexivity|].
  rewrite !tally_cons. specialize (H a).
  destruct (p a), (q a); try lia; discriminate (H eq_refl).
Qed.

Lemma tally_length (p : LogEntry -> bool) (l : list LogEntry) :
  tally p l <= Z.of_nat (List.length l).
Proof.
  induction l as [|a l IH]; [reflexivity|].
  rewrite tally_cons. simpl List.length. destruct (p a); lia.
Qed.

Lemma tally_filter_split (p q : LogEntry -> bool) (l : list LogEntry) :
  tally p (filter q l) + tally p (filter (fun a => negb (q a)) l) = tally p l.
Proof.
  induction l as [|a l IH]; [reflexivity|].
  simpl filter. rewrite tally_cons.
  destruct (q a); simpl negb; cbv iota; rewrite tally_cons; lia.
Qed.

Lemma tally_filter_le (p q : LogEntry -> bool) (l : list LogEntry) :
  tally p (filter q l) <= tally p l.
Proof.
  pose proof (tally_filter_split p q l).
  pose proof (tally_nonneg p (filter (fun a => negb (q a)) l)). lia.
Qed.

Lemma tally_perm (p : LogEntry -> bool) (l l' : list LogEntry) :
  Permutation.Permutation l l' -> tally p l = tally p l'.
Proof.
  induction 1 as [|a l l' _ IH|a b l|l l' l'' _ IH1 _ IH2];
    rewrite ?tally_cons; lia.
Qed.

(** The loop of [calculateStats], started from any counters, adds to each
    counter the number of entries that match it. *)
Lemma count_loop (l : list LogEntry) (acc : StatSummary) :
  let s := fold_left count l acc in
  attackKills s = attackKills acc + tally (isActionWith ATTACK POINT) l /\
  attackTotal s = attackTotal acc + tally (isAction ATTACK) l /\
  blocks s = blocks acc + tally (isActionWith BLOCK POINT) l /\
  serveAces s = serveAces acc + tally (isActionWith SERVE POINT) l /\
  serveErrors s = serveErrors acc + tally (isActionWith SERVE ERROR) l /\
  digs s = digs acc + tally (isAction DIG) l /\
  totalPoints s = totalPoints acc.
Proof.
  revert acc. induction l as [|a l IH]; intros acc; cbv zeta.
  - simpl. rewrite !tally_nil. repeat split; lia.
  - simpl fold_left. specialize (IH (count acc a)). cbv zeta in IH.
    destruct IH as (H1 & H2 & H3 & H4 & H5 & H6 & H7).
    rewrite H1, H2, H3, H4, H5, H6, H7, !tally_cons.
    unfold count, isAction, isActionWith.
    destruct (action a), (result a); cbn -[Z.add tally]; repeat split; lia.
Qed.

Lemma calculateStats_tallies (l : list LogEntry) :
  calculateStats l =
  mkStats (tally (isActionWith ATTACK POINT) l)
          (tally (isAction ATTACK) l)
          (tally (isActionWith BLOCK POINT) l)
          (tally (isActionWith SERVE POINT) l)
          (tally (isActionWith SERVE ERROR) l)
          (tally (isAction DIG) l)
          (tally (isActionWith ATTACK POINT) l
           + tally (isActionWith BLOCK POINT) l
           + tally (isActionWith SERVE POINT) l).
Proof.
  unfold calculateStats.
  destruct (count_loop l (mkStats 0 0 0 0 0 0 0))
    as (H1 & H2 & H3 & H4 & H5 & H6 & _).
  rewrite H1, H2, H3, H4, H5, H6. reflexivity.
Qed.

(** X4.  Each counter of a summary is the number of ledger entries of
    its kind: attacks, attacks won, blocks won, serves won, serves lost,
    digs; the total is the sum of attacks won, blocks won and serves won.
    Sets and receptions, and whatever ends Normal other than an attack or
    a dig, are counted nowhere. *)
Theorem counters_are_entry_counts (ledger : list LogEntry) :
  let s := calculateStats ledger in
  attackTotal s = tally (isAction ATTACK) ledger /\
  attackKills s = tally (isActionWith ATTACK POINT) ledger /\
  blocks s = tally (isActionWith BLOCK POINT) ledger /\
  serveAces s = tally (isActionWith SERVE POINT) ledger /\
  serveErrors s = tally (isActionWith SERVE ERROR) ledger /\
  digs s = tally (isAction DIG) ledger /\
  totalPoints s = attackKills s + blocks s + serveAces s /\
  calculateStats
    (filter (fun l => isAction SET l || isAction RECEIVE l
                      || (ResultType_eqb (result l) NORMAL
                          && negb (isAction ATTACK l) && negb (isAction DIG l)))
            ledger)
  = mkStats 0 0 0 0 0 0 0.
Proof.
  cbv zeta. rewrite calculateStats_tallies. simpl.
  repeat split.
  rewrite calculateStats_tallies.
  assert (Z : forall p,
             (forall l, p l = true ->
                (isAction SET l || isAction RECEIVE l
                 || (ResultType_eqb (result l) NORMAL
                     && negb (isAction ATTACK l) && negb (isAction DIG l)))
                = false) ->
             tally p (filter (fun l => isAction SET l || isAction RECEIVE l
                      || (ResultType_eqb (result l) NORMAL
                          && negb (isAction ATTACK l) && negb (isAction DIG l)))
                      ledger) = 0).
  { intros p Hp. induction ledger as [|a l IH]; [reflexivity|].
    simpl filter. specialize (Hp a).
    destruct (isAction SET a || isAction RECEIVE a || _) eqn:E; [|exact IH].
    rewrite tally_cons, IH.
    destruct (p a); [discriminate (Hp eq_refl) | reflexivity]. }
  rewrite !Z; [reflexivity | ..];
    intros l; unfold isAction, isActionWith;
    destruct (action l), (result l); simpl; congruence.
Qed.

(** X5.  Every ledger entry is counted for exactly one of the two teams:
    the two team ledgers together are a rearrangement of the ledger, and
    the summary of the whole ledger is, counter by counter, the sum of
    the two team summaries. *)
Theorem team_summaries_add_up (ledger : list LogEntry) (cfg : TeamConfig) :
  Permutation.Permutation ledger
    (getTeamLogs ledger cfg me ++ getTeamLogs ledger cfg op) /\
  calculateStats ledger
  = plus (calculateStats (getTeamLogs ledger cfg me))
         (calculateStats (getTeamLogs ledger cfg op)).
Proof.
  assert (Hop : getTeamLogs ledger cfg op
                = filter (fun l => negb (TeamSide_eqb (logTeam cfg l) me)) ledger).
  { unfold getTeamLogs. apply filter_ext. intros l.
    destruct (logTeam cfg l); reflexivity. }
  split.
  - rewrite Hop. unfold getTeamLogs. clear Hop.
    induction ledger as [|a l IH]; [constructor|].
    simpl. destruct (TeamSide_eqb (logTeam cfg a) me); simpl.
    + apply Permutation.perm_skip, IH.
    + apply Permutation.Permutation_cons_app, IH.
  - rewrite !calculateStats_tallies, Hop. unfold getTeamLogs, plus. simpl.
    rewrite <- !(tally_filter_split _ (fun l => TeamSide_eqb (logTeam cfg l) me) ledger).
    f_equal; lia.
Qed.

(** X6.  A summary does not depend on the order of the entries. *)
Theorem summary_ignores_order (ledger ledger' : list LogEntry) :
  Permutation.Permutation ledger ledger' ->
  calculateStats ledger = calculateStats ledger'.
Proof.
  intros H. rewrite !calculateStats_tallies.
  now rewrite !(tally_perm _ _ _ H).
Qed.

Lemma summary_ignores_order_witness :
  calculateStats (logs Samples.afterSideOut ++ logs Samples.afterAce) =
  calculateStats (logs Samples.afterAce ++ logs Samples.afterSideOut).
Proof.
  apply (summary_ignores_order
           (logs Samples.afterSideOut ++ logs Samples.afterAce)
           (logs Samples.afterAce ++ logs Samples.afterSideOut)).
  apply Permutation.Permutation_app_comm.
Defined.

(** X7.  In a summary no counter is negative, the attacks won are at
    most the attacks, the serves won and lost together at most the
    ledger, and the total is at most the number of entries that ended in
    a Point. *)
Theorem summary_bounds (ledger : list LogEntry) :
  let s := calculateStats ledger in
  0 <= attackKills s <= attackTotal s /\
  0 <= blocks s /\ 0 <= serveAces s /\ 0 <= serveErrors s /\ 0 <= digs s /\
  serveAces s + serveErrors s <= Z.of_nat (List.length ledger) /\
  attackTotal s + digs s <= Z.of_nat (List.length ledger) /\
  0 <= totalPoints s <= tally (fun l => ResultType_eqb (result l) POINT) ledger.
Proof.
  cbv zeta. rewrite calculateStats_tallies. simpl.
  assert (Hkill : tally (isActionWith ATTACK POINT) ledger
                  <= tally (isAction ATTACK) ledger).
  { apply tally_le. intros a. unfold isActionWith, isAction.
    intros H. now apply andb_prop in H. }
  assert (Hserve : tally (isActionWith SERVE POINT) ledger
                   + tally (isActionWith SERVE ERROR) ledger
                   <= Z.of_nat (List.length ledger)).
  { clear. induction ledger as [|a l IH]; [reflexivity|].
    rewrite !tally_cons. cbn [List.length].
    repeat match goal with
           | |- context [tally ?p l] => generalize dependent (tally p l); intros
           end.
    unfold isActionWith.
    destruct (action a), (result a); cbn -[Z.add Z.of_nat]; lia. }
  assert (Hatt : tally (isAction ATTACK) ledger + tally (isAction DIG) ledger
                 <= Z.of_nat (List.length ledger)).
  { clear. induction ledger as [|a l IH]; [reflexivity|].
    rewrite !tally_cons. cbn [List.length].
    repeat match goal with
           | |- context [tally ?p l] => generalize dependent (tally p l); intros
           end.
    unfold isAction.
    destruct (action a); cbn -[Z.add Z.of_nat]; lia. }
  assert (Htot : tally (isActionWith ATTACK POINT) ledger
                 + tally (isActionWith BLOCK POINT) ledger
                 + tally (isActionWith SERVE POINT) ledger
                 <= tally (fun l => ResultType_eqb (result l) POINT) ledger).
  { clear. induction ledger as [|a l IH]; [reflexivity|].
    rewrite !tally_cons.
    repeat match goal with
           | |- context [tally ?p l] => generalize dependent (tally p l); intros
           end.
    unfold isActionWith.
    destruct (action a), (result a); cbn -[Z.add Z.of_nat]; lia. }
  pose proof (tally_nonneg (isActionWith ATTACK POINT) ledger).
  pose proof (tally_nonneg (isActionWith BLOCK POINT) ledger).
  pose proof (tally_nonneg (isActionWith SERVE POINT) ledger).
  pose proof (tally_nonneg (isActionWith SERVE ERROR) ledger).
  pose proof (tally_nonneg (isAction DIG) ledger).
  repeat split; lia.
Qed.

(** X8.  The entries of a player are the entries of the player's team
    that carry the player's jersey number, in ledger order, and no
    counter of a player exceeds the counter of the team. *)
Theorem player_summary_within_team
    (ledger : list LogEntry) (cfg : TeamConfig) (n : string) (side : TeamSide) :
  let team := calculateStats (getTeamLogs ledger cfg side) in
  let player := calculateStats (getPlayerLogs ledger cfg n side) in
  getPlayerLogs ledger cfg n side
  = filter (fun l => TeamSide_eqb (logTeam cfg l) side
                     && String.eqb (playerNumber l) n) ledger /\
  attackKills player <= attackKills team /\
  attackTotal player <= attackTotal team /\
  blocks player <= blocks team /\
  serveAces player <= serveAces team /\
  serveErrors player <= serveErrors team /\
  digs player <= digs team /\
  totalPoints player <= totalPoints team.
Proof.
  cbv zeta. split.
  - unfold getPlayerLogs, getTeamLogs.
    induction ledger as [|a l IH]; [reflexivity|].
    simpl. destruct (TeamSide_eqb (logTeam cfg a) side); simpl;
      [destruct (String.eqb (playerNumber a) n)|]; now rewrite IH.
  - rewrite !calculateStats_tallies. unfold getPlayerLogs. simpl.
    pose proof (fun p => tally_filter_le p
                  (fun l => String.eqb (playerNumber l) n)
                  (getTeamLogs ledger cfg side)) as H.
    pose proof (H (isActionWith ATTACK POINT)).
    pose proof (H (isAction ATTACK)).
    pose proof (H (isActionWith BLOCK POINT)).
    pose proof (H (isActionWith SERVE POINT)).
    pose proof (H (isActionWith SERVE ERROR)).
    pose proof (H (isAction DIG)).
    repeat split; lia.
Qed.

End TallySpec.

(* ================================================================== *)
(** * Properties of the interaction flow and of the commits *)
(* ================================================================== *)

Module FlowSpec.

Import GameView.

(** What [handleGameAction] does to each field, by its arguments. *)
Lemma handleGameAction_fields (r : App) nl su lu ns :
  let s := handleGameAction r nl su lu ns in
  logs s = match nl with
           | Some l => logs r ++ [with_setNumber l (currentSet r)]
           | None => logs r
           end /\
  myScore s = match su with Some u => myScore r + myDelta u | None => myScore r end /\
  opScore s = match su with Some u => opScore r + opDelta u | None => opScore r end /\
  myLineup s = match lu with
               | Some u => if isMyTeam u then newLineup u else myLineup r
               | None => myLineup r
               end /\
  opLineup s = match lu with
               | Some u => if isMyTeam u then opLineup r else newLineup u
               | None => opLineup r
               end /\
  myLibero s = match lu with
               | Some u => if isMyTeam u then or_else (newLibero u) (myLibero r)
                           else myLibero r
               | None => myLibero r
               end /\
  opLibero s = match lu with
               | Some u => if isMyTeam u then opLibero r
                           else or_else (newLibero u) (opLibero r)
               | None => opLibero r
               end /\
  servingTeam s = or_else ns (servingTeam r) /\
  currentSet s = currentSet r /\ mySetWins s = mySetWins r /\
  opSetWins s = opSetWins r /\ myRoles s = myRoles r /\ opRoles s = opRoles r /\
  view s = view r /\ isGameActive s = isGameActive r /\
  setupKey s = setupKey r /\ teamConfig s = teamConfig r.
Proof.
  cbv zeta. unfold handleGameAction.
  destruct nl, su, lu as [[[] ? []]|], ns; repeat split.
Qed.

(** X9.  A flow carried through (a player is selected, an action is
    chosen, a trajectory is drawn) always commits when a result is
    picked, whatever state the component was in before: exactly one entry
    is appended, carrying the selected position, the jersey at that
    position in the acting team's lineup (the team's libero for the
    libero slot), the chosen action, the result and both trajectory
    points; and the component is back in IDLE with nothing selected. *)
Theorem a_completed_flow_commits
    (r : App) (g0 : State) (side : TeamSide) (pos : Slot) (act : ActionType)
    (start end_ : Coordinate) (k : Clock) (res : ResultType) :
  let g := handleDrawingComplete
             (handleActionSelect (handlePlayerSelect g0 side pos) act)
             start end_ in
  let s := fst (handleResult r g k res) in
  let g' := snd (handleResult r g k res) in
  state g = RESULT_PENDING /\
  resultCommits g = true /\
  (exists l,
     logs s = logs r ++ [l] /\
     position l = pos /\
     playerNumber l = match pos with
                      | Pos p => lineup_get (lineupOf r side) p
                      | L => match side with
                             | me => myLibero r
                             | op => opLibero r
                             end
                      end /\
     action l = act /\ result l = res /\
     Types.startCoord l = Some start /\ Types.endCoord l = Some end_ /\
     id l = toString (now_id k) /\ timestamp l = now_timestamp k) /\
  state g' = IDLE /\ selectedPos g' = None /\ selectedAction g' = None /\
  startCoord g' = None /\ endCoord g' = None /\ scoreAdjTarget g' = None /\
  activeSide g' = side.
Proof.
  cbv zeta. unfold handleDrawingComplete, handleActionSelect,
    handlePlayerSelect, resultCommits, handleResult. cbn -[handleGameAction sideOut].
  split; [reflexivity|]. split; [reflexivity|].
  destruct res; try destruct (sideOut r _) as [lu ns]; cbn [fst snd];
    (split; [|repeat split]);
    match goal with
    | |- context [handleGameAction r ?nl ?su ?lu ?ns] =>
        destruct (handleGameAction_fields r nl su lu ns) as (-> & _)
    end;
    eexists; (split; [reflexivity|]);
    destruct side, pos; repeat split.
Qed.

(** X10.  The entry of a committed player action records the score as
    the board shows it after the commit, and the number of the current
    set.  A Normal result still appends its entry and pushes the
    snapshot, and changes nothing else: scores, lineups, liberos and the
    serving team stay. *)
Theorem committed_entry_shows_the_resulting_score
    (r : App) (g : State) (k : Clock) (res : ResultType) :
  resultCommits g = true ->
  let s := fst (handleResult r g k res) in
  (exists l,
     logs s = logs r ++ [l] /\
     log_myScore l = myScore s /\ log_opScore l = opScore s /\
     setNumber l = currentSet s) /\
  (res = NORMAL ->
     myScore s = myScore r /\ opScore s = opScore r /\
     myLineup s = myLineup r /\ opLineup s = opLineup r /\
     myLibero s = myLibero r /\ opLibero s = opLibero r /\
     servingTeam s = servingTeam r /\
     history s = history r ++ [getCurrentState r]).
Proof.
  unfold resultCommits, handleResult. cbv zeta.
  destruct (selectedPos g) as [sp|], (selectedAction g) as [sa|];
    try discriminate.
  intros _.
  destruct res; try destruct (sideOut r _) as [lu ns]; cbn [fst];
    match goal with
    | |- context [handleGameAction r ?nl ?su ?lu ?ns] =>
        destruct (handleGameAction_fields r nl su lu ns)
          as (-> & -> & -> & -> & -> & -> & -> & -> & -> & _);
        destruct (HistorySpec.handleGameAction_stacks r nl su lu ns) as (-> & _)
    end;
    (split; [eexists; repeat split | intros E; try discriminate E; repeat split]).
Qed.

Lemma committed_entry_shows_the_resulting_score_witness :
  let r := Samples.loaded_10_12 in
  let g := Samples.pending op (Pos P2) BLOCK in
  let s := fst (handleResult r g Samples.clock NORMAL) in
  resultCommits g = true /\
  (exists l,
     logs s = logs r ++ [l] /\
     log_myScore l = myScore s /\ log_opScore l = opScore s /\
     setNumber l = currentSet s) /\
  (NORMAL = NORMAL ->
     myScore s = myScore r /\ opScore s = opScore r /\
     myLineup s = myLineup r /\ opLineup s = opLineup r /\
     myLibero s = myLibero r /\ opLibero s = opLibero r /\
     servingTeam s = servingTeam r /\
     history s = history r ++ [getCurrentState r]).
Proof.
  cbv zeta. split; [reflexivity|].
  apply (committed_entry_shows_the_resulting_score Samples.loaded_10_12
           (Samples.pending op (Pos P2) BLOCK) Samples.clock NORMAL).
  reflexivity.
Defined.

(** X11.  A manual adjustment that is accepted appends one entry that
    records the score as the board shows it after the adjustment, and the
    current set; only the adjusted team's score moves, by the amount
    asked for. *)
Theorem manual_entry_shows_the_resulting_score
    (r : App) (k : Clock) (isMyTeam : bool) (delta : Z) :
  adjustCommits r isMyTeam delta = true ->
  let s := handleScoreAdjust r k isMyTeam delta in
  let team := if isMyTeam then me else op in
  (exists l,
     logs s = logs r ++ [l] /\
     log_myScore l = myScore s /\ log_opScore l = opScore s /\
     setNumber l = currentSet s) /\
  scoreOf s team = scoreOf r team + delta /\
  scoreOf s (other team) = scoreOf r (other team) /\
  0 <= scoreOf r team + delta.
Proof.
  unfold adjustCommits, handleScoreAdjust. cbv zeta.
  destruct (_ <? 0) eqn:E; [discriminate|]. intros _.
  apply Z.ltb_ge in E.
  destruct (if delta >? 0 then _ else _) as [lu ns].
  match goal with
  | |- context [handleGameAction r ?nl ?su ?lu ?ns] =>
      destruct (handleGameAction_fields r nl su lu ns)
        as (Hl & Hm & Ho & _ & _ & _ & _ & _ & Hs & _)
  end.
  cbv zeta in Hl, Hm, Ho, Hs. rewrite Hl, Hs.
  split; [eexists; split; [reflexivity|]|];
    destruct isMyTeam; cbn -[Z.add] in *; rewrite ?Hm, ?Ho;
    repeat split; lia.
Qed.

Lemma manual_entry_shows_the_resulting_score_witness :
  let r := Samples.loaded_10_12 in
  let s := handleScoreAdjust r Samples.clock false (-1) in
  adjustCommits r false (-1) = true /\
  (exists l,
     logs s = logs r ++ [l] /\
     log_myScore l = myScore s /\ log_opScore l = opScore s /\
     setNumber l = currentSet s) /\
  scoreOf s op = scoreOf r op + -1 /\
  scoreOf s (other op) = scoreOf r (other op) /\
  0 <= scoreOf r op + -1.
Proof.
  cbv zeta. split; [reflexivity|].
  apply (manual_entry_shows_the_resulting_score Samples.loaded_10_12
           Samples.clock false (-1)).
  reflexivity.
Defined.

(** X12.  On the board a manual +1 is a won rally: for the team that
    wins the point of a committed Point or Error, a manual +1 made in the
    same state leaves the same scores, lineups, liberos and serving team,
    and the same stacks; the two differ in the ledger entry only, each
    appending one entry to the ledger as it was. *)
Theorem manual_plus_one_is_a_won_rally
    (r : App) (g : State) (k k' : Clock) (res : ResultType) (winner : TeamSide) :
  resultCommits g = true ->
  pointWinner (activeSide g) res = Some winner ->
  0 <= scoreOf r winner ->
  let a := handleScoreAdjust r k (TeamSide_eqb winner me) 1 in
  let b := fst (handleResult r g k' res) in
  myScore a = myScore b /\ opScore a = opScore b /\
  myLineup a = myLineup b /\ opLineup a = opLineup b /\
  myLibero a = myLibero b /\ opLibero a = opLibero b /\
  servingTeam a = servingTeam b /\
  history a = history b /\ future a = future b /\
  List.length (logs a) = List.length (logs b) /\
  exists la lb, logs a = logs r ++ [la] /\ logs b = logs r ++ [lb].
Proof.
  unfold resultCommits, handleResult, handleScoreAdjust. cbv zeta.
  destruct (selectedPos g) as [sp|], (selectedAction g) as [sa|];
    try discriminate.
  intros _ Hw Hs.
  assert (E : ((if TeamSide_eqb winner me then myScore r else opScore r) + 1 <? 0)
              = false)
    by (apply Z.ltb_ge; destruct winner; simpl in *; lia).
  rewrite E. change (1 >? 0) with true. cbv iota.
  destruct res; simpl in Hw; try discriminate; injection Hw as <-;
    destruct (activeSide g); cbn [TeamSide_eqb other negb];
    destruct (sideOut r _) as [lu ns]; cbn [fst];
    repeat match goal with
    | |- context [handleGameAction r ?nl ?su ?lu ?ns] =>
        destruct (handleGameAction_fields r nl su lu ns)
          as (-> & -> & -> & -> & -> & -> & -> & -> & _);
        destruct (HistorySpec.handleGameAction_stacks r nl su lu ns) as (-> & ->)
    end;
    conj_split; rewrite ?length_app; try reflexivity;
    do 2 eexists; split; reflexivity.
Qed.

Lemma manual_plus_one_is_a_won_rally_witness :
  let r := Samples.loaded_10_12 in
  let g := Samples.pending op (Pos P1) SERVE in
  let a := handleScoreAdjust r Samples.clock (TeamSide_eqb me me) 1 in
  let b := fst (handleResult r g Samples.clock ERROR) in
  resultCommits g = true /\
  pointWinner (activeSide g) ERROR = Some me /\
  0 <= scoreOf r me /\
  myScore a = myScore b /\ opScore a = opScore b /\
  myLineup a = myLineup b /\ opLineup a = opLineup b /\
  myLibero a = myLibero b /\ opLibero a = opLibero b /\
  servingTeam a = servingTeam b /\
  history a = history b /\ future a = future b /\
  List.length (logs a) = List.length (logs b) /\
  exists la lb, logs a = logs r ++ [la] /\ logs b = logs r ++ [lb].
Proof.
  cbv zeta. split; [reflexivity|]. split; [reflexivity|].
  split; [discriminate|].
  apply (manual_plus_one_is_a_won_rally Samples.loaded_10_12
           (Samples.pending op (Pos P1) SERVE) Samples.clock Samples.clock
           ERROR me); [reflexivity | reflexivity | discriminate].
Defined.

(** One rotation-only action, on the current state and on the length of
    the past stack. *)
Lemma handleRotation_once (x : App) (isMyTeam : bool) :
  getCurrentState (handleRotation x isMyTeam)
  = Vocabulary.rotateSnapshot isMyTeam (getCurrentState x) /\
  List.length (history (handleRotation x isMyTeam))
  = S (List.length (history x)).
Proof.
  unfold handleRotation.
  destruct (HistorySpec.handleGameAction_stacks x None None
              (Some (mkLineupUpdate isMyTeam
                 (getRotatedLineup (if isMyTeam then myLineup x else opLineup x))
                 None)) None) as (-> & _).
  rewrite length_app. simpl List.length.
  split; [destruct isMyTeam; reflexivity | lia].
Qed.

Lemma handleRotation_iter (r : App) (isMyTeam : bool) (n : nat) :
  let s := Nat.iter n (fun x => handleRotation x isMyTeam) r in
  getCurrentState s
  = Nat.iter n (Vocabulary.rotateSnapshot isMyTeam) (getCurrentState r) /\
  List.length (history s) = (List.length (history r) + n)%nat.
Proof.
  cbv zeta. induction n as [|n [IHc IHl]].
  - split; [reflexivity | cbn [Nat.iter nat_rect]; lia].
  - rewrite !Nat.iter_succ.
    destruct (handleRotation_once
                (Nat.iter n (fun x => handleRotation x isMyTeam) r) isMyTeam)
      as [-> ->].
    rewrite IHc, IHl. split; [reflexivity | lia].
Qed.

Lemma rotateSnapshot_six (isMyTeam : bool) (g : GameState) :
  Nat.iter 6 (Vocabulary.rotateSnapshot isMyTeam) g = g.
Proof.
  assert (Six : forall l, rotate_n 6 l = l).
  { intros l. apply RotationSpec.lineup_ext. intros p.
    rewrite RotationSpec.rotate_n_get. destruct p; reflexivity. }
  destruct g as [cs mw ow ml ol mr or_ mb ob ms os st lg].
  pose proof (Six ml) as Hm. pose proof (Six ol) as Ho.
  cbv [rotate_n] in Hm, Ho.
  destruct isMyTeam;
    cbv [Nat.iter nat_rect Vocabulary.rotateSnapshot gs_currentSet gs_mySetWins
         gs_opSetWins gs_myLineup gs_opLineup gs_myRoles gs_opRoles gs_myLibero
         gs_opLibero gs_myScore gs_opScore gs_servingTeam gs_logs];
    rewrite ?Hm, ?Ho; reflexivity.
Qed.

(** X13.  A rotation-only action replaces the chosen team's lineup by
    its rotation and pushes the snapshot; it adds no ledger entry and
    leaves the scores, the serving team, the liberos, the other lineup
    and both role mappings as they were (roles stay with the positions,
    not with the players).  Six of them in a row bring the current state
    back, with six more snapshots on the past stack. *)
Theorem rotation_only_moves_one_lineup (r : App) (isMyTeam : bool) :
  let team := if isMyTeam then me else op in
  let s := handleRotation r isMyTeam in
  let s6 := Nat.iter 6 (fun x => handleRotation x isMyTeam) r in
  lineupOf s team = getRotatedLineup (lineupOf r team) /\
  lineupOf s (other team) = lineupOf r (other team) /\
  logs s = logs r /\ myScore s = myScore r /\ opScore s = opScore r /\
  servingTeam s = servingTeam r /\
  myLibero s = myLibero r /\ opLibero s = opLibero r /\
  myRoles s = myRoles r /\ opRoles s = opRoles r /\
  history s = history r ++ [getCurrentState r] /\
  getCurrentState s6 = getCurrentState r /\
  List.length (history s6) = (List.length (history r) + 6)%nat.
Proof.
  cbv zeta.
  destruct (handleRotation_iter r isMyTeam 6) as [Hc Hl]. cbv zeta in Hc, Hl.
  rewrite Hc, Hl, rotateSnapshot_six.
  unfold handleRotation.
  destruct isMyTeam; cbn [lineupOf other];
    match goal with
    | |- context [handleGameAction r ?nl ?su ?lu ?ns] =>
        destruct (handleGameAction_fields r nl su lu ns)
          as (-> & -> & -> & -> & -> & -> & -> & -> & _ & _ & _ & -> & -> & _);
        destruct (HistorySpec.handleGameAction_stacks r nl su lu ns) as (-> & _)
    end;
    repeat split.
Qed.

(** X14.  A confirmed substitution writes the typed number, as typed,
    into the one slot it targets (a position of the lineup, or the
    libero) and pushes the snapshot; every other slot of that lineup, the
    other lineup, the other libero, the scores, the serving team and the
    ledger stay.  With no target, or with a blank number (one that
    [trim] leaves empty: empty, or white space only, the no-break and
    ideographic spaces included), nothing is written; the dialog is
    closed either way. *)
Theorem substitution_writes_one_slot (r : App) (g : State) :
  let s := fst (handleSubConfirm r g) in
  let g' := snd (handleSubConfirm r g) in
  showSubModal g' = false /\
  logs s = logs r /\ myScore s = myScore r /\ opScore s = opScore r /\
  servingTeam s = servingTeam r /\
  match subTarget g with
  | Some (side, pos) =>
      if blank (subNumber g) then s = r
      else
        subTarget g' = None /\
        history s = history r ++ [getCurrentState r] /\
        lineupOf s (other side) = lineupOf r (other side) /\
        match pos with
        | Pos p =>
            lineup_get (lineupOf s side) p = subNumber g /\
            (forall q, q <> p ->
               lineup_get (lineupOf s side) q = lineup_get (lineupOf r side) q) /\
            myLibero s = myLibero r /\ opLibero s = opLibero r
        | L =>
            lineupOf s side = lineupOf r side /\
            (match side with me => myLibero s | op => opLibero s end)
            = subNumber g /\
            (match side with me => opLibero s | op => myLibero s end)
            = (match side with me => opLibero r | op => myLibero r end)
        end
  | None => s = r
  end.
Proof.
  cbv zeta. unfold handleSubConfirm.
  destruct (subTarget g) as [[side pos]|]; [|repeat split].
  destruct (blank (subNumber g)); [repeat split|].
  destruct pos as [p|]; cbn [fst snd];
    match goal with
    | |- context [handleGameAction r ?nl ?su ?lu ?ns] =>
        destruct (handleGameAction_fields r nl su lu ns)
          as (-> & -> & -> & Hml & Hol & Hmb & Hob & -> & _);
        destruct (HistorySpec.handleGameAction_stacks r nl su lu ns) as (-> & _)
    end; cbv zeta in *; cbn [isMyTeam newLineup newLibero or_else] in *;
    destruct side; cbn [TeamSide_eqb lineupOf other] in *;
    rewrite ?Hml, ?Hol, ?Hmb, ?Hob;
    repeat match goal with |- _ /\ _ => split end;
    try reflexivity;
    try (destruct p; reflexivity);
    (intros q Hq; destruct p, q; try reflexivity; congruence).
Qed.

End FlowSpec.

(* ================================================================== *)
(** * More properties of the history manager *)
(* ================================================================== *)

Module UnwindSpec.

Import Vocabulary.

(** Undo on a past stack whose last snapshot carries its roles. *)
Lemma handleUndo_exact (S : App) (h : list GameState) (p : GameState) :
  history S = h ++ [p] -> hasRoles p = true ->
  getCurrentState (handleUndo S) = p /\
  history (handleUndo S) = h /\
  future (handleUndo S) = getCurrentState S :: future S /\
  handleRedo (handleUndo S) = S.
Proof.
  intros E Hp.
  pose proof (HistorySpec.handleUndo_snoc S h p E) as HU.
  set (mid := setHistory (fun prev => removelast prev)
                (setFuture (fun prev => getCurrentState S :: prev) S)) in HU.
  destruct (HistorySpec.restore_stacks p mid) as (Rh & Rf & Rv & Ra & Rk & Rc).
  assert (Hcur : getCurrentState (handleUndo S) = p)
    by (rewrite HU; now apply HistorySpec.getCurrentState_restore).
  assert (Hhist : history (handleUndo S) = h)
    by (rewrite HU, Rh; simpl; rewrite E; apply removelast_last).
  assert (Hfut : future (handleUndo S) = getCurrentState S :: future S)
    by (rewrite HU, Rf; reflexivity).
  repeat split; try assumption.
  rewrite (HistorySpec.handleRedo_cons _ _ _ Hfut).
  apply HistorySpec.restore_getCurrentState; simpl.
  - now rewrite HU, Rv.
  - now rewrite HU, Ra.
  - now rewrite HU, Rk.
  - now rewrite HU, Rc.
  - now rewrite Hhist, Hcur, E.
  - now rewrite Hfut.
Qed.

(** Redo on a future stack whose first snapshot carries its roles. *)
Lemma handleRedo_exact (S : App) (n : GameState) (f : list GameState) :
  future S = n :: f -> hasRoles n = true ->
  getCurrentState (handleRedo S) = n /\
  future (handleRedo S) = f /\
  history (handleRedo S) = history S ++ [getCurrentState S] /\
  handleUndo (handleRedo S) = S.
Proof.
  intros E Hn.
  pose proof (HistorySpec.handleRedo_cons S n f E) as HR.
  set (mid := setFuture (fun prev => tl prev)
                (setHistory (fun prev => prev ++ [getCurrentState S]) S)) in HR.
  destruct (HistorySpec.restore_stacks n mid) as (Rh & Rf & Rv & Ra & Rk & Rc).
  assert (Hcur : getCurrentState (handleRedo S) = n)
    by (rewrite HR; now apply HistorySpec.getCurrentState_restore).
  assert (Hfut : future (handleRedo S) = f)
    by (rewrite HR, Rf; simpl; now rewrite E).
  assert (Hhist : history (handleRedo S) = history S ++ [getCurrentState S])
    by (rewrite HR, Rh; reflexivity).
  repeat split; try assumption.
  rewrite (HistorySpec.handleUndo_snoc _ _ _ Hhist).
  apply HistorySpec.restore_getCurrentState; simpl.
  - now rewrite HR, Rv.
  - now rewrite HR, Ra.
  - now rewrite HR, Rk.
  - now rewrite HR, Rc.
  - rewrite Hhist. apply removelast_last.
  - now rewrite Hfut, Hcur, E.
Qed.

(** X15.  In every state of the application whose future stack is not
    empty, redo makes the first future snapshot the current state, pops
    it and pushes the state before the redo onto the past stack; an undo
    right after it gives back the state the redo was made in, stacks
    included. *)
Theorem redo_restores_and_undo_returns (S : App) :
  reachable S -> future S <> [] ->
  exists n f,
    future S = n :: f /\
    getCurrentState (handleRedo S) = n /\
    future (handleRedo S) = f /\
    history (handleRedo S) = history S ++ [getCurrentState S] /\
    handleUndo (handleRedo S) = S.
Proof.
  intros Hreach Hfut.
  destruct (future S) as [|n f] eqn:E; [contradiction|].
  exists n, f. split; [reflexivity|].
  destruct (HistorySpec.reachable_stacksOk S Hreach) as [_ Hf].
  rewrite E in Hf. simpl in Hf. apply andb_prop in Hf. destruct Hf as [Hn _].
  now apply handleRedo_exact.
Qed.

Lemma redo_restores_and_undo_returns_witness :
  let S := step Samples.afterSideOut Undo in
  reachable S /\ future S <> [] /\
  exists n f,
    future S = n :: f /\
    getCurrentState (handleRedo S) = n /\
    future (handleRedo S) = f /\
    history (handleRedo S) = history S ++ [getCurrentState S] /\
    handleUndo (handleRedo S) = S.
Proof.
  cbv zeta.
  assert (R : reachable (step Samples.afterSideOut Undo)).
  { apply reach_step.
    apply HistorySpec.reachable_handleResult, HistorySpec.reachable_started. }
  assert (F : future (step Samples.afterSideOut Undo) <> [])
    by (vm_compute; discriminate).
  split; [exact R|]. split; [exact F|].
  exact (redo_restores_and_undo_returns (step Samples.afterSideOut Undo) R F).
Defined.

Lemma commit_pushes (r : App) (e : Event) :
  commits e = true -> history (step r e) = history r ++ [getCurrentState r].
Proof.
  destruct e; try discriminate; intros _; cbn [step].
  - apply HistorySpec.handleNextSet_stacks.
  - apply HistorySpec.handleGameAction_stacks.
Qed.

(** X16.  Any run of commits can be unwound and replayed: after as many
    undos as there were commits the current state and the past stack are
    those the run started from, and as many redos after that give back
    the state the run ended in, stacks included. *)
Theorem commits_unwind_and_replay (r : App) (events : list Event) :
  forallb commits events = true ->
  let n := List.length events in
  let s := runEvents r events in
  getCurrentState (undos n s) = getCurrentState r /\
  history (undos n s) = history r /\
  redos n (undos n s) = s.
Proof.
  cbv zeta. revert r.
  induction events as [|e es IH]; intros r Hc.
  - repeat split.
  - simpl in Hc. apply andb_prop in Hc. destruct Hc as [He Hes].
    unfold runEvents in *. cbn [fold_left List.length undos].
    destruct (IH (step r e) Hes) as (Hcur & Hhist & Hredo).
    rewrite (commit_pushes r e He) in Hhist.
    destruct (handleUndo_exact _ _ _ Hhist eq_refl) as (U1 & U2 & _ & U4).
    repeat split; try assumption.
    cbn [redos]. now rewrite U4.
Qed.

Lemma commits_unwind_and_replay_witness :
  let r := Samples.started op in
  let events := [GameAction None (Some (mkScoreUpdate 1 0)) None (Some me);
                 NextSet;
                 GameAction None None
                   (Some (mkLineupUpdate false Samples.homeLineup (Some "7")))
                   None] in
  let n := List.length events in
  let s := runEvents r events in
  forallb commits events = true /\
  getCurrentState (undos n s) = getCurrentState r /\
  history (undos n s) = history r /\
  redos n (undos n s) = s.
Proof.
  cbv zeta. split; [reflexivity|].
  apply (commits_unwind_and_replay (Samples.started op)
           [GameAction None (Some (mkScoreUpdate 1 0)) None (Some me);
            NextSet;
            GameAction None None
              (Some (mkLineupUpdate false Samples.homeLineup (Some "7")))
              None]).
  reflexivity.
Defined.

End UnwindSpec.

(* ================================================================== *)
(** * Properties of the setup screen's validation and start *)
(* ================================================================== *)

Module ValidationSpec.

Import Setup.

(** ** Sets as insertion-ordered lists *)

Lemma has_In (s : list string) (n : string) : has s n = true <-> In n s.
Proof.
  unfold has. rewrite existsb_exists. split.
  - intros (x & Hx & E). apply String.eqb_eq in E. now subst.
  - intros H. exists n. split; [assumption | apply String.eqb_refl].
Qed.

Lemma has_false (s : list string) (n : string) : has s n = false <-> ~ In n s.
Proof.
  rewrite <- has_In. destruct (has s n); split; congruence.
Qed.

Lemma add_In (s : list string) (n x : string) :
  In x (add s n) <-> In x s \/ x = n.
Proof.
  unfold add. destruct (has s n) eqn:E.
  - apply has_In in E. split; [now left | intros [H | ->]; assumption].
  - rewrite in_app_iff. simpl. intuition congruence.
Qed.

Lemma add_NoDup (s : list string) (n : string) : NoDup s -> NoDup (add s n).
Proof.
  intros H. unfold add. destruct (has s n) eqn:E; [assumption|].
  apply has_false in E.
  apply NoDup_app; [assumption | repeat constructor; intros [] |].
  intros x Hx [<- | []]. contradiction.
Qed.

(** ** The walk of [getDuplicates] *)

Lemma visit_walk (nums seen dups : list string) :
  let out := fold_left visit nums (seen, dups) in
  (forall x, In x (fst out) <-> In x seen \/ In x nums) /\
  (forall x, In x (snd out) <->
             In x dups \/ (In x seen /\ In x nums)
             \/ (2 <= count_occ string_dec nums x)%nat) /\
  (NoDup dups -> NoDup (snd out)).
Proof.
  cbv zeta. revert seen dups.
  induction nums as [|n rest IH]; intros seen dups.
  - simpl. repeat split; try tauto.
    intros [H | [[_ []] | H]]; [assumption | lia].
  - cbn [fold_left visit].
    destruct (IH (add seen n) (if has seen n then add dups n else dups))
      as (Hs & Hd & Hn).
    split; [|split].
    + intros x. rewrite Hs, add_In. simpl. intuition.
    + intros x. rewrite Hd. clear Hs Hd Hn IH.
      rewrite add_In. simpl count_occ.
      pose proof (count_occ_In string_dec rest x) as Hin.
      destruct (string_dec n x) as [-> | Hne].
      * destruct Hin as [Hin1 Hin2].
        destruct (has seen x) eqn:E.
        -- apply has_In in E. rewrite add_In. simpl.
           split; intros _; [right; left; split; [exact E | now left]
                            | left; now right].
        -- apply has_false in E. simpl. split.
           ++ intros [H | [[_ H] | H]]; [now left | right; right | right; right].
              ** apply Hin1 in H. lia.
              ** lia.
           ++ intros [H | [[H _] | H]]; [now left | contradiction |].
              right; left. split; [now right | apply Hin2; lia].
      * assert (x <> n) by congruence.
        destruct (has seen n); rewrite ?add_In; simpl; intuition.
    + intros H. apply Hn. destruct (has seen n); [now apply add_NoDup | assumption].
Qed.

Lemma getDuplicates_spec (lineup : Lineup) (libero : string) :
  let nums := numbers lineup libero in
  let d := getDuplicates lineup libero in
  (forall n, In n d <-> (2 <= count_occ string_dec nums n)%nat) /\
  NoDup d /\
  (d = [] <-> NoDup nums).
Proof.
  cbv zeta. unfold getDuplicates.
  destruct (visit_walk (numbers lineup libero) [] []) as (_ & Hd & Hn).
  cbv zeta in Hd, Hn.
  remember (snd (fold_left visit (numbers lineup libero) ([], []))) as d eqn:Ed.
  clear Ed.
  assert (Hd' : forall n, In n d
                 <-> (2 <= count_occ string_dec (numbers lineup libero) n)%nat).
  { intros n. rewrite Hd. simpl. intuition. }
  split; [exact Hd'|]. split; [apply Hn; constructor|].
  rewrite (NoDup_count_occ string_dec). split.
  - intros E x.
    destruct (le_lt_dec 2 (count_occ string_dec (numbers lineup libero) x))
      as [H | H]; [|lia].
    apply Hd' in H. rewrite E in H. destruct H.
  - intros H. destruct d as [|x d']; [reflexivity|].
    assert (Hx : In x (x :: d')) by now left.
    apply Hd' in Hx. specialize (H x). lia.
Qed.

Lemma numbers_In (lineup : Lineup) (libero n : string) :
  In n (numbers lineup libero)
  <-> ((exists p, lineup_get lineup p = n) \/ n = libero) /\ filled n = true.
Proof.
  unfold numbers. rewrite filter_In, in_app_iff. unfold values. simpl.
  split.
  - intros [[H | [H | []]] F]; (split; [|assumption]); [left | now right].
    destruct H as [H | [H | [H | [H | [H | [H | []]]]]]];
      [exists P1 | exists P2 | exists P3 | exists P4 | exists P5 | exists P6];
      exact H.
  - intros [[[p H] | H] F]; (split; [|assumption]).
    + left. destruct p; simpl in H; tauto.
    + right. left. congruence.
Qed.

(** X17.  The duplicates reported for a team are exactly the numbers
    that occur at least twice among the team's non-blank numbers (the six
    slots and the libero), each reported once; the report is empty
    exactly when those numbers are pairwise different. *)
Theorem duplicates_are_the_repeated_numbers
    (lineup : Lineup) (libero : string) :
  let nums := numbers lineup libero in
  let d := getDuplicates lineup libero in
  (forall n, In n nums
     <-> ((exists p, lineup_get lineup p = n) \/ n = libero)
         /\ filled n = true) /\
  (forall n, In n d <-> (2 <= count_occ string_dec nums n)%nat) /\
  NoDup d /\
  (d = [] <-> NoDup nums).
Proof.
  cbv zeta. split; [intros n; apply numbers_In | apply getDuplicates_spec].
Qed.

(** ** The validation message *)

Lemma hasEmptyFields_complete (l : Lineup) :
  hasEmptyFields l = false <-> complete l.
Proof.
  unfold hasEmptyFields, complete, filled, values. simpl.
  rewrite !orb_false_iff. split.
  - intros (H1 & H2 & H3 & H4 & H5 & H6 & _) p.
    destruct p; simpl; apply negb_true_iff; assumption.
  - intros H.
    pose proof (H P1) as H1. pose proof (H P2) as H2. pose proof (H P3) as H3.
    pose proof (H P4) as H4. pose proof (H P5) as H5. pose proof (H P6) as H6.
    simpl in *. rewrite negb_true_iff in *. repeat split; assumption.
Qed.

Lemma errorMsg_None (s : State) :
  errorMsg s = None <->
  complete (SetupView.myLineup (form s)) /\
  complete (SetupView.opLineup (form s)) /\
  NoDup (numbers (SetupView.myLineup (form s)) (SetupView.myLibero (form s))) /\
  NoDup (numbers (SetupView.opLineup (form s)) (SetupView.opLibero (form s))).
Proof.
  unfold errorMsg. cbv zeta.
  rewrite <- !hasEmptyFields_complete.
  destruct (getDuplicates_spec (SetupView.myLineup (form s))
              (SetupView.myLibero (form s))) as (_ & _ & <-).
  destruct (getDuplicates_spec (SetupView.opLineup (form s))
              (SetupView.opLibero (form s))) as (_ & _ & <-).
  destruct (hasEmptyFields _); [split; [discriminate | intros [E _]; discriminate E]|].
  destruct (hasEmptyFields _);
    [split; [discriminate | intros (_ & E & _); discriminate E]|].
  destruct (getDuplicates _ _) as [|a t];
    [|split; [discriminate | intros (_ & _ & E & _); discriminate E]].
  destruct (getDuplicates _ _) as [|b u];
    [|split; [discriminate | intros (_ & _ & _ & E); discriminate E]].
  simpl. tauto.
Qed.

(** X18.  The setup screen shows no validation message exactly when, in
    both lineups, no slot is blank and, in both teams, the non-blank
    numbers of the six slots and the libero are pairwise different.  An
    empty libero is accepted. *)
Theorem start_is_open_for_complete_distinct_lineups (s : State) :
  errorMsg s = None <->
  complete (SetupView.myLineup (form s)) /\
  complete (SetupView.opLineup (form s)) /\
  NoDup (numbers (SetupView.myLineup (form s)) (SetupView.myLibero (form s))) /\
  NoDup (numbers (SetupView.opLineup (form s)) (SetupView.opLibero (form s))).
Proof. apply errorMsg_None. Qed.

End ValidationSpec.

(* ================================================================== *)
(** * Properties of trimming, of the match start and of the jersey input *)
(* ================================================================== *)

Module StartSpec.

Import Setup.

(** ** Trimming *)

Lemma trimStart_step (s : string) :
  Text.trimStart s
  = match Text.skipSpace s with
    | Some rest => Text.trimStart rest
    | None => s
    end.
Proof.
  destruct s as [|c [|d [|e rest]]]; try reflexivity;
    destruct (Text.isSpace c) eqn:E1;
    try (cbn [Text.trimStart Text.skipSpace]; rewrite !E1; reflexivity);
    destruct (Text.isSpace2 c d) eqn:E2;
    try (cbn [Text.trimStart Text.skipSpace]; rewrite !E1, !E2; reflexivity);
    destruct (Text.isSpace3 c d e) eqn:E3;
    cbn [Text.trimStart Text.skipSpace]; rewrite !E1, !E2, !E3; reflexivity.
Qed.

Lemma skipSpace_shorter (s rest : string) :
  Text.skipSpace s = Some rest ->
  (String.length rest < String.length s)%nat.
Proof.
  destruct s as [|c [|d [|e r]]]; cbn [Text.skipSpace];
    repeat match goal with
           | |- context [if ?b then _ else _] => destruct b
           end;
    intros H; inversion H; subst; cbn [String.length]; lia.
Qed.

Lemma skipSpace_app (s rest t : string) :
  Text.skipSpace s = Some rest ->
  Text.skipSpace (s ++ t) = Some (rest ++ t)%string.
Proof.
  destruct s as [|c [|d [|e r]]]; cbn [Text.skipSpace String.append];
    repeat match goal with
           | |- context [if ?b then _ else _] => destruct b
           end;
    intros H; inversion H; subst; reflexivity.
Qed.

(** White space in front of a text is removed with the white space the
    text starts with. *)
Lemma trimStart_app_blank (a b : string) :
  Text.trimStart a = EmptyString ->
  Text.trimStart (a ++ b) = Text.trimStart b.
Proof.
  remember (String.length a) as n eqn:En.
  revert a En. induction n as [n IH] using lt_wf_ind. intros a En Ha.
  rewrite trimStart_step in Ha.
  destruct (Text.skipSpace a) as [rest|] eqn:E.
  - rewrite (trimStart_step (a ++ b)), (skipSpace_app _ _ b E).
    apply (IH (String.length rest)); [|reflexivity|exact Ha].
    subst n. now apply skipSpace_shorter.
  - subst a. reflexivity.
Qed.

(** What [trimStart] returns starts with no white space. *)
Lemma trimStart_fixed (s : string) :
  Text.skipSpace (Text.trimStart s) = None.
Proof.
  remember (String.length s) as n eqn:En.
  revert s En. induction n as [n IH] using lt_wf_ind. intros s En.
  rewrite trimStart_step.
  destruct (Text.skipSpace s) as [rest|] eqn:E; [|exact E].
  apply (IH (String.length rest)); [|reflexivity].
  subst n. now apply skipSpace_shorter.
Qed.

Lemma trimStart_idem (s : string) :
  Text.trimStart (Text.trimStart s) = Text.trimStart s.
Proof.
  rewrite (trimStart_step (Text.trimStart s)). now rewrite trimStart_fixed.
Qed.

(** [trimEnd] removes a run of white space from the end. *)
Lemma trimEnd_split (s : string) :
  exists w, s = (Text.trimEnd s ++ w)%string /\ Text.trimStart w = EmptyString.
Proof.
  induction s as [|c rest (w & Hw & Hb)]; [now exists EmptyString|].
  cbn [Text.trimEnd].
  destruct (Text.trimStart (String c rest)) eqn:E.
  - exists (String c rest). now split.
  - exists w. split; [|exact Hb]. cbn [String.append]. now rewrite <- Hw.
Qed.

Lemma trimEnd_idem (s : string) : Text.trimEnd (Text.trimEnd s) = Text.trimEnd s.
Proof.
  induction s as [|c rest IH]; [reflexivity|].
  cbn [Text.trimEnd].
  destruct (Text.trimStart (String c rest)) eqn:E; [reflexivity|].
  cbn [Text.trimEnd].
  destruct (Text.trimStart (String c (Text.trimEnd rest))) eqn:E'.
  - destruct (trimEnd_split rest) as (w & Hw & Hb).
    assert (H : Text.trimStart (String c rest) = EmptyString).
    { rewrite Hw.
      change (String c (Text.trimEnd rest ++ w))
        with (String c (Text.trimEnd rest) ++ w)%string.
      now rewrite (trimStart_app_blank _ w E'). }
    rewrite H in E. discriminate.
  - now rewrite IH.
Qed.

(** Cutting the end of a text leaves its start as it was. *)
Lemma trimStart_trimEnd (s : string) :
  Text.skipSpace s = None -> Text.trimStart (Text.trimEnd s) = Text.trimEnd s.
Proof.
  intros Hs. rewrite trimStart_step.
  destruct (Text.skipSpace (Text.trimEnd s)) as [rest|] eqn:E; [|reflexivity].
  destruct (trimEnd_split s) as (w & Hw & _).
  apply (skipSpace_app _ _ w) in E. rewrite <- Hw, Hs in E. discriminate.
Qed.

Lemma trim_idem (s : string) : Text.trim (Text.trim s) = Text.trim s.
Proof.
  unfold Text.trim.
  rewrite (trimStart_trimEnd _ (trimStart_fixed s)). apply trimEnd_idem.
Qed.

Lemma trimEnd_empty (s : string) :
  Text.trimEnd s = EmptyString -> Text.trimStart s = EmptyString.
Proof.
  destruct s as [|c rest]; [reflexivity|]. cbn [Text.trimEnd].
  destruct (Text.trimStart (String c rest)); [reflexivity | discriminate].
Qed.

(** [!s.trim()] holds exactly of the texts that are white space only. *)
Lemma trim_blank (s : string) :
  GameView.blank s = true <-> Text.trimStart s = EmptyString.
Proof.
  unfold GameView.blank, Text.trim. split.
  - destruct (Text.trimEnd (Text.trimStart s)) eqn:E; [|discriminate].
    intros _. apply trimEnd_empty in E. now rewrite trimStart_idem in E.
  - intros ->. reflexivity.
Qed.

(** The trimmed text has no white space at either end. *)
Lemma trim_ends (s : string) :
  Text.trimStart (Text.trim s) = Text.trim s /\
  Text.trimEnd (Text.trim s) = Text.trim s.
Proof.
  unfold Text.trim. split.
  - apply trimStart_trimEnd, trimStart_fixed.
  - apply trimEnd_idem.
Qed.

(** The no-break space U+00A0 and the ideographic space U+3000 are
    trimmed as the ASCII space is. *)
Lemma trim_unicode_space :
  Text.trim (Samples.noBreakSpace ++ " A B" ++ Samples.ideographicSpace)%string
  = "A B" /\
  GameView.blank (Samples.ideographicSpace ++ Samples.noBreakSpace)%string = true /\
  GameView.blank "7" = false.
Proof. repeat split; vm_compute; reflexivity. Qed.

(** ** The match start *)

(** X19.  With a validation message on screen [startGame] does nothing.
    Otherwise it starts the match: the store takes the form's lineups and
    liberos, which are complete and free of duplicates, the scores are
    zero, both stacks are empty and the chosen team serves; each team
    name is the trimmed text of its field, or the default name when that
    is empty, so a stored name is never empty and never has white space
    at either end.  The set counter, the set wins and the ledger are not
    touched by the start. *)
Theorem start_takes_a_valid_form (r : App) (s : State) :
  let a := startGame r s in
  match errorMsg s with
  | Some _ => a = r
  | None =>
      view a = game /\ isGameActive a = true /\
      myScore a = 0 /\ opScore a = 0 /\
      history a = [] /\ future a = [] /\
      servingTeam a = firstServe s /\
      myLineup a = SetupView.myLineup (form s) /\
      opLineup a = SetupView.opLineup (form s) /\
      myLibero a = SetupView.myLibero (form s) /\
      opLibero a = SetupView.opLibero (form s) /\
      complete (myLineup a) /\ complete (opLineup a) /\
      NoDup (numbers (myLineup a) (myLibero a)) /\
      NoDup (numbers (opLineup a) (opLibero a)) /\
      Types.myName (teamConfig a)
        = Text.str_or (Text.trim (myName s)) "我方球隊" /\
      Types.opName (teamConfig a)
        = Text.str_or (Text.trim (opName s)) "對手球隊" /\
      Types.myName (teamConfig a) <> "" /\
      Types.opName (teamConfig a) <> "" /\
      Text.trim (Types.myName (teamConfig a)) = Types.myName (teamConfig a) /\
      Text.trim (Types.opName (teamConfig a)) = Types.opName (teamConfig a) /\
      currentSet a = currentSet r /\ mySetWins a = mySetWins r /\
      opSetWins a = opSetWins r /\ logs a = logs r
  end.
Proof.
  cbv zeta. unfold startGame.
  destruct (errorMsg s) eqn:E; [reflexivity|].
  apply ValidationSpec.errorMsg_None in E. destruct E as (C1 & C2 & N1 & N2).
  assert (Name : forall x d,
            d <> EmptyString -> Text.trim d = d ->
            Text.str_or (Text.trim x) d <> EmptyString /\
            Text.trim (Text.str_or (Text.trim x) d) = Text.str_or (Text.trim x) d).
  { intros x d Hd Ht. unfold Text.str_or.
    destruct (Text.trim x) eqn:Ex; [now split|].
    split; [discriminate|]. rewrite <- Ex. apply trim_idem. }
  destruct (Name (myName s) "我方球隊") as [M1 M2];
    [discriminate | reflexivity |].
  destruct (Name (opName s) "對手球隊") as [O1 O2];
    [discriminate | reflexivity |].
  cbn -[Text.trim Text.str_or numbers].
  repeat match goal with |- _ /\ _ => split end;
    try reflexivity; assumption.
Qed.

(** ** The jersey input *)

Lemma keepDigits_app (a b : string) :
  SetupView.keepDigits (a ++ b)
  = (SetupView.keepDigits a ++ SetupView.keepDigits b)%string.
Proof.
  induction a as [|c rest IH]; [reflexivity|].
  simpl. destruct (SetupView.isDigit c); simpl; now rewrite IH.
Qed.

Lemma jerseyOk_accepted (s : string) :
  SetupView.jerseyOk s = true -> SetupView.sanitizeInput s = Some s.
Proof.
  unfold SetupView.sanitizeInput.
  destruct s as [|a [|b [|c rest]]]; simpl; try discriminate.
  - reflexivity.
  - intros H. apply andb_prop in H. destruct H as [Da Na].
    rewrite Da. simpl. apply negb_true_iff in Na. now rewrite Na.
  - intros H. apply andb_prop in H. destruct H as [H Db].
    apply andb_prop in H. destruct H as [Da Na].
    rewrite Da, Db. simpl. apply negb_true_iff in Na. now rewrite Na.
Qed.

(** X20.  The strings the jersey input accepts unchanged are exactly the
    well-formed ones: empty, or one or two digits not starting with 0.
    Whatever it returns it accepts unchanged when typed again, and text
    typed after a two-digit number is ignored. *)
Theorem jersey_input_fixes_the_well_formed (s : string) :
  (SetupView.sanitizeInput s = Some s <-> SetupView.jerseyOk s = true) /\
  (forall value, SetupView.sanitizeInput value = Some s ->
                 SetupView.sanitizeInput s = Some s) /\
  (SetupView.jerseyOk s = true -> String.length s = 2%nat ->
   forall more, SetupView.sanitizeInput (s ++ more) = Some s).
Proof.
  split; [|split].
  - split; [apply SetupSpec.sanitizeInput_ok | apply jerseyOk_accepted].
  - intros value H. apply jerseyOk_accepted.
    now apply (SetupSpec.sanitizeInput_ok value).
  - intros Hok Hlen more.
    destruct s as [|a [|b [|c rest]]]; try discriminate Hlen.
    simpl in Hok. apply andb_prop in Hok. destruct Hok as [H Db].
    apply andb_prop in H. destruct H as [Da Na]. apply negb_true_iff in Na.
    unfold SetupView.sanitizeInput.
    change (String a (String b "") ++ more)%string
      with (String a (String b more)).
    cbn [SetupView.keepDigits]. rewrite Da, Db.
    destruct (SetupView.keepDigits more) as [|c rest]; simpl; now rewrite Na.
Qed.

Lemma jersey_input_fixes_the_well_formed_witness :
  (SetupView.sanitizeInput "12" = Some "12" <-> SetupView.jerseyOk "12" = true) /\
  (SetupView.sanitizeInput "1x2y3" = Some "12" /\
   SetupView.sanitizeInput "12" = Some "12") /\
  (SetupView.jerseyOk "12" = true /\ String.length "12" = 2%nat /\
   SetupView.sanitizeInput ("12" ++ "7") = Some "12").
Proof.
  destruct (jersey_input_fixes_the_well_formed "12") as (H1 & H2 & H3).
  split; [exact H1|]. split; [split; [reflexivity|]|].
  - apply (H2 "1x2y3"). reflexivity.
  - split; [reflexivity|]. split; [reflexivity|].
    apply H3; reflexivity.
Defined.

(** X21.  An edit of one slot or libero field never changes what is
    stored in another field of the form. *)
Theorem an_edit_touches_one_field
    (f : SetupView.Form) (x y : SetupView.Field) (value : string) :
  x <> y ->
  SetupView.stored (SetupView.edit f x value) y = SetupView.stored f y.
Proof.
  intros Hxy.
  destruct x as [bx px | bx], y as [by_ py | by_]; simpl;
    unfold SetupView.handlePlayerChange, SetupView.handleLiberoChange;
    destruct (SetupView.sanitizeInput value); try reflexivity;
    destruct bx, by_; simpl; try reflexivity;
    try (destruct px); try (destruct py); try reflexivity; congruence.
Qed.

Lemma an_edit_touches_one_field_witness :
  SetupView.Slot_of true P1 <> SetupView.Libero_of true /\
  SetupView.stored
    (SetupView.edit Samples.formAfterSub (SetupView.Slot_of true P1) "9")
    (SetupView.Libero_of true)
  = SetupView.stored Samples.formAfterSub (SetupView.Libero_of true).
Proof.
  split; [discriminate|].
  apply (an_edit_touches_one_field Samples.formAfterSub
           (SetupView.Slot_of true P1) (SetupView.Libero_of true) "9").
  discriminate.
Defined.

End StartSpec.

(* ================================================================== *)
(** * Properties of saving and loading *)
(* ================================================================== *)

Module PersistSpec.

Import Persist.

Lemma getItem_setItem_same (st : Storage) (key : string) (v : SavedGame) :
  getItem (setItem st key v) key = Some v.
Proof.
  induction st as [|[k w] rest IH]; simpl.
  - now rewrite String.eqb_refl.
  - destruct (String.eqb k key) eqn:E; simpl; rewrite E; [reflexivity | exact IH].
Qed.

Lemma getItem_setItem_other (st : Storage) (key k' : string) (v : SavedGame) :
  k' <> key -> getItem (setItem st key v) k' = getItem st k'.
Proof.
  intros Hne. induction st as [|[k w] rest IH]; simpl.
  - destruct (String.eqb_spec key k'); [congruence | reflexivity].
  - destruct (String.eqb_spec k key) as [-> | Hk]; simpl.
    + destruct (String.eqb_spec key k'); [congruence | reflexivity].
    + destruct (String.eqb k k'); [reflexivity | exact IH].
Qed.

Lemma setItem_keys (st : Storage) (key : string) (v : SavedGame) :
  In key (map fst (setItem st key v)) /\
  (forall k, In k (map fst st) -> In k (map fst (setItem st key v))).
Proof.
  induction st as [|[k w] rest [IH1 IH2]]; simpl.
  - split; [now left | intros k []].
  - destruct (String.eqb_spec k key) as [-> | Hk]; simpl.
    + split; [now left | tauto].
    + split; [now right|]. intros k0 [H | H]; [now left | right; now apply IH2].
Qed.

Lemma getItem_of_key (st : Storage) (key : string) :
  In key (map fst st) -> exists v, getItem st key = Some v.
Proof.
  induction st as [|[k w] rest IH]; simpl; [intros []|].
  intros [-> | H].
  - rewrite String.eqb_refl. now exists w.
  - destruct (String.eqb k key); [now exists w | now apply IH].
Qed.

Lemma prefix_split (p s : string) :
  String.prefix p s = true -> s = (p ++ Text.drop (String.length p) s)%string.
Proof.
  revert s. induction p as [|a p IH]; intros s; [reflexivity|].
  destruct s as [|b s]; simpl; [discriminate|].
  destruct (ascii_dec a b) as [-> | _]; [|discriminate].
  intros H. f_equal. now apply IH.
Qed.

Lemma prefix_app (p n : string) : String.prefix p (p ++ n) = true.
Proof.
  induction p as [|a p IH]; [now destruct n|].
  simpl. destruct (ascii_dec a a); [exact IH | congruence].
Qed.

Lemma drop_app (p n : string) : Text.drop (String.length p) (p ++ n) = n.
Proof. induction p as [|a p IH]; [now destruct n | exact IH]. Qed.

Lemma removeFirst_of_prefix (p s : string) :
  String.prefix p s = true -> s = (p ++ Text.removeFirst p s)%string.
Proof.
  intros H. destruct s as [|c rest]; cbn [Text.removeFirst];
    rewrite H; now apply prefix_split.
Qed.

Lemma removeFirst_app (p n : string) : Text.removeFirst p (p ++ n) = n.
Proof.
  destruct (p ++ n)%string as [|c rest] eqn:E; cbn [Text.removeFirst];
    rewrite <- E, prefix_app; apply drop_app.
Qed.

Lemma state_of_saveObject (r : App) (now : Z) :
  state (saveObject r now) = getCurrentState r /\
  config (saveObject r now) = teamConfig r.
Proof. split; reflexivity. Qed.

Lemma handleLoadGame_of_snapshot (r' r : App) (c : TeamConfig) :
  currentSet r <> 0 ->
  let a := handleLoadGame r' (getCurrentState r) c in
  getCurrentState a = getCurrentState r /\ teamConfig a = c /\
  history a = [] /\ future a = [] /\ isGameActive a = true /\
  view a = view r' /\ setupKey a = setupKey r'.
Proof.
  intros H. cbv zeta. unfold handleLoadGame, getCurrentState, num_or. cbn.
  destruct (Z.eqb_spec (currentSet r) 0) as [E | _]; [contradiction|].
  destruct (mySetWins r =? 0) eqn:Em; [apply Z.eqb_eq in Em|];
    (destruct (opSetWins r =? 0) eqn:Eo; [apply Z.eqb_eq in Eo|]);
    rewrite ?Em, ?Eo; repeat split.
Qed.

(** X22.  A match saved under a name loads back from the key made of
    the save prefix and the trimmed name: the current state and the team
    configuration are those that were saved, both stacks are empty and
    the match is active, whatever state the load is made in.  The save
    leaves the other files as they are, a save that fails leaves the
    storage as it is, and loading a key that is not stored leaves the
    store as it is.  (The saved set counter must not be 0, which the
    loader replaces by 1.) *)
Theorem a_saved_match_loads_back
    (r r' : App) (saveFileName : string) (now : Z) (st : Storage) :
  currentSet r <> 0 ->
  let key := (SAVE_PREFIX ++ Text.trim saveFileName)%string in
  let st' := handleConfirmSave r saveFileName now true st in
  let a := handleLoadFile r' st' key in
  getCurrentState a = getCurrentState r /\ teamConfig a = teamConfig r /\
  history a = [] /\ future a = [] /\ isGameActive a = true /\
  view a = view r' /\
  (forall k, k <> key -> getItem st' k = getItem st k) /\
  handleConfirmSave r saveFileName now false st = st /\
  (forall k, getItem st k = None -> handleLoadFile r' st k = r').
Proof.
  intros H. cbv zeta. unfold handleConfirmSave, handleLoadFile.
  rewrite getItem_setItem_same.
  destruct (state_of_saveObject r now) as [-> ->].
  destruct (handleLoadGame_of_snapshot r' r (teamConfig r) H)
    as (H1 & H2 & H3 & H4 & H5 & H6 & _).
  repeat split; try assumption.
  - intros k Hk. now apply getItem_setItem_other.
  - intros k Hk. now rewrite Hk.
Qed.

Lemma a_saved_match_loads_back_witness :
  let r := Samples.afterSideOut in
  let r' := Samples.started me in
  let key := (SAVE_PREFIX ++ Text.trim " final ")%string in
  let st' := handleConfirmSave r " final " 1700000000000 true [] in
  let a := handleLoadFile r' st' key in
  currentSet r <> 0 /\
  getCurrentState a = getCurrentState r /\ teamConfig a = teamConfig r /\
  history a = [] /\ future a = [] /\ isGameActive a = true /\
  view a = view r' /\
  (forall k, k <> key -> getItem st' k = getItem [] k) /\
  handleConfirmSave r " final " 1700000000000 false [] = [] /\
  (forall k, getItem [] k = None -> handleLoadFile r' [] k = r').
Proof.
  cbv zeta. split; [vm_compute; discriminate|].
  apply (a_saved_match_loads_back Samples.afterSideOut (Samples.started me)
           " final " 1700000000000 []).
  vm_compute. discriminate.
Defined.

(** X23.  Every file of the load list has a key that is the save prefix
    followed by the listed name, and its key is stored, so choosing it
    loads a match; a match that was just saved is listed under its
    trimmed name, and so is every file that was listed before. *)
Theorem the_load_list_names_the_saved_files
    (r : App) (saveFileName : string) (now : Z) (st : Storage) :
  let st' := handleConfirmSave r saveFileName now true st in
  (forall key name, In (key, name) (handleLoadList st) ->
     key = (SAVE_PREFIX ++ name)%string /\
     exists saved, getItem st key = Some saved) /\
  In ((SAVE_PREFIX ++ Text.trim saveFileName)%string, Text.trim saveFileName)
     (handleLoadList st') /\
  (forall key name, In (key, name) (handleLoadList st) ->
     In (key, name) (handleLoadList st')).
Proof.
  cbv zeta.
  assert (Listed : forall s key name,
            In (key, name) (handleLoadList s) <->
            In key (map fst s) /\ String.prefix SAVE_PREFIX key = true /\
            name = Text.removeFirst SAVE_PREFIX key).
  { intros s key name. unfold handleLoadList.
    rewrite in_map_iff. split.
    - intros ([k v] & E & Hin). apply filter_In in Hin. destruct Hin as [Hin Hp].
      simpl in *. injection E as <- <-.
      repeat split; [|exact Hp]. apply in_map_iff. now exists (k, v).
    - intros (Hin & Hp & ->). apply in_map_iff in Hin.
      destruct Hin as ([k v] & <- & Hin). exists (k, v).
      split; [reflexivity|]. apply filter_In. now split. }
  split; [|split].
  - intros key name H. apply (proj1 (Listed _ _ _)) in H.
    destruct H as (Hin & Hp & ->).
    split; [now apply removeFirst_of_prefix | now apply getItem_of_key].
  - apply (proj2 (Listed _ _ _)). unfold handleConfirmSave.
    split; [apply (proj1 (setItem_keys _ _ _))|].
    split; [apply prefix_app | symmetry; apply removeFirst_app].
  - intros key name H. apply (proj1 (Listed _ _ _)) in H.
    apply (proj2 (Listed _ _ _)).
    destruct H as (Hin & Hp & Hn). split; [|split; assumption].
    unfold handleConfirmSave. now apply (proj2 (setItem_keys _ _ _)).
Qed.

End PersistSpec.

(* ================================================================== *)
(** * What holds in every state the user can reach *)
(* ================================================================== *)

Module SessionSpec.

Import Session.

(** The counters and the ledger of a store are consistent. *)
Lemma sound_current (r : App) :
  sound (getCurrentState r) <->
  0 <= myScore r /\ 0 <= opScore r /\ 1 <= currentSet r /\
  0 <= mySetWins r /\ 0 <= opSetWins r /\
  mySetWins r + opSetWins r <= currentSet r - 1 /\
  match lastEntry (logs r) with
  | Some l => log_myScore l = myScore r /\ log_opScore l = opScore r
  | None => myScore r = 0 /\ opScore r = 0
  end /\
  Forall (fun l => setNumber l <= currentSet r) (logs r).
Proof. unfold sound, boardMatches. simpl. tauto. Qed.

Lemma lastEntry_snoc (ledger : list LogEntry) (l : LogEntry) :
  lastEntry (ledger ++ [l]) = Some l.
Proof.
  unfold lastEntry. rewrite length_app. simpl.
  replace (List.length ledger + 1 - 1)%nat with (List.length ledger + 0)%nat by lia.
  rewrite nth_error_app2 by lia.
  replace (List.length ledger + 0 - List.length ledger)%nat with 0%nat by lia.
  reflexivity.
Qed.

(** A commit keeps a store consistent when its deltas keep the scores
    from going below zero and its entry, if any, records the resulting
    score; without an entry the scores must stay. *)
Lemma sound_commit (r : App) nl su lu ns :
  sound (getCurrentState r) ->
  match su with
  | Some u => 0 <= myScore r + myDelta u /\ 0 <= opScore r + opDelta u
  | None => True
  end ->
  match nl with
  | Some l =>
      log_myScore l = match su with
                      | Some u => myScore r + myDelta u
                      | None => myScore r
                      end /\
      log_opScore l = match su with
                      | Some u => opScore r + opDelta u
                      | None => opScore r
                      end
  | None => su = None
  end ->
  sound (getCurrentState (handleGameAction r nl su lu ns)).
Proof.
  rewrite !sound_current.
  intros (Hm & Ho & Hs & Hmw & How & Hw & Hb & Hf) Hsu Hnl.
  destruct (FlowSpec.handleGameAction_fields r nl su lu ns)
    as (-> & -> & -> & _ & _ & _ & _ & _ & -> & -> & -> & _).
  destruct nl as [l|].
  - rewrite lastEntry_snoc. destruct Hnl as [Hl1 Hl2].
    destruct su as [u|]; (repeat split; try tauto; try assumption);
      apply Forall_app; (split; [assumption|]);
      constructor; [simpl; lia | constructor | simpl; lia | constructor].
  - subst su. conj_split; assumption.
Qed.

Lemma sound_handleResult (r : App) (g : GameView.State) k res :
  sound (getCurrentState r) ->
  sound (getCurrentState (fst (GameView.handleResult r g k res))).
Proof.
  intros H. pose proof H as H0. apply sound_current in H0.
  destruct H0 as (Hm & Ho & _).
  unfold GameView.handleResult.
  destruct (GameView.selectedPos g), (GameView.selectedAction g); try exact H.
  destruct res; try destruct (GameView.sideOut r _) as [lu ns]; cbn [fst];
    apply sound_commit; try exact H; try exact I; cbn [myDelta opDelta];
    try (split; reflexivity);
    destruct (TeamSide_eqb (GameView.activeSide g) me); simpl; split; lia.
Qed.

Lemma sound_handleScoreAdjust (r : App) k (isMyTeam : bool) (delta : Z) :
  sound (getCurrentState r) ->
  sound (getCurrentState (GameView.handleScoreAdjust r k isMyTeam delta)).
Proof.
  intros H. pose proof H as H0. apply sound_current in H0.
  destruct H0 as (Hm & Ho & _).
  unfold GameView.handleScoreAdjust.
  destruct (_ <? 0) eqn:E; [exact H|]. apply Z.ltb_ge in E.
  destruct (if delta >? 0 then _ else _) as [lu ns].
  apply sound_commit; try exact H; cbn [myDelta opDelta log_myScore log_opScore];
    destruct isMyTeam; simpl in *; split; lia.
Qed.

Lemma sound_handleRotation (r : App) (isMyTeam : bool) :
  sound (getCurrentState r) ->
  sound (getCurrentState (GameView.handleRotation r isMyTeam)).
Proof.
  intros H. unfold GameView.handleRotation.
  apply sound_commit; [exact H | exact I | reflexivity].
Qed.

Lemma sound_handleSubConfirm (r : App) (g : GameView.State) :
  sound (getCurrentState r) ->
  sound (getCurrentState (fst (GameView.handleSubConfirm r g))).
Proof.
  intros H. unfold GameView.handleSubConfirm.
  destruct (GameView.subTarget g) as [[side pos]|]; [|exact H].
  destruct (GameView.blank _); [exact H|].
  destruct pos; cbn [fst]; apply sound_commit;
    [exact H | exact I | reflexivity | exact H | exact I | reflexivity].
Qed.

Lemma sound_handleNextSet (r : App) :
  sound (getCurrentState r) -> sound (getCurrentState (handleNextSet r)).
Proof.
  rewrite !sound_current.
  intros (Hm & Ho & Hs & Hmw & How & Hw & Hb & Hf).
  assert (Hf' : Forall (fun l => setNumber l <= currentSet r + 1) (logs r)).
  { eapply Forall_impl; [|exact Hf]. simpl. intros a Ha. lia. }
  unfold handleNextSet.
  destruct (myScore r >? opScore r); [|destruct (opScore r >? myScore r)];
    simpl; conj_split; try assumption; lia.
Qed.

Lemma sound_loaded (r : App) (g : GameState) (c : TeamConfig) :
  sound g ->
  let a := handleLoadGame r g c in
  getCurrentState a = g /\ history a = [] /\ future a = [] /\
  isGameActive a = true /\ view a = view r.
Proof.
  intros (Hr & _ & _ & Hs & _). cbv zeta.
  destruct g as [cs mw ow ml ol [mr|] [or_|] mb ob ms os st lg];
    try discriminate Hr.
  unfold handleLoadGame, getCurrentState, num_or. cbn in *.
  destruct (Z.eqb_spec cs 0) as [E | _]; [lia|].
  destruct (mw =? 0) eqn:Em; [apply Z.eqb_eq in Em|];
    (destruct (ow =? 0) eqn:Eo; [apply Z.eqb_eq in Eo|]);
    subst; conj_split; reflexivity.
Qed.

Lemma undo_keeps_the_view (r : App) :
  view (handleUndo r) = view r /\ isGameActive (handleUndo r) = isGameActive r.
Proof.
  destruct (HistorySpec.snoc_cases (history r)) as [E | (h & p & E)].
  - now rewrite (HistorySpec.handleUndo_empty r E).
  - rewrite (HistorySpec.handleUndo_snoc r h p E). split; reflexivity.
Qed.

Lemma redo_keeps_the_view (r : App) :
  view (handleRedo r) = view r /\ isGameActive (handleRedo r) = isGameActive r.
Proof.
  destruct (future r) as [|n f] eqn:E.
  - now rewrite (HistorySpec.handleRedo_empty r E).
  - rewrite (HistorySpec.handleRedo_cons r n f E). split; reflexivity.
Qed.

(** A GameView commit keeps the view and the activity flag, and leaves
    on the stacks the snapshots that were there plus the current one. *)
Lemma commit_keeps_the_rest (r : App) nl su lu ns :
  let a := handleGameAction r nl su lu ns in
  view a = view r /\ isGameActive a = isGameActive r /\
  history a = history r ++ [getCurrentState r] /\ future a = [].
Proof.
  cbv zeta.
  destruct (FlowSpec.handleGameAction_fields r nl su lu ns)
    as (_ & _ & _ & _ & _ & _ & _ & _ & _ & _ & _ & _ & _ & Hv & Ha & _).
  destruct (HistorySpec.handleGameAction_stacks r nl su lu ns) as [Hh Hf].
  conj_split; assumption.
Qed.

Lemma keeps_commit (r : App) nl su lu ns :
  sound (getCurrentState (handleGameAction r nl su lu ns)) ->
  keeps r (handleGameAction r nl su lu ns).
Proof.
  intros H. destruct (commit_keeps_the_rest r nl su lu ns) as (Hv & Ha & Hh & Hf).
  unfold keeps. conj_split; try assumption. right. split; assumption.
Qed.

Lemma keeps_same (r : App) : sound (getCurrentState r) -> keeps r r.
Proof. intros H. unfold keeps. conj_split; try reflexivity; try assumption. now left. Qed.

Lemma keeps_handleResult (r : App) (g : GameView.State) k res :
  sound (getCurrentState r) -> keeps r (fst (GameView.handleResult r g k res)).
Proof.
  intros H. pose proof (sound_handleResult r g k res H) as S.
  revert S. unfold GameView.handleResult.
  destruct (GameView.selectedPos g), (GameView.selectedAction g);
    try (intros _; now apply keeps_same).
  destruct res; try destruct (GameView.sideOut r _) as [lu ns]; cbn [fst];
    apply keeps_commit.
Qed.

Lemma keeps_handleScoreAdjust (r : App) k (isMyTeam : bool) (delta : Z) :
  sound (getCurrentState r) ->
  keeps r (GameView.handleScoreAdjust r k isMyTeam delta).
Proof.
  intros H. pose proof (sound_handleScoreAdjust r k isMyTeam delta H) as S.
  revert S. unfold GameView.handleScoreAdjust.
  destruct (_ <? 0); [intros _; now apply keeps_same|].
  destruct (if delta >? 0 then _ else _) as [lu ns]. apply keeps_commit.
Qed.

Lemma keeps_handleRotation (r : App) (isMyTeam : bool) :
  sound (getCurrentState r) -> keeps r (GameView.handleRotation r isMyTeam).
Proof.
  intros H. apply keeps_commit. now apply sound_handleRotation.
Qed.

Lemma keeps_handleSubConfirm (r : App) (g : GameView.State) :
  sound (getCurrentState r) -> keeps r (fst (GameView.handleSubConfirm r g)).
Proof.
  intros H. pose proof (sound_handleSubConfirm r g H) as S.
  revert S. unfold GameView.handleSubConfirm.
  destruct (GameView.subTarget g) as [[side pos]|];
    [|intros _; now apply keeps_same].
  destruct (GameView.blank _); [intros _; now apply keeps_same|].
  destruct pos; cbn [fst]; apply keeps_commit.
Qed.

Lemma invariant_keeps (s : Sys) (a : App) :
  invariant s -> view (app s) = game -> keeps (app s) a ->
  invariant (mkSys a (disk s)).
Proof.
  intros (Hc & Hh & Hf & Hd & Hv & Hp) Hgame (Ks & Kv & Ka & Kst).
  unfold invariant. cbn [app disk].
  rewrite Kv, Ka.
  destruct Kst as [-> | [Kh Kf]].
  - conj_split; assumption.
  - rewrite Kh, Kf. conj_split; try assumption.
    + apply Forall_app. split; [assumption | now constructor].
    + constructor.
    + intros E. rewrite (Hv Hgame) in E. discriminate E.
Qed.

Lemma sound_getItem (st : Persist.Storage) (key : string) (v : Persist.SavedGame) :
  Forall (fun kv => sound (Persist.state (snd kv))) st ->
  Persist.getItem st key = Some v -> sound (Persist.state v).
Proof.
  induction 1 as [|[k w] rest Hw _ IH]; simpl; [discriminate|].
  destruct (String.eqb k key); [intros [= <-]; exact Hw | exact IH].
Qed.

Lemma sound_setItem (st : Persist.Storage) (key : string) (v : Persist.SavedGame) :
  Forall (fun kv => sound (Persist.state (snd kv))) st ->
  sound (Persist.state v) ->
  Forall (fun kv => sound (Persist.state (snd kv))) (Persist.setItem st key v).
Proof.
  intros H Hv. induction H as [|[k w] rest Hw Hrest IH]; simpl.
  - constructor; [exact Hv | constructor].
  - destruct (String.eqb k key); constructor; assumption.
Qed.

Lemma handleGameStart_fields (r : App) c ml ol mr or_ mb ob t :
  let a := handleGameStart r c ml ol mr or_ mb ob t in
  view a = game /\ isGameActive a = true /\
  myScore a = 0 /\ opScore a = 0 /\ history a = [] /\ future a = [] /\
  logs a = logs r /\ currentSet a = currentSet r /\
  mySetWins a = mySetWins r /\ opSetWins a = opSetWins r.
Proof. cbv zeta. repeat split. Qed.

Lemma handleNewMatch_fields (r : App) :
  let a := handleNewMatch r in
  view a = setup /\ isGameActive a = false /\
  myScore a = 0 /\ opScore a = 0 /\ history a = [] /\ future a = [] /\
  logs a = [] /\ currentSet a = 1 /\ mySetWins a = 0 /\ opSetWins a = 0.
Proof. cbv zeta. repeat split. Qed.

Lemma sound_fresh (a : App) :
  myScore a = 0 -> opScore a = 0 -> logs a = [] -> currentSet a = 1 ->
  mySetWins a = 0 -> opSetWins a = 0 -> sound (getCurrentState a).
Proof.
  intros H1 H2 H3 H4 H5 H6. apply sound_current.
  rewrite H1, H2, H3, H4, H5, H6. simpl.
  conj_split; try lia; constructor.
Qed.

Lemma invariant_start (s : Sys) (st : Setup.State) :
  invariant s -> enabled s (Start st) = true -> invariant (step s (Start st)).
Proof.
  intros (Hc & Hh & Hf & Hd & Hv & Hp) En. unfold enabled in En.
  destruct (view (app s)); [|discriminate En].
  apply andb_prop in En. destruct En as [Ea Ee]. apply negb_true_iff in Ea.
  destruct (Setup.errorMsg st) eqn:E; [discriminate Ee|].
  destruct (Hp Ea) as (P1 & P2 & P3 & P4 & P5 & P6 & P7 & P8).
  cbn [step]. unfold Setup.startGame. rewrite E.
  match goal with
  | |- invariant (mkSys (handleGameStart ?r ?c ?ml ?ol ?mr ?or_ ?mb ?ob ?t) _) =>
      destruct (handleGameStart_fields r c ml ol mr or_ mb ob t)
        as (F1 & F2 & F3 & F4 & F5 & F6 & F7 & F8 & F9 & F10)
  end.
  unfold invariant. cbn [app disk].
  rewrite F1, F2, F5, F6.
  split; [apply sound_fresh; congruence|].
  split; [constructor|]. split; [constructor|]. split; [assumption|].
  split; [reflexivity | discriminate].
Qed.

Lemma invariant_resume (s : Sys) :
  invariant s -> enabled s Resume = true -> invariant (step s Resume).
Proof.
  intros (Hc & Hh & Hf & Hd & Hv & Hp) En. unfold enabled in En.
  destruct (view (app s)); [|discriminate En].
  cbn [step]. unfold invariant. cbn [app disk].
  change (getCurrentState (handleResumeGame (app s)))
    with (getCurrentState (app s)).
  change (history (handleResumeGame (app s))) with (history (app s)).
  change (future (handleResumeGame (app s))) with (future (app s)).
  change (isGameActive (handleResumeGame (app s))) with (isGameActive (app s)).
  split; [assumption|]. split; [assumption|]. split; [assumption|].
  split; [assumption|].
  split; [intros _; exact En | intros E; rewrite En in E; discriminate E].
Qed.

Lemma invariant_newMatch (s : Sys) :
  invariant s -> enabled s NewMatch = true -> invariant (step s NewMatch).
Proof.
  intros (Hc & Hh & Hf & Hd & Hv & Hp) En.
  cbn [step].
  destruct (handleNewMatch_fields (app s))
    as (F1 & F2 & F3 & F4 & F5 & F6 & F7 & F8 & F9 & F10).
  unfold invariant. cbn [app disk]. rewrite F1, F5, F6.
  split; [apply sound_fresh; assumption|].
  split; [constructor|]. split; [constructor|]. split; [assumption|].
  split; [discriminate|]. intros _. unfold pristine. conj_split; assumption.
Qed.

Lemma invariant_home (s : Sys) :
  invariant s -> view (app s) = game -> invariant (step s Home).
Proof.
  intros (Hc & Hh & Hf & Hd & Hv & Hp) V.
  cbn [step]. unfold invariant. cbn [app disk].
  change (getCurrentState (handleHome (app s))) with (getCurrentState (app s)).
  change (history (handleHome (app s))) with (history (app s)).
  change (future (handleHome (app s))) with (future (app s)).
  change (isGameActive (handleHome (app s))) with (isGameActive (app s)).
  change (view (handleHome (app s))) with setup.
  split; [assumption|]. split; [assumption|]. split; [assumption|].
  split; [assumption|].
  split; [discriminate | intros E; rewrite (Hv V) in E; discriminate E].
Qed.

Lemma invariant_nextSet (s : Sys) :
  invariant s -> view (app s) = game -> invariant (step s NextSet).
Proof.
  intros (Hc & Hh & Hf & Hd & Hv & Hp) V.
  cbn [step]. unfold invariant. cbn [app disk].
  destruct (HistorySpec.handleNextSet_stacks (app s)) as [-> ->].
  assert (A : isGameActive (handleNextSet (app s)) = true).
  { unfold handleNextSet.
    destruct (myScore (app s) >? opScore (app s));
      [|destruct (opScore (app s) >? myScore (app s))]; exact (Hv V). }
  split; [now apply sound_handleNextSet|].
  split; [apply Forall_app; split; [assumption | constructor; [assumption | constructor]]|].
  split; [constructor|]. split; [assumption|].
  split; [intros _; exact A | intros E; rewrite A in E; discriminate E].
Qed.

Lemma invariant_undo (s : Sys) :
  invariant s -> view (app s) = game -> invariant (step s Undo).
Proof.
  intros (Hc & Hh & Hf & Hd & Hv & Hp) V.
  cbn [step]. unfold invariant. cbn [app disk].
  destruct (undo_keeps_the_view (app s)) as [-> ->].
  destruct (HistorySpec.snoc_cases (history (app s))) as [E | (h & p & E)].
  - rewrite (HistorySpec.handleUndo_empty _ E). conj_split; assumption.
  - rewrite E in Hh. apply Forall_app in Hh. destruct Hh as [Hh Hp'].
    inversion Hp' as [|? ? Sp _]; subst.
    destruct (UnwindSpec.handleUndo_exact _ _ _ E (proj1 Sp))
      as (-> & -> & -> & _).
    conj_split; try assumption.
    + constructor; assumption.
    + intros A. rewrite (Hv V) in A. discriminate A.
Qed.

Lemma invariant_redo (s : Sys) :
  invariant s -> view (app s) = game -> invariant (step s Redo).
Proof.
  intros (Hc & Hh & Hf & Hd & Hv & Hp) V.
  cbn [step]. unfold invariant. cbn [app disk].
  destruct (redo_keeps_the_view (app s)) as [-> ->].
  destruct (future (app s)) as [|n f] eqn:E.
  - rewrite (HistorySpec.handleRedo_empty _ E). rewrite E.
    conj_split; assumption.
  - inversion Hf as [|? ? Sn Sf]; subst.
    destruct (UnwindSpec.handleRedo_exact _ _ _ E (proj1 Sn))
      as (-> & -> & -> & _).
    conj_split; try assumption.
    + apply Forall_app. split; [assumption | constructor; [assumption | constructor]].
    + intros A. rewrite (Hv V) in A. discriminate A.
Qed.

Lemma invariant_save (s : Sys) n now stored :
  invariant s -> invariant (step s (Save n now stored)).
Proof.
  intros (Hc & Hh & Hf & Hd & Hv & Hp).
  cbn [step]. unfold invariant. cbn [app disk].
  conj_split; try assumption.
  unfold Persist.handleConfirmSave. destruct stored; [|assumption].
  apply sound_setItem; [assumption | exact Hc].
Qed.

Lemma invariant_load (s : Sys) (key : string) :
  invariant s -> invariant (step s (Load key)).
Proof.
  intros (Hc & Hh & Hf & Hd & Hv & Hp).
  cbn [step]. unfold invariant. cbn [app disk]. unfold Persist.handleLoadFile.
  destruct (Persist.getItem (disk s) key) as [v|] eqn:E;
    [|conj_split; assumption].
  pose proof (sound_getItem _ _ _ Hd E) as Sv.
  destruct (sound_loaded (app s) (Persist.state v) (Persist.config v) Sv)
    as (-> & -> & -> & A & _).
  split; [assumption|]. split; [constructor|]. split; [constructor|].
  split; [assumption|].
  split; [intros _; exact A | intros E'; rewrite A in E'; discriminate E'].
Qed.

(** Every action of the user keeps the invariant. *)
Lemma invariant_step (s : Sys) (a : Action) :
  invariant s -> enabled s a = true -> invariant (step s a).
Proof.
  intros Inv En.
  destruct a;
    try (now apply invariant_start);
    try (now apply invariant_resume);
    try (now apply invariant_newMatch);
    try (now apply invariant_save);
    try (now apply invariant_load);
    assert (V : view (app s) = game)
      by (unfold enabled in En; destruct (view (app s));
          [discriminate En | reflexivity]);
    pose proof (proj1 Inv) as Hc.
  - now apply invariant_home.
  - now apply invariant_nextSet.
  - now apply invariant_undo.
  - now apply invariant_redo.
  - apply invariant_keeps; [exact Inv | exact V | now apply keeps_handleResult].
  - apply invariant_keeps;
      [exact Inv | exact V | now apply keeps_handleScoreAdjust].
  - apply invariant_keeps; [exact Inv | exact V | now apply keeps_handleRotation].
  - apply invariant_keeps;
      [exact Inv | exact V | now apply keeps_handleSubConfirm].
Qed.

Lemma reachable_invariant (s : Sys) : reachable s -> invariant s.
Proof.
  induction 1 as [|s a _ IH En].
  - unfold invariant, initial. cbn [app disk].
    split; [apply sound_fresh; reflexivity|].
    split; [constructor|]. split; [constructor|]. split; [constructor|].
    split; [discriminate|]. intros _. unfold pristine. conj_split; reflexivity.
  - now apply invariant_step.
Qed.

Lemma run_reachable (s : Sys) (acts : list Action) :
  reachable s -> reachable (run s acts).
Proof.
  revert s. induction acts as [|a rest IH]; intros s H; [exact H|].
  cbn [run]. apply IH.
  destruct (enabled s a) eqn:E; [now apply reach_action | exact H].
Qed.

Lemma sample_reachable : reachable sample.
Proof. apply run_reachable, reach_initial. Qed.

(** X24.  In every state the user can reach, starting from the first
    render on an empty storage: no score is negative, the set counter is
    at least 1, no set-win counter is negative, and the two teams' set
    wins together are at most the number of sets advanced so far. *)
Theorem counters_stay_consistent (s : Sys) :
  reachable s ->
  let r := app s in
  0 <= myScore r /\ 0 <= opScore r /\
  1 <= currentSet r /\
  0 <= mySetWins r /\ 0 <= opSetWins r /\
  mySetWins r + opSetWins r <= currentSet r - 1.
Proof.
  intros H. cbv zeta.
  destruct (reachable_invariant s H) as (Hc & _).
  apply sound_current in Hc. tauto.
Qed.

Lemma counters_stay_consistent_witness :
  let r := app sample in
  reachable sample /\
  0 <= myScore r /\ 0 <= opScore r /\
  1 <= currentSet r /\
  0 <= mySetWins r /\ 0 <= opSetWins r /\
  mySetWins r + opSetWins r <= currentSet r - 1.
Proof.
  cbv zeta. split; [exact sample_reachable|].
  exact (counters_stay_consistent sample sample_reachable).
Defined.

(** X25.  In every state the user can reach, starting from the first
    render on an empty storage, the board shows the resulting score of
    the last ledger entry, and 0:0 while the ledger is empty; and no
    ledger entry carries a set number above the current set. *)
Theorem the_board_shows_the_last_entry (s : Sys) :
  reachable s ->
  let r := app s in
  match lastEntry (logs r) with
  | Some l => log_myScore l = myScore r /\ log_opScore l = opScore r
  | None => myScore r = 0 /\ opScore r = 0
  end /\
  Forall (fun l => setNumber l <= currentSet r) (logs r).
Proof.
  intros H. cbv zeta.
  destruct (reachable_invariant s H) as (Hc & _).
  apply sound_current in Hc. tauto.
Qed.

Lemma the_board_shows_the_last_entry_witness :
  let r := app sample in
  reachable sample /\
  match lastEntry (logs r) with
  | Some l => log_myScore l = myScore r /\ log_opScore l = opScore r
  | None => myScore r = 0 /\ opScore r = 0
  end /\
  Forall (fun l => setNumber l <= currentSet r) (logs r).
Proof.
  cbv zeta. split; [exact sample_reachable|].
  exact (the_board_shows_the_last_entry sample sample_reachable).
Defined.

(** X26.  In every state the user can reach, starting from the first
    render on an empty storage, the game screen is only shown for an
    active match; and whenever the start button can be pressed the setup
    screen is shown, no match is active and the match the button starts
    begins clean: set 1, no set won, 0:0, an empty ledger and empty undo
    and redo stacks, with the game screen shown and the match active. *)
Theorem a_match_starts_clean (s : Sys) :
  reachable s ->
  (view (app s) = game -> isGameActive (app s) = true) /\
  (forall st, enabled s (Start st) = true ->
     let a := app (step s (Start st)) in
     view (app s) = setup /\ isGameActive (app s) = false /\
     view a = game /\ isGameActive a = true /\
     currentSet a = 1 /\ mySetWins a = 0 /\ opSetWins a = 0 /\
     myScore a = 0 /\ opScore a = 0 /\
     logs a = [] /\ history a = [] /\ future a = []).
Proof.
  intros H.
  destruct (reachable_invariant s H) as (_ & _ & _ & _ & Hv & Hp).
  split; [exact Hv|].
  intros st En. cbv zeta.
  unfold enabled in En. destruct (view (app s)) eqn:V; [|discriminate En].
  apply andb_prop in En. destruct En as [Ea Ee]. apply negb_true_iff in Ea.
  destruct (Setup.errorMsg st) eqn:E; [discriminate Ee|].
  destruct (Hp Ea) as (P1 & P2 & P3 & P4 & P5 & P6 & P7 & P8).
  cbn [step app]. unfold Setup.startGame. rewrite E.
  match goal with
  | |- context [handleGameStart ?r ?c ?ml ?ol ?mr ?or_ ?mb ?ob ?t] =>
      destruct (handleGameStart_fields r c ml ol mr or_ mb ob t)
        as (F1 & F2 & F3 & F4 & F5 & F6 & F7 & F8 & F9 & F10)
  end.
  conj_split; congruence.
Qed.

Lemma a_match_starts_clean_witness :
  let g := run initial [Start (Setup.handleTestFill Setup.initialState);
                        Adjust Samples.clock true true] in
  let s := run initial [Start (Setup.handleTestFill Setup.initialState);
                        Adjust Samples.clock true true;
                        Home; NewMatch] in
  let st := Setup.handleTestFill Setup.initialState in
  let a := app (step s (Start st)) in
  (reachable g /\ view (app g) = game /\ isGameActive (app g) = true) /\
  reachable s /\
  enabled s (Start st) = true /\
  view (app s) = setup /\ isGameActive (app s) = false /\
  view a = game /\ isGameActive a = true /\
  currentSet a = 1 /\ mySetWins a = 0 /\ opSetWins a = 0 /\
  myScore a = 0 /\ opScore a = 0 /\
  logs a = [] /\ history a = [] /\ future a = [].
Proof.
  cbv zeta.
  assert (G : reachable
                (run initial [Start (Setup.handleTestFill Setup.initialState);
                              Adjust Samples.clock true true]))
    by apply run_reachable, reach_initial.
  assert (V : view (app (run initial
                [Start (Setup.handleTestFill Setup.initialState);
                 Adjust Samples.clock true true])) = game)
    by (vm_compute; reflexivity).
  assert (R : reachable
                (run initial [Start (Setup.handleTestFill Setup.initialState);
                              Adjust Samples.clock true true;
                              Home; NewMatch]))
    by apply run_reachable, reach_initial.
  assert (E : enabled
                (run initial [Start (Setup.handleTestFill Setup.initialState);
                              Adjust Samples.clock true true;
                              Home; NewMatch])
                (Start (Setup.handleTestFill Setup.initialState)) = true)
    by (vm_compute; reflexivity).
  split; [split; [exact G|]; split; [exact V|]|].
  - exact (proj1 (a_match_starts_clean _ G) V).
  - split; [exact R|]. split; [exact E|].
    exact (proj2 (a_match_starts_clean _ R) _ E).
Defined.

(** X27.  In every state the user can reach, starting from the first
    render on an empty storage, that shows the game screen: a set advance
    leaves the game screen for the setup screen with the match still
    active, where only resuming and starting a new match are offered;
    resuming shows the game again in the next set with the scores, the
    ledger, the lineups and the serving team of the set just ended. *)
Theorem the_next_set_resumes_with_the_old_score (s : Sys) :
  reachable s ->
  view (app s) = game ->
  let s1 := step s NextSet in
  let s2 := step s1 Resume in
  view (app s1) = setup /\ isGameActive (app s1) = true /\
  (forall a, enabled s1 a = true -> a = Resume \/ a = NewMatch) /\
  enabled s1 Resume = true /\
  view (app s2) = game /\
  currentSet (app s2) = currentSet (app s) + 1 /\
  myScore (app s2) = myScore (app s) /\
  opScore (app s2) = opScore (app s) /\
  logs (app s2) = logs (app s) /\
  myLineup (app s2) = myLineup (app s) /\
  opLineup (app s2) = opLineup (app s) /\
  servingTeam (app s2) = servingTeam (app s).
Proof.
  intros H V. cbv zeta.
  destruct (reachable_invariant s H) as (_ & _ & _ & _ & Hv & _).
  pose proof (Hv V) as A.
  assert (F : view (handleNextSet (app s)) = setup /\
              isGameActive (handleNextSet (app s)) = true /\
              currentSet (handleNextSet (app s)) = currentSet (app s) + 1 /\
              myScore (handleNextSet (app s)) = myScore (app s) /\
              opScore (handleNextSet (app s)) = opScore (app s) /\
              logs (handleNextSet (app s)) = logs (app s) /\
              myLineup (handleNextSet (app s)) = myLineup (app s) /\
              opLineup (handleNextSet (app s)) = opLineup (app s) /\
              servingTeam (handleNextSet (app s)) = servingTeam (app s)).
  { unfold handleNextSet.
    destruct (myScore (app s) >? opScore (app s));
      [|destruct (opScore (app s) >? myScore (app s))];
      conj_split; try reflexivity; exact A. }
  destruct F as (F1 & F2 & F3 & F4 & F5 & F6 & F7 & F8 & F9).
  cbn [step app].
  change (view (handleResumeGame (handleNextSet (app s)))) with game.
  change (currentSet (handleResumeGame (handleNextSet (app s))))
    with (currentSet (handleNextSet (app s))).
  change (myScore (handleResumeGame (handleNextSet (app s))))
    with (myScore (handleNextSet (app s))).
  change (opScore (handleResumeGame (handleNextSet (app s))))
    with (opScore (handleNextSet (app s))).
  change (logs (handleResumeGame (handleNextSet (app s))))
    with (logs (handleNextSet (app s))).
  change (myLineup (handleResumeGame (handleNextSet (app s))))
    with (myLineup (handleNextSet (app s))).
  change (opLineup (handleResumeGame (handleNextSet (app s))))
    with (opLineup (handleNextSet (app s))).
  change (servingTeam (handleResumeGame (handleNextSet (app s))))
    with (servingTeam (handleNextSet (app s))).
  conj_split; try assumption; try reflexivity.
  intros a. unfold enabled. cbn [app]. rewrite F1, F2.
  destruct a; try discriminate; tauto.
Qed.

Lemma the_next_set_resumes_with_the_old_score_witness :
  let s := run initial [Start (Setup.handleTestFill Setup.initialState);
                        Result (Samples.pending me (Pos P4) ATTACK)
                               Samples.clock POINT] in
  let s1 := step s NextSet in
  let s2 := step s1 Resume in
  reachable s /\
  view (app s) = game /\
  view (app s1) = setup /\ isGameActive (app s1) = true /\
  (forall a, enabled s1 a = true -> a = Resume \/ a = NewMatch) /\
  enabled s1 Resume = true /\
  view (app s2) = game /\
  currentSet (app s2) = currentSet (app s) + 1 /\
  myScore (app s2) = myScore (app s) /\
  opScore (app s2) = opScore (app s) /\
  logs (app s2) = logs (app s) /\
  myLineup (app s2) = myLineup (app s) /\
  opLineup (app s2) = opLineup (app s) /\
  servingTeam (app s2) = servingTeam (app s).
Proof.
  cbv zeta.
  assert (R : reachable
                (run initial [Start (Setup.handleTestFill Setup.initialState);
                              Result (Samples.pending me (Pos P4) ATTACK)
                                     Samples.clock POINT]))
    by apply run_reachable, reach_initial.
  assert (V : view (app
                (run initial [Start (Setup.handleTestFill Setup.initialState);
                              Result (Samples.pending me (Pos P4) ATTACK)
                                     Samples.clock POINT])) = game)
    by (vm_compute; reflexivity).
  split; [exact R|]. split; [exact V|].
  exact (the_next_set_resumes_with_the_old_score _ R V).
Defined.

End SessionSpec.

(* ================================================================== *)
(** * Properties of the CSV export *)
(* ================================================================== *)

Module CsvSpec.
Import Csv.

Lemma countChar_app (c : ascii) (a b : string) :
  countChar c (a ++ b) = (countChar c a + countChar c b)%nat.
Proof. induction a as [|x a IH]; simpl; [reflexivity | rewrite IH; lia]. Qed.

Lemma countChar_join (c : ascii) (sep : string) (parts : list string) :
  countChar c (Text.join sep parts) =
  (countIn c parts + (List.length parts - 1) * countChar c sep)%nat.
Proof.
  unfold countIn. induction parts as [|p rest IH]; [reflexivity|].
  destruct rest as [|q rest].
  - simpl. lia.
  - change (Text.join sep (p :: q :: rest))
      with (p ++ sep ++ Text.join sep (q :: rest))%string.
    rewrite !countChar_app, IH. simpl. lia.
Qed.

(** The decimal text of an integer holds digits and at most a minus
    sign. *)
Lemma countChar_uint (c : ascii) (d : Decimal.uint) :
  c = comma \/ c = newline ->
  countChar c (NilEmpty.string_of_uint d) = O.
Proof.
  intros Hc. induction d; simpl; try rewrite IHd;
    destruct Hc as [-> | ->]; reflexivity.
Qed.

Lemma countChar_toString (c : ascii) (n : Z) :
  c = comma \/ c = newline -> countChar c (toString n) = O.
Proof.
  intros Hc. unfold toString, NilZero.string_of_int, NilZero.string_of_uint.
  assert (Hminus : forall s, countChar c (String "-" s) = countChar c s).
  { intros s. destruct Hc as [-> | ->]; reflexivity. }
  assert (Hzero : countChar c "0" = O).
  { destruct Hc as [-> | ->]; reflexivity. }
  destruct (Z.to_int n) as [d | d]; [|rewrite Hminus];
    (destruct d; [exact Hzero | apply (countChar_uint c _ Hc) ..]).
Qed.

Lemma countChar_position (c : ascii) (p : Slot) :
  c = comma \/ c = newline -> countChar c (positionText p) = O.
Proof.
  intros [-> | ->]; destruct p as [[]|]; reflexivity.
Qed.

Lemma countChar_label (c : ascii) (a : ActionType) :
  c = comma \/ c = newline -> countChar c (ACTION_LABELS a) = O.
Proof.
  intros [-> | ->]; destruct a; reflexivity.
Qed.

Section Texts.
Variable localeTime : Z -> string.
Variable resultValue : ResultType -> string.

Lemma countChar_row (c : ascii) (cfg : TeamConfig) (l : LogEntry) :
  c = comma \/ c = newline ->
  countChar c (row localeTime resultValue cfg l) =
  (countIn c (freeCells localeTime resultValue cfg l)
   + 9 * countChar c ",")%nat.
Proof.
  intros Hc. unfold row. rewrite countChar_join.
  unfold cells, freeCells, countIn, list_sum.
  cbn [map fold_right List.length].
  rewrite !(countChar_toString c _ Hc), (countChar_position c _ Hc),
    (countChar_label c _ Hc).
  lia.
Qed.

End Texts.

(** X28.  The exported text starts with the byte order mark and the
    header line.  A row holds nine separating commas plus the commas of
    its free-text cells (time, serving team name, jersey, result, note),
    and the whole text holds one line break per ledger entry plus the
    line breaks of those cells: the cells are written unquoted.  So when
    no free-text cell holds a comma or a line break, each row has exactly
    ten fields and the text exactly one line per entry after the
    header. *)
Theorem export_has_one_row_of_ten_fields_per_entry
    (localeTime : Z -> string) (resultValue : ResultType -> string)
    (cfg : TeamConfig) (ledger : list LogEntry) :
  let free := freeCells localeTime resultValue cfg in
  let text := csvContent localeTime resultValue cfg ledger in
  String.prefix
    (BOM ++ "Set,Timestamp,Score (My),Score (Op),Serving,Player,Position,Action,Result,Note")
    text = true /\
  (forall l, countChar comma (row localeTime resultValue cfg l)
             = (9 + countIn comma (free l))%nat) /\
  countChar newline text
    = (List.length ledger
       + list_sum (map (fun l => countIn newline (free l)) ledger))%nat /\
  ((forall l, In l ledger ->
      countIn comma (free l) = O /\ countIn newline (free l) = O) ->
   (forall l, In l ledger ->
      countChar comma (row localeTime resultValue cfg l) = 9%nat) /\
   countChar newline text = List.length ledger).
Proof.
  cbv zeta.
  assert (Hrow : forall l,
    countChar comma (row localeTime resultValue cfg l)
    = (9 + countIn comma (freeCells localeTime resultValue cfg l))%nat).
  { intros l. rewrite countChar_row by now left.
    change (countChar comma ",") with 1%nat. lia. }
  assert (Hnl : countChar newline (csvContent localeTime resultValue cfg ledger)
    = (List.length ledger
       + list_sum (map (fun l => countIn newline
                                   (freeCells localeTime resultValue cfg l))
                       ledger))%nat).
  { unfold csvContent. rewrite countChar_app, countChar_join.
    change (countChar newline BOM) with O.
    change (countChar newline (String (ascii_of_nat 10) EmptyString))
      with 1%nat.
    cbn [List.length]. rewrite length_map.
    unfold countIn at 1. rewrite !map_cons.
    change (list_sum (?x :: ?r)) with (x + list_sum r)%nat.
    change (countChar newline (Text.join "," headers)) with O.
    replace (list_sum (map (countChar newline)
                         (map (row localeTime resultValue cfg) ledger)))
      with (list_sum (map (fun l => countIn newline
                             (freeCells localeTime resultValue cfg l)) ledger)).
    - lia.
    - rewrite map_map. f_equal. apply map_ext. intros l.
      rewrite countChar_row by now right.
      change (countChar newline ",") with O. lia. }
  conj_split.
  - unfold csvContent.
    destruct ledger as [|l rest].
    + vm_compute. reflexivity.
    + change (Text.join (String (ascii_of_nat 10) EmptyString)
                (Text.join "," headers
                 :: map (row localeTime resultValue cfg) (l :: rest)))
        with (Text.join "," headers ++ String (ascii_of_nat 10) EmptyString
              ++ Text.join (String (ascii_of_nat 10) EmptyString)
                   (map (row localeTime resultValue cfg) (l :: rest)))%string.
      generalize (String (ascii_of_nat 10) EmptyString
              ++ Text.join (String (ascii_of_nat 10) EmptyString)
                   (map (row localeTime resultValue cfg) (l :: rest)))%string.
      intros rest'. destruct rest'; vm_compute; reflexivity.
  - exact Hrow.
  - exact Hnl.
  - intros H. split.
    + intros l Hl. rewrite Hrow. destruct (H l Hl) as [-> _]. reflexivity.
    + rewrite Hnl.
      replace (list_sum (map (fun l => countIn newline
                               (freeCells localeTime resultValue cfg l)) ledger))
        with O; [lia|].
      clear Hnl. induction ledger as [|l rest IH]; [reflexivity|].
      rewrite map_cons. change (list_sum (?x :: ?r)) with (x + list_sum r)%nat.
      destruct (H l (or_introl eq_refl)) as [_ ->].
      rewrite <- IH; [reflexivity|]. intros l' Hl'. apply H. now right.
Qed.

End CsvSpec.
